(** * BaseBigInteger: a shallow embedding of [basebiginteger.py]

    The Python class keeps a number as a NumPy integer array of digits,
    least significant digit first, together with a base, a sign flag and the
    NumPy integer type used for freshly created digit arrays.

    Modelling conventions.
    - A NumPy array is a record of its element type and its elements, the
      elements being integers that lie in the range of the element type.
      Arithmetic on elements wraps around in two's complement, the way NumPy
      integer arithmetic on arrays does.
    - Type promotion follows NumPy 2 (NEP 50): an operation between two typed
      operands is carried out in the wider type, and a Python integer adapts
      to the typed operand it meets, an [OverflowError] being raised when
      the element type cannot hold it.  [np.append] of a list of Python
      integers to an array produces an [int64] array.
    - Strings are sequences of the code points 0 to 255.
    - Python's [//] and [%] round towards minus infinity, as [Z.div] and
      [Z.modulo] do.
    - A loop whose number of iterations is not bounded by its input is
      modelled with a fuel argument; running out of fuel is the outcome
      [Diverges]. *)

From Stdlib Require Import String Ascii DecimalString ZArith List Bool Lia.
Import ListNotations.
Local Open Scope Z_scope.

(** ** NumPy integer types and arrays *)

Inductive dtype := int16 | int32 | int64.

Definition bits (t : dtype) : Z :=
  match t with int16 => 16 | int32 => 32 | int64 => 64 end.

Definition promote (t u : dtype) : dtype :=
  match t, u with
  | int64, _ | _, int64 => int64
  | int32, _ | _, int32 => int32
  | int16, int16 => int16
  end.

(** Two's complement wrap-around into the range of [t]. *)
Definition wrap (t : dtype) (x : Z) : Z :=
  (x + 2 ^ (bits t - 1)) mod 2 ^ bits t - 2 ^ (bits t - 1).

(** Whether the element type [t] can hold the integer [x]. *)
Definition fits (t : dtype) (x : Z) : bool :=
  (- 2 ^ (bits t - 1) <=? x) && (x <? 2 ^ (bits t - 1)).

(** ** Outcomes *)

Inductive exn :=
| IndexError | ValueError | TypeError | ZeroDivisionError | OverflowError
| ZeroLength.

Inductive outcome (A : Type) :=
| Ok (a : A)
| Raises (e : exn)
| Diverges.
Arguments Ok {A} a.
Arguments Raises {A} e.
Arguments Diverges {A}.

Definition bind {A B} (o : outcome A) (k : A -> outcome B) : outcome B :=
  match o with
  | Ok a => k a
  | Raises e => Raises e
  | Diverges => Diverges
  end.

Notation "'let*' x ':=' c 'in' k" := (bind c (fun x => k))
  (at level 10, x name, c at level 100, k at level 200).
Notation "'let*' ' pat ':=' c 'in' k" := (bind c (fun x => let pat := x in k))
  (at level 10, pat pattern, c at level 100, k at level 200).

(** ** Arrays *)

Record ndarray := mk_nd { dt : dtype; elts : list Z }.

Definition len (a : ndarray) : Z := Z.of_nat (length (elts a)).

(** [np.zeros(n, dtype=t)] *)
Definition np_zeros (n : Z) (t : dtype) : ndarray :=
  mk_nd t (repeat 0 (Z.to_nat n)).

(** [np.array(l, dtype=t)] on a list of Python integers: an integer that
    [t] cannot hold is an [OverflowError]. *)
Definition np_array (l : list Z) (t : dtype) : outcome ndarray :=
  if forallb (fits t) l then Ok (mk_nd t l) else Raises OverflowError.

(** [np.append(a, b)] *)
Definition np_append (a b : ndarray) : ndarray :=
  mk_nd (promote (dt a) (dt b)) (elts a ++ elts b).

(** [np.append(a, [x])] for a Python integer [x] of the native 64-bit
    range, which NumPy turns into an [int64] array; larger Python integers
    are outside the model. *)
Definition np_append_int (a : ndarray) (x : Z) : ndarray :=
  np_append a (mk_nd int64 [x]).

(** [np.trim_zeros(a, 'b')]: drop the zeros at the back of the array. *)
Fixpoint trim_back (l : list Z) : list Z :=
  match l with
  | [] => []
  | x :: r =>
      match trim_back r with
      | [] => if x =? 0 then [] else [x]
      | r' => x :: r'
      end
  end.

Definition np_trim_zeros (a : ndarray) : ndarray :=
  mk_nd (dt a) (trim_back (elts a)).

(** [a[:m]] and [a[m:]] for [0 <= m]. *)
Definition slice_to (a : ndarray) (m : Z) : ndarray :=
  mk_nd (dt a) (firstn (Z.to_nat m) (elts a)).

Definition slice_from (a : ndarray) (m : Z) : ndarray :=
  mk_nd (dt a) (skipn (Z.to_nat m) (elts a)).

(** [a[:] * s] where [s] is an element of an array of type [ts]. *)
Definition np_scale (a : ndarray) (s : Z) (ts : dtype) : ndarray :=
  let t := promote (dt a) ts in
  mk_nd t (map (fun d => wrap t (d * s)) (elts a)).

(** Floor division and remainder of an array element of type [t] by a
    Python integer [b]: an [OverflowError] when [t] cannot hold [b];
    NumPy yields 0 when the divisor is 0. *)
Definition np_floordiv (t : dtype) (x b : Z) : outcome Z :=
  if fits t b then Ok (if b =? 0 then 0 else wrap t (x / b))
  else Raises OverflowError.

Definition np_mod (t : dtype) (x b : Z) : outcome Z :=
  if fits t b then Ok (if b =? 0 then 0 else wrap t (x mod b))
  else Raises OverflowError.

(** The last element, [a[-1]], of a non-empty array. *)
Definition last_elt (l : list Z) : Z := last l 0.

(** ** The comparator, [get_bigger_smaller] *)

(** The [for] loop over [range(-1, -len(x)-1, -1)], on the two digit lists
    read from the most significant end: [true] when the loop returns [y, x]. *)
Fixpoint scan_swap (xr yr : list Z) : bool :=
  match xr, yr with
  | x :: xt, y :: yt =>
      if x <? y then true
      else if x >? y then false
      else scan_swap xt yt
  | _, _ => false
  end.

(** Whether [get_bigger_smaller x y] returns its arguments exchanged. *)
Definition swapped (x y : ndarray) : bool :=
  if len x <? len y then true
  else if len x =? len y then scan_swap (rev (elts x)) (rev (elts y))
  else false.

Definition get_bigger_smaller (x y : ndarray) : ndarray * ndarray :=
  if swapped x y then (y, x) else (x, y).

(** ** The normalizer, [propogate_carryovers] *)

Section Normalizer.
(** [self._base] and [self._store] *)
Variable self_base : Z.
Variable self_store : dtype.

(** The [for] loop: [cur] is the current content of [result[digit]],
    [rest] the digits above it. *)
Fixpoint carry_scan (t : dtype) (base : Z) (cur : Z) (rest : list Z)
  : outcome (list Z) :=
  match rest with
  | [] => Ok [cur]
  | y :: tl =>
      let* q := np_floordiv t cur base in
      let y' := wrap t (y + q) in
      let* r := np_mod t cur self_base in
      let* tl' := carry_scan t base y' tl in
      Ok (r :: tl')
  end.

(** The [while result[-1] >= self._base] loop on the top digit [top];
    returns the digits that replace [top]. *)
Fixpoint top_carry (fuel : nat) (t : dtype) (top : Z) : outcome (list Z) :=
  if top >=? self_base then
    match fuel with
    | O => Diverges
    | S f =>
        let* q := np_floordiv t top self_base in
        let* r := np_mod t top self_base in
        let* hi := top_carry f t q in
        Ok (r :: hi)
    end
  else Ok [top].

(** The treatment of a negative top digit. *)
Definition fix_negative_top (t : dtype) (l : list Z) (negative : bool)
  : outcome (list Z * bool) :=
  let top := last_elt l in
  if top <? 0 then
    let* r := np_mod t top self_base in
    if 1 <? Z.of_nat (length l) then
      Ok (removelast (removelast l) ++ [r; 0], negb negative)
    else
      Ok (removelast l ++ [r], negb negative)
  else Ok (l, negative).

Definition propogate_carryovers (result : ndarray) (base : Z) (negative : bool)
  : outcome (ndarray * bool) :=
  let t := dt result in
  match elts result with
  | [] => Ok (np_zeros 1 self_store, false)
  | d0 :: rest =>
      let* scanned := carry_scan t base d0 rest in
      let* '(l, neg) := fix_negative_top t scanned negative in
      let* hi := top_carry 64 t (last_elt l) in
      Ok (mk_nd t (removelast l ++ hi), neg)
  end.
End Normalizer.

(** ** The adder and the Karatsuba multiplier *)

Section Methods.
Variable self_base : Z.
Variable self_store : dtype.

(** [result[:overlap] = bigger[:overlap] + smaller] (or [-]) on a copy of
    [bigger]: [f] combines two overlapping digits.  The comparator makes
    [bigger] at least as long as [smaller], so the last case is not
    reached. *)
Fixpoint overlap_op (f : Z -> Z -> Z) (bg sm : list Z) : list Z :=
  match bg, sm with
  | b :: bt, s :: st => f b s :: overlap_op f bt st
  | _, [] => bg
  | [], _ :: _ => []
  end.

(** The element-wise sum or difference is computed in the promoted type
    and stored into the copy of [bigger], which has [bigger]'s type. *)
Definition digit_op (same_sign : bool) (tb ts : dtype) (b s : Z) : Z :=
  wrap tb (wrap (promote tb ts) (if same_sign then b + s else b - s)).

(** In [_add_numbers] the test [n1 is bigger] holds exactly when the
    comparator did not exchange its arguments. *)
Definition _add_numbers (n1 : ndarray) (neg1 : bool) (n2 : ndarray) (neg2 : bool)
  : outcome (ndarray * bool) :=
  let '(bigger, smaller) := get_bigger_smaller n1 n2 in
  let result :=
    mk_nd (dt bigger)
      (overlap_op (digit_op (eqb neg1 neg2) (dt bigger) (dt smaller))
         (elts bigger) (elts smaller)) in
  let* '(result, neg) := propogate_carryovers self_base self_store result self_base
                      (if swapped n1 n2 then neg2 else neg1) in
  Ok (np_trim_zeros result, neg).

Definition _subtract_numbers (n1 : ndarray) (neg1 : bool) (n2 : ndarray) (neg2 : bool)
  : outcome (ndarray * bool) :=
  _add_numbers n1 neg1 n2 (negb neg2).

(** [fuel] bounds the depth of the recursion. *)
Fixpoint _multiply_numbers (fuel : nat) (first second : ndarray)
  : outcome (ndarray * bool) :=
  match fuel with
  | O => Diverges
  | S fuel' =>
      let '(first, second) :=
        if len first <? len second then (second, first) else (first, second) in
      if len first =? 1 then
        propogate_carryovers self_base self_store
          (np_scale second (nth 0 (elts first) 0) (dt first)) self_base false
      else if len second =? 1 then
        propogate_carryovers self_base self_store
          (np_scale first (nth 0 (elts second) 0) (dt second)) self_base false
      else if (len first =? 0) || (len second =? 0) then
        Ok (np_zeros 1 self_store, false)
      else
        let m := Z.shiftr (len first) 1 in
        let b := np_trim_zeros (slice_to first m) in
        let a := slice_from first m in
        let d := np_trim_zeros (slice_to second m) in
        let c := slice_from second m in
        let* '(z2, z2neg) := _multiply_numbers fuel' a c in
        let* '(z0, z0neg) := _multiply_numbers fuel' b d in
        let* ab := _add_numbers a false b false in
        let* cd := _add_numbers c false d false in
        let* '(z1, z1neg) := _multiply_numbers fuel' (fst ab) (fst cd) in
        let* '(z2z0, z2z0neg) := _add_numbers z2 z1neg z0 z0neg in
        let* '(zmiddle, zmneg) := _add_numbers z1 z1neg z2z0 (negb z2z0neg) in
        let zmiddle := np_append (np_zeros m self_store) zmiddle in
        let* '(zends, zendsneg) :=
           _add_numbers (np_append (np_zeros (Z.shiftl m 1) self_store) z2) z2neg
             z0 z0neg in
        _add_numbers zends zendsneg zmiddle zmneg
  end.
End Methods.

(** ** The class *)

Record BaseBigInteger := mkBBI {
  _base : Z;
  _negative : bool;
  _store : dtype;
  _number : ndarray
}.

(** What the constructor accepts as [x]. *)
Inductive pyarg :=
| PyArray (a : ndarray)
| PyInt (n : Z)
| PyStr (s : string).

(** The [while x >= self._base] part of the integer branch: the last digit
    is overwritten (an [OverflowError] when the array's type cannot hold the
    remainder), [x] is divided and the quotient appended. *)
Fixpoint int_loop (fuel : nat) (base : Z) (number : ndarray) (x : Z) : outcome ndarray :=
  if x >=? base then
    match fuel with
    | O => Diverges
    | S f =>
        if fits (dt number) (x mod base) then
          let number :=
            mk_nd (dt number) (removelast (elts number) ++ [x mod base]) in
          let x := x / base in
          int_loop f base (np_append_int number x) x
        else Raises OverflowError
    end
  else Ok number.

Definition int_digits (base : Z) (store : dtype) (x : Z) : outcome ndarray :=
  if base =? 0 then Raises ZeroDivisionError
  else
    let* number := np_array [x mod base] store in
    int_loop (Z.to_nat (Z.log2 x + 1)) base number x.

(** A character is a code point from 0 to 255. *)
Definition ord (c : ascii) : Z := Z.of_N (N_of_ascii c).

Definition is_minus (c : ascii) : bool := ord c =? 45.

(** [x.replace('-', '')] *)
Fixpoint remove_minus (s : string) : string :=
  match s with
  | EmptyString => EmptyString
  | String c r => if is_minus c then remove_minus r else String c (remove_minus r)
  end.

(** [reversed(x)] as a list of characters. *)
Definition reversed (s : string) : list ascii := rev (list_ascii_of_string s).

(** [int(c)] for a one-character string. *)
Definition int_of_char (c : ascii) : outcome Z :=
  if (48 <=? ord c) && (ord c <=? 57) then Ok (ord c - 48) else Raises ValueError.

Fixpoint map_int (l : list ascii) : outcome (list Z) :=
  match l with
  | [] => Ok []
  | c :: r => let* d := int_of_char c in let* ds := map_int r in Ok (d :: ds)
  end.

(** The code points of [c.upper()]: the letters a-z and the accented
    letters from 224 to 254 (but the division sign, 247) lose 32; the sharp
    s becomes the two letters SS; the micro sign and the y with diaeresis
    move to the code points 924 and 376; every other character is kept. *)
Definition upper_codes (c : ascii) : list Z :=
  let o := ord c in
  if (97 <=? o) && (o <=? 122) then [o - 32]
  else if o =? 181 then [924]
  else if o =? 223 then [83; 83]
  else if o =? 255 then [376]
  else if (224 <=? o) && (o <=? 254) && negb (o =? 247) then [o - 32]
  else [o].

(** [reversed(x.upper())] as a list of code points. *)
Definition reversed_upper (s : string) : list Z :=
  rev (flat_map upper_codes (list_ascii_of_string s)).

(** The digit of a code point when the base exceeds 10. *)
Definition alnum_digit (o : Z) : Z :=
  if (48 <=? o) && (o <=? 57) then o - 48 else o - 65 + 10.

(** The [while] loop that deletes most significant zeros down to one digit. *)
Definition strip_top (l : list Z) : list Z :=
  match l with
  | [] => []
  | x :: r => x :: trim_back r
  end.

Definition str_digits (s : string) (base : Z) (negative : bool) (store : dtype)
  : outcome (ndarray * bool) :=
  match s with
  | EmptyString => Raises IndexError
  | String c0 _ =>
      let '(s, negative) :=
        if is_minus c0 then (remove_minus s, true) else (s, negative) in
      if (String.length s <? 1)%nat then Ok (np_zeros 1 store, negative)
      else if base <=? 10 then
        let* ds := map_int (reversed s) in
        let* number := np_array ds store in Ok (number, negative)
      else
        let* number := np_array (map alnum_digit (reversed_upper s)) store in
        Ok (number, negative)
  end.

Definition __init__ (x : pyarg) (base : Z) (negative : bool) (store : dtype)
  : outcome BaseBigInteger :=
  let* '(number, negative) :=
     match x with
     | PyArray a =>
         Ok (if len a <? 1 then np_zeros 1 store else a, negative)
     | PyInt n =>
         let '(n, negative) := if n <? 0 then (- n, true) else (n, negative) in
         let* number := int_digits base store n in Ok (number, negative)
     | PyStr s => str_digits s base negative store
     end in
  let* '(number, negative) :=
     (if 0 <? len number then propogate_carryovers base store number base negative
      else Raises ZeroLength) in
  Ok (mkBBI base negative store (mk_nd (dt number) (strip_top (elts number)))).

(** The default arguments of the constructor. *)
Definition default_store : dtype := int16.
Definition default_base : Z := 10.

Definition __add__ (self other : BaseBigInteger) : outcome BaseBigInteger :=
  let* '(result, neg) := _add_numbers (_base self) (_store self)
                      (_number self) (_negative self)
                      (_number other) (_negative other) in
  __init__ (PyArray result) (_base self) neg (_store self).

Definition __sub__ (self other : BaseBigInteger) : outcome BaseBigInteger :=
  let* '(result, neg) := _add_numbers (_base self) (_store self)
                      (_number self) (_negative self)
                      (_number other) (negb (_negative other)) in
  __init__ (PyArray result) (_base self) neg (_store self).

Definition __mul__ (fuel : nat) (self other : BaseBigInteger) : outcome BaseBigInteger :=
  let* '(result, neg) := _multiply_numbers (_base self) (_store self) fuel
                      (_number self) (_number other) in
  __init__ (PyArray result) (_base self)
    (neg || negb (eqb (_negative self) (_negative other))) default_store.

Definition shift (self : BaseBigInteger) (shift_num : Z) : outcome BaseBigInteger :=
  let* result := __init__ (PyArray (_number self)) (_base self) (_negative self)
              default_store in
  if shift_num =? 0 then Ok result
  else if shift_num >? 0 then
    Ok (mkBBI (_base result) (_negative result) (_store result)
          (np_append (np_zeros shift_num (_store self)) (_number result)))
  else if len (_number result) + shift_num >? 0 then
    Ok (mkBBI (_base result) (_negative result) (_store result)
          (slice_from (_number result) (- shift_num)))
  else __init__ (PyInt 0) (_base self) false default_store.

(** ** Rendering, [__str__] *)

(** [str(n)] for an integer. *)
Definition str_int (n : Z) : string := NilZero.string_of_int (Z.to_int n).

(** [chr(n)]; code points above 255 are outside the modelled alphabet and
    are reported like the negative ones. *)
Definition chr (n : Z) : outcome ascii :=
  if (0 <=? n) && (n <? 256) then Ok (ascii_of_N (Z.to_N n)) else Raises ValueError.

Definition sign_prefix (negative : bool) : string :=
  if negative then "-"%string else ""%string.

Definition join (sep : string) (l : list string) : string :=
  match l with
  | [] => ""%string
  | s :: r => fold_left (fun acc t => acc ++ sep ++ t)%string r s
  end.

(** A digit for a base between 11 and 36. *)
Definition alnum_char (x : Z) : outcome string :=
  if x <? 10 then Ok (str_int x)
  else let* c := chr (65 + x - 10) in Ok (String c EmptyString).

Fixpoint map_alnum (l : list Z) : outcome (list string) :=
  match l with
  | [] => Ok []
  | x :: r => let* s := alnum_char x in let* ss := map_alnum r in Ok (s :: ss)
  end.

Fixpoint zeros_string (n : nat) : string :=
  match n with O => ""%string | S k => String "0" (zeros_string k) end.

(** [s.zfill(width)] *)
Definition zfill (s : string) (width : nat) : string :=
  let pad := zeros_string (width - String.length s) in
  match s with
  | String c r =>
      if (ord c =? 45) || (ord c =? 43) then (String c (pad ++ r))%string
      else (pad ++ s)%string
  | EmptyString => pad
  end.

(** The number of decimal places of a digit: how often [b] can be divided
    by 10 before it reaches 1.  The bases of this branch need at most 9
    divisions. *)
Fixpoint group_width (fuel : nat) (b : Z) : nat :=
  match fuel with
  | O => O
  | S f => if b >? 1 then S (group_width f (b / 10)) else O
  end.

Definition grouped_bases : list Z :=
  [100; 1000; 10000; 100000; 1000000; 10000000; 100000000; 1000000000].

Definition __str__ (self : BaseBigInteger) : outcome string :=
  let digits := rev (elts (_number self)) in
  let sign := sign_prefix (_negative self) in
  if _base self <=? 10 then
    Ok (sign ++ join "" (map str_int digits))%string
  else if _base self <=? 36 then
    let* ss := map_alnum digits in Ok (sign ++ join "" ss)%string
  else if existsb (Z.eqb (_base self)) grouped_bases then
    match digits with
    | [] => Raises IndexError
    | top :: lower =>
        let num := group_width 10 (_base self) in
        Ok (sign ++ str_int top
              ++ join "" (map (fun x => zfill (str_int x) num) lower))%string
    end
  else
    match digits with
    | [] => Ok sign
    | _ :: _ => Raises TypeError
    end.

(** ** Vocabulary of the specification *)

(** The number a little-endian digit list denotes in a base. *)
Fixpoint digits_value (base : Z) (l : list Z) : Z :=
  match l with
  | [] => 0
  | d :: r => d + base * digits_value base r
  end.

(** A magnitude with its sign flag. *)
Definition signed (negative : bool) (m : Z) : Z := if negative then - m else m.

(** The signed integer a value denotes. *)
Definition value_of (v : BaseBigInteger) : Z :=
  signed (_negative v) (digits_value (_base v) (elts (_number v))).

Definition in_range (base : Z) (l : list Z) : Prop :=
  Forall (fun d => 0 <= d < base) l.

(** No most significant zero digit; the empty list qualifies. *)
Definition trimmed (l : list Z) : Prop := last l 1 <> 0.

(** The four representation invariants of the data model. *)
Definition inv_nonempty (v : BaseBigInteger) : Prop := elts (_number v) <> [].
Definition inv_digits (v : BaseBigInteger) : Prop :=
  in_range (_base v) (elts (_number v)).
Definition inv_no_leading_zero (v : BaseBigInteger) : Prop :=
  elts (_number v) = [0] \/ trimmed (elts (_number v)).
Definition inv_zero_sign (v : BaseBigInteger) : Prop :=
  elts (_number v) = [0] -> _negative v = false.

(** Invariants 1 to 3. *)
Definition canonical (v : BaseBigInteger) : Prop :=
  inv_nonempty v /\ inv_digits v /\ inv_no_leading_zero v.

(** The capacity condition of the data model for 16-bit digits: the square
    of a digit, plus a carry, fits. *)
Definition capacity (base : Z) : Prop := 2 <= base /\ base * base <= 2 ^ 15.

(** Two values with the same digits, sign and base. *)
Definition same_value (v w : BaseBigInteger) : Prop :=
  elts (_number v) = elts (_number w) /\ _negative v = _negative w
  /\ _base v = _base w.

(** The canonical digit lists: the single digit zero, or a non-empty list
    without a most significant zero. *)
Definition canon (l : list Z) : Prop := l = [0] \/ (trimmed l /\ l <> []).

(** What the multiplier's recursion expects of an operand: no most
    significant zero, or a single digit. *)
Definition shape (l : list Z) : Prop := trimmed l \/ length l = 1%nat.

(** An integer that the element type [t] can hold. *)
Definition in_dtype (t : dtype) (x : Z) : Prop :=
  - 2 ^ (bits t - 1) <= x < 2 ^ (bits t - 1).

(** An array whose elements its element type holds, as those of every
    NumPy array are. *)
Definition well_typed (a : ndarray) : Prop := Forall (in_dtype (dt a)) (elts a).

(** The decimal digit characters, the ones [int] accepts. *)
Definition is_decimal (c : ascii) : bool := (48 <=? ord c) && (ord c <=? 57).

(** The string the decoder reads digits from: when the first character is
    a minus sign every minus sign is removed. *)
Definition sign_stripped (s : string) : string :=
  match s with
  | EmptyString => EmptyString
  | String c0 _ => if is_minus c0 then remove_minus s else s
  end.

(** The character that renders a digit below 36: '0'..'9', then 'A'..'Z'. *)
Definition digit_char (d : Z) : ascii :=
  ascii_of_N (Z.to_N (if d <? 10 then 48 + d else 55 + d)).

(** The digits a string of decimal digit characters spells, least
    significant first. *)
Definition decimal_digits (s : string) : list Z :=
  map (fun c => ord c - 48) (reversed s).

(** The letters and digits of the alphabet of a base above 10. *)
Definition is_alnum (c : ascii) : bool :=
  let o := ord c in
  ((48 <=? o) && (o <=? 57)) || ((65 <=? o) && (o <=? 90))
  || ((97 <=? o) && (o <=? 122)).

(** The digits a string spells in a base above 10, least significant
    first. *)
Definition alnum_digits (s : string) : list Z :=
  map alnum_digit (reversed_upper s).

(** Whether a string starts with a minus sign. *)
Definition starts_with_minus (s : string) : bool :=
  match s with
  | EmptyString => false
  | String c _ => is_minus c
  end.

(** The string of [n] minus signs. *)
Fixpoint minus_signs (n : nat) : string :=
  match n with
  | O => EmptyString
  | S k => String "-" (minus_signs k)
  end.

(** *** Reading a rendering back *)

(** The digit that a character of a rendering stands for: 0-9, then A-Z
    for 10 to 35. *)
Definition char_digit (c : ascii) : option Z :=
  let o := ord c in
  if (48 <=? o) && (o <=? 57) then Some (o - 48)
  else if (65 <=? o) && (o <=? 90) then Some (o - 55)
  else None.

(** The number that digit characters spell in a radix, the most
    significant first, on top of [acc]. *)
Fixpoint read_digits (radix acc : Z) (l : list ascii) : option Z :=
  match l with
  | [] => Some acc
  | c :: r =>
      match char_digit c with
      | Some d => if d <? radix then read_digits radix (radix * acc + d) r else None
      | None => None
      end
  end.

(** The integer that a rendering denotes: an optional minus sign, then at
    least one digit. *)
Definition read_integer (radix : Z) (s : string) : option Z :=
  match list_ascii_of_string s with
  | [] => None
  | c :: r =>
      if is_minus c then
        match r with
        | [] => None
        | _ :: _ => option_map Z.opp (read_digits radix 0 r)
        end
      else read_digits radix 0 (c :: r)
  end.

(** The radix in which a rendering reads: the base itself up to 36, and
    10 for the grouped bases. *)
Definition rendering_radix (base : Z) : Z := if base <=? 36 then base else 10.

(** *** The schoolbook reference multiplication *)






(** ** Sample values *)

(** Two operands configured with a 64-bit store. *)
Definition wide_12 : BaseBigInteger := mkBBI 10 false int64 (mk_nd int64 [2; 1]).
Definition wide_34 : BaseBigInteger := mkBBI 10 false int64 (mk_nd int64 [4; 3]).

(** The values -15 and 0 in base 10. *)
Definition minus_15 : BaseBigInteger := mkBBI 10 true int16 (mk_nd int16 [5; 1]).
Definition zero_10 : BaseBigInteger := mkBBI 10 false int16 (mk_nd int16 [0]).

(** The digits of 99 and of 100. *)
Definition digits_99 : ndarray := mk_nd int16 [9; 9].
Definition digits_100 : ndarray := mk_nd int16 [0; 0; 1].

(** The empty array of a given element type. *)
Definition empty_array (t : dtype) : ndarray := mk_nd t [].

(** * Properties *)

(** ** The comparator *)

Lemma scan_swap_refl (l : list Z) : scan_swap l l = false.
Proof.
  induction l as [|x l IH]; simpl; trivial.
  rewrite Z.gtb_ltb, Z.ltb_irrefl. exact IH.
Qed.

Lemma scan_swap_common (hi : list Z) (xs ys : list Z) :
  scan_swap (hi ++ xs) (hi ++ ys) = scan_swap xs ys.
Proof.
  induction hi as [|h hi IH]; simpl; trivial.
  rewrite Z.ltb_irrefl, Z.gtb_ltb, Z.ltb_irrefl. exact IH.
Qed.

Lemma swapped_first_difference (x y : ndarray) (lx ly hi : list Z) (dx dy : Z) :
  elts x = lx ++ dx :: hi -> elts y = ly ++ dy :: hi ->
  length lx = length ly -> dx <> dy ->
  swapped x y = (dx <? dy).
Proof.
  intros Hx Hy Hl Hd. unfold swapped, len. rewrite Hx, Hy.
  rewrite !length_app. simpl. rewrite Hl, Z.ltb_irrefl, Z.eqb_refl.
  rewrite !rev_app_distr. simpl. rewrite <- !app_assoc.
  rewrite scan_swap_common. simpl.
  destruct (dx <? dy) eqn:E; trivial.
  rewrite Z.gtb_ltb.
  assert ((dy <? dx) = true) as -> by (apply Z.ltb_lt; apply Z.ltb_ge in E; lia).
  reflexivity.
Qed.

(** C9: the comparator returns (bigger, smaller): the longer sequence is the
    bigger; at equal length the first differing digit, read from the most
    significant end, decides; when all digits are equal the first operand is
    returned as the bigger. *)
Theorem get_bigger_smaller_spec (x y : ndarray) :
  (len x < len y -> get_bigger_smaller x y = (y, x)) /\
  (len y < len x -> get_bigger_smaller x y = (x, y)) /\
  (forall lx ly hi dx dy,
      elts x = lx ++ dx :: hi -> elts y = ly ++ dy :: hi ->
      length lx = length ly -> dx <> dy ->
      get_bigger_smaller x y = if dx <? dy then (y, x) else (x, y)) /\
  (elts x = elts y -> get_bigger_smaller x y = (x, y)).
Proof.
  unfold get_bigger_smaller. repeat split.
  - intros H. unfold swapped. apply Z.ltb_lt in H. rewrite H. reflexivity.
  - intros H. unfold swapped.
    assert ((len x <? len y) = false) as -> by (apply Z.ltb_ge; lia).
    assert ((len x =? len y) = false) as -> by (apply Z.eqb_neq; lia).
    reflexivity.
  - intros lx ly hi dx dy Hx Hy Hl Hd.
    rewrite (swapped_first_difference x y lx ly hi dx dy Hx Hy Hl Hd). reflexivity.
  - intros H. unfold swapped, len. rewrite H, Z.ltb_irrefl, Z.eqb_refl, scan_swap_refl.
    reflexivity.
Qed.

Lemma get_bigger_smaller_spec_witness :
  get_bigger_smaller (mk_nd int16 [9; 2; 7]) (mk_nd int16 [1; 5; 7])
  = (mk_nd int16 [1; 5; 7], mk_nd int16 [9; 2; 7])
  /\ get_bigger_smaller (mk_nd int16 [1; 1]) (mk_nd int16 [9])
     = (mk_nd int16 [1; 1], mk_nd int16 [9])
  /\ get_bigger_smaller (mk_nd int16 [4; 2]) (mk_nd int16 [4; 2])
     = (mk_nd int16 [4; 2], mk_nd int16 [4; 2]).
Proof.
  split; [|split].
  - apply (proj1 (proj2 (proj2 (get_bigger_smaller_spec (mk_nd int16 [9; 2; 7])
                                   (mk_nd int16 [1; 5; 7]))))
             [9] [1] [7] 2 5); simpl; try reflexivity; lia.
  - apply (proj1 (proj2 (get_bigger_smaller_spec (mk_nd int16 [1; 1]) (mk_nd int16 [9])))).
    unfold len; simpl; lia.
  - apply (proj2 (proj2 (proj2 (get_bigger_smaller_spec (mk_nd int16 [4; 2])
                                   (mk_nd int16 [4; 2]))))).
    reflexivity.
Defined.

(** ** Element types and wrap-around *)

Lemma fits_iff (t : dtype) (x : Z) : fits t x = true <-> in_dtype t x.
Proof.
  unfold fits, in_dtype. rewrite Bool.andb_true_iff, Z.leb_le, Z.ltb_lt. tauto.
Qed.

Lemma wrap_range (t : dtype) (x : Z) : in_dtype t (wrap t x).
Proof.
  unfold in_dtype, wrap.
  assert (0 < 2 ^ (bits t - 1) /\ 2 ^ bits t = 2 * 2 ^ (bits t - 1)) as [H1 H2]
    by (destruct t; cbn; lia).
  pose proof (Z.mod_pos_bound (x + 2 ^ (bits t - 1)) (2 ^ bits t) ltac:(lia)). lia.
Qed.

Lemma wrap_id (t : dtype) (x : Z) : in_dtype t x -> wrap t x = x.
Proof.
  unfold in_dtype, wrap. intros H.
  assert (2 ^ bits t = 2 * 2 ^ (bits t - 1)) as H2 by (destruct t; cbn; lia).
  rewrite Z.mod_small; lia.
Qed.

Lemma in_dtype_zero (t : dtype) : in_dtype t 0.
Proof. unfold in_dtype. destruct t; cbn; lia. Qed.

(** Every element type holds the 16-bit integers. *)
Lemma in_dtype_small (t : dtype) (x : Z) :
  - 2 ^ 15 <= x < 2 ^ 15 -> in_dtype t x.
Proof. unfold in_dtype. destruct t; cbn [bits]; lia. Qed.

Lemma in_dtype_between (t : dtype) (lo hi x : Z) :
  in_dtype t lo -> in_dtype t hi -> lo <= x <= hi -> in_dtype t x.
Proof. unfold in_dtype. lia. Qed.

Lemma in_dtype_promote (t u : dtype) (x : Z) :
  in_dtype t x -> in_dtype (promote t u) x /\ in_dtype (promote u t) x.
Proof. unfold in_dtype. destruct t, u; cbn [promote bits]; lia. Qed.

(** An element type that holds the sum of two digits and a carry holds
    what the adder and the normalizer make of digits in range. *)
Lemma roomy_between (b : Z) (t : dtype) (x : Z) :
  2 <= b -> in_dtype t (2 * b - 1) -> - b - 2 <= x <= 2 * b - 1 -> in_dtype t x.
Proof. unfold in_dtype. intros Hb H Hx. destruct t; cbn [bits] in *; lia. Qed.

Lemma roomy_small (b : Z) (t : dtype) : 2 * b <= 2 ^ 15 -> 0 <= b -> in_dtype t (2 * b - 1).
Proof. intros H H0. apply in_dtype_small. lia. Qed.

Lemma wrap_small (t : dtype) (x : Z) :
  - 2 ^ 15 <= x < 2 ^ 15 -> wrap t x = x.
Proof. intros H. now apply wrap_id, in_dtype_small. Qed.

Lemma np_floordiv_ok (t : dtype) (x b : Z) :
  in_dtype t b -> b <> 0 -> in_dtype t (x / b) -> np_floordiv t x b = Ok (x / b).
Proof.
  intros Hb Hz H. unfold np_floordiv.
  rewrite (proj2 (fits_iff t b) Hb).
  destruct (Z.eqb_spec b 0); [contradiction|]. now rewrite wrap_id.
Qed.

Lemma np_mod_ok (t : dtype) (x b : Z) :
  in_dtype t b -> 0 < b -> np_mod t x b = Ok (x mod b).
Proof.
  intros Hb Hp. unfold np_mod.
  rewrite (proj2 (fits_iff t b) Hb).
  destruct (Z.eqb_spec b 0); [lia|]. rewrite wrap_id; trivial.
  pose proof (Z.mod_pos_bound x b Hp). unfold in_dtype in *. lia.
Qed.

(** ** Digit lists and the numbers they denote *)

Section Digits.
Variable b : Z.
Hypothesis Hb : 2 <= b.

Lemma digits_value_app (l r : list Z) :
  digits_value b (l ++ r)
  = digits_value b l + b ^ Z.of_nat (length l) * digits_value b r.
Proof.
  induction l as [|d l IH]; simpl length; simpl app; simpl digits_value.
  - rewrite Z.pow_0_r. lia.
  - rewrite IH, Nat2Z.inj_succ, Z.pow_succ_r by lia. ring.
Qed.

Lemma digits_value_repeat0 (n : nat) : digits_value b (repeat 0 n) = 0.
Proof. induction n; simpl; lia. Qed.

Lemma digits_value_bound (l : list Z) :
  in_range b l -> 0 <= digits_value b l < b ^ Z.of_nat (length l).
Proof.
  induction 1 as [|d l Hd Hl IH]; simpl length; simpl digits_value.
  - rewrite Z.pow_0_r. lia.
  - rewrite Nat2Z.inj_succ, Z.pow_succ_r by lia. nia.
Qed.

Lemma digits_value_split (n : nat) (l : list Z) :
  digits_value b l
  = digits_value b (firstn n l) + b ^ Z.of_nat n * digits_value b (skipn n l).
Proof.
  revert l. induction n as [|n IH]; intros l.
  - simpl firstn; simpl skipn; simpl digits_value. rewrite Z.pow_0_r. lia.
  - destruct l as [|d l]; simpl firstn; simpl skipn; simpl digits_value.
    + lia.
    + rewrite (IH l), Nat2Z.inj_succ, Z.pow_succ_r by lia. ring.
Qed.

Lemma in_range_app (l r : list Z) :
  in_range b (l ++ r) <-> in_range b l /\ in_range b r.
Proof. apply Forall_app. Qed.

Lemma in_range_firstn (n : nat) (l : list Z) :
  in_range b l -> in_range b (firstn n l).
Proof.
  intros H. rewrite <- (firstn_skipn n l) in H. now apply in_range_app in H.
Qed.

Lemma in_range_skipn (n : nat) (l : list Z) :
  in_range b l -> in_range b (skipn n l).
Proof.
  intros H. rewrite <- (firstn_skipn n l) in H. now apply in_range_app in H.
Qed.

Lemma in_range_repeat0 (n : nat) : in_range b (repeat 0 n).
Proof. induction n; simpl; constructor; trivial; lia. Qed.

(** *** Trimming *)

Lemma trim_back_value (l : list Z) :
  digits_value b (trim_back l) = digits_value b l.
Proof.
  induction l as [|x l IH]; simpl; trivial.
  destruct (trim_back l) as [|y r] eqn:E.
  - simpl in IH. destruct (Z.eqb_spec x 0); simpl; lia.
  - simpl in *. lia.
Qed.

Lemma trim_back_in_range (l : list Z) :
  in_range b l -> in_range b (trim_back l).
Proof.
  induction 1 as [|x l Hx Hl IH]; simpl; [constructor|].
  destruct (trim_back l) as [|y r] eqn:E.
  - destruct (x =? 0); constructor; trivial.
  - constructor; trivial.
Qed.

Lemma trim_back_trimmed (l : list Z) : trimmed (trim_back l).
Proof.
  unfold trimmed. induction l as [|x l IH]; simpl; [lia|].
  destruct (trim_back l) as [|y r] eqn:E.
  - destruct (Z.eqb_spec x 0); simpl; lia.
  - exact IH.
Qed.

Lemma trim_back_id (l : list Z) : trimmed l -> trim_back l = l.
Proof.
  unfold trimmed. induction l as [|x l IH]; simpl; trivial.
  destruct l as [|y r].
  - simpl. intros H. destruct (Z.eqb_spec x 0); [contradiction|trivial].
  - intros H. rewrite IH by exact H. reflexivity.
Qed.

Lemma trim_back_length (l : list Z) : (length (trim_back l) <= length l)%nat.
Proof.
  induction l as [|x l IH]; simpl; trivial.
  destruct (trim_back l) as [|y r] eqn:E.
  - destruct (x =? 0); simpl; lia.
  - simpl in *. lia.
Qed.

(** A trimmed non-empty list denotes at least [b ^ (length - 1)]. *)
Lemma trimmed_value_lower (l : list Z) :
  in_range b l -> trimmed l -> l <> [] ->
  b ^ (Z.of_nat (length l) - 1) <= digits_value b l.
Proof.
  intros Hr Ht Hne.
  destruct (exists_last Hne) as [l0 [t ->]].
  unfold trimmed in Ht. rewrite last_last in Ht.
  apply in_range_app in Hr. destruct Hr as [Hr0 Hrt].
  inversion Hrt as [|? ? Htr _]; subst.
  rewrite digits_value_app, length_app. simpl length. simpl digits_value.
  replace (Z.of_nat (length l0 + 1) - 1) with (Z.of_nat (length l0)) by lia.
  pose proof (digits_value_bound l0 Hr0).
  assert (0 < b ^ Z.of_nat (length l0)) by (apply Z.pow_pos_nonneg; lia).
  nia.
Qed.

Lemma trimmed_value_pos (l : list Z) :
  in_range b l -> trimmed l -> l <> [] -> 0 < digits_value b l.
Proof.
  intros Hr Ht Hne. pose proof (trimmed_value_lower l Hr Ht Hne).
  assert (0 < b ^ (Z.of_nat (length l) - 1)).
  { apply Z.pow_pos_nonneg; [lia|]. destruct l; [contradiction|simpl length; lia]. }
  lia.
Qed.

Lemma trimmed_skipn (n : nat) (l : list Z) : trimmed l -> trimmed (skipn n l).
Proof.
  unfold trimmed. revert l. induction n as [|n IH]; intros l H; simpl; trivial.
  destruct l as [|x l]; trivial.
  apply IH. destruct l; simpl in *; [lia|exact H].
Qed.
End Digits.

(** ** The normalizer on digits that do not overflow

    [D] bounds the digits handed to the normalizer from above, [H] the
    content of a digit once the carry from below has been added; the
    element type [t] of the array holds [H] and [- b - 2]. *)

Section Carry.
Variable b D H N : Z.
Variable st t : dtype.
Hypothesis Hb : 2 <= b.
Hypothesis HN : 0 <= N <= b.
Hypothesis HD : 0 <= D <= H.
Hypothesis HDH : D + H / b <= H.
Hypothesis HH : in_dtype t H.
Hypothesis Hfit : in_dtype t b.
Hypothesis Hlow : in_dtype t (- N - 2).

(** The digits handed to the normalizer lie between [- N] and [D]; the
    digit under the scan, with the carry added, between [- N - 2] and [H]. *)
Let digit_ok (d : Z) : Prop := - N <= d <= D.
Let cur_ok (c : Z) : Prop := - N - 2 <= c <= H.

Lemma carry_base_fits : in_dtype t b.
Proof. exact Hfit. Qed.

Lemma cur_ok_fits (c : Z) : cur_ok c -> in_dtype t c.
Proof. intros Hc. apply (in_dtype_between t (- N - 2) H); trivial. Qed.

Lemma carry_quotient (cur : Z) : cur_ok cur -> - 2 <= cur / b <= H / b.
Proof.
  intros [Hl Hu]. split.
  - apply Z.div_le_lower_bound; lia.
  - apply Z.div_le_mono; lia.
Qed.

Lemma carry_scan_spec (rest : list Z) :
  forall cur, cur_ok cur -> Forall digit_ok rest ->
  exists lo top,
    carry_scan b t b cur rest = Ok (lo ++ [top])
    /\ length lo = length rest
    /\ in_range b lo
    /\ cur_ok top
    /\ digits_value b (lo ++ [top]) = cur + b * digits_value b rest.
Proof.
  induction rest as [|y tl IH]; intros cur Hc Hr.
  - exists [], cur. simpl. repeat split; try constructor; try apply Hc; lia.
  - inversion Hr as [|? ? Hy Htl]; subst.
    pose proof (carry_quotient cur Hc) as Hq.
    assert (H / b <= H) by lia.
    cbn [carry_scan].
    rewrite np_floordiv_ok;
      [|apply carry_base_fits|lia
       |apply cur_ok_fits; unfold cur_ok, digit_ok in *; lia].
    cbn [bind].
    rewrite np_mod_ok by (try apply carry_base_fits; lia).
    cbn [bind].
    assert (Hy' : cur_ok (y + cur / b)) by (unfold cur_ok, digit_ok in *; lia).
    rewrite wrap_id by (now apply cur_ok_fits).
    destruct (IH (y + cur / b) Hy' Htl) as (lo & top & E & Hlen & Hlo & Htop & Hv).
    exists (cur mod b :: lo), top. rewrite E. cbn [bind app length].
    repeat split; trivial.
    + now rewrite Hlen.
    + constructor; trivial. apply Z.mod_pos_bound. lia.
    + apply Htop.
    + apply Htop.
    + cbn [app digits_value] in *. rewrite Hv.
      pose proof (Z.div_mod cur b ltac:(lia)). lia.
Qed.

Lemma top_carry_spec (fuel : nat) :
  forall (top : Z),
  0 <= top < 2 ^ Z.of_nat fuel -> in_dtype t top ->
  exists hi,
    top_carry b fuel t top = Ok hi /\ in_range b hi /\ hi <> []
    /\ digits_value b hi = top.
Proof.
  induction fuel as [|f IH]; intros top Ht Hd.
  - change (2 ^ Z.of_nat 0) with 1 in Ht. cbn [top_carry].
    destruct (Z.geb_spec top b); [lia|].
    eexists. split; [reflexivity|]. repeat split.
    + constructor; [lia|constructor].
    + discriminate.
    + cbn. lia.
  - cbn [top_carry]. destruct (Z.geb_spec top b) as [Hge|Hlt].
    + assert (Hq : 1 <= top / b /\ top / b < 2 ^ Z.of_nat f /\ top / b < top).
      { rewrite Nat2Z.inj_succ, Z.pow_succ_r in Ht by lia.
        repeat split.
        - apply Z.div_le_lower_bound; lia.
        - apply Z.div_lt_upper_bound; [lia|]. nia.
        - apply Z.div_lt_upper_bound; [lia|]. nia. }
      assert (Hqd : in_dtype t (top / b)) by (unfold in_dtype in *; lia).
      rewrite np_floordiv_ok by (try apply carry_base_fits; trivial; lia).
      cbn [bind].
      rewrite np_mod_ok by (try apply carry_base_fits; lia).
      cbn [bind].
      destruct (IH (top / b) ltac:(lia) Hqd) as (hi & E & Rh & Nh & Vh).
      rewrite E. cbn [bind]. eexists. split; [reflexivity|]. repeat split.
      * constructor; [apply Z.mod_pos_bound; lia|exact Rh].
      * discriminate.
      * cbn [digits_value]. rewrite Vh.
        pose proof (Z.div_mod top b ltac:(lia)). lia.
    + eexists. split; [reflexivity|]. repeat split.
      * constructor; [lia|constructor].
      * discriminate.
      * cbn. lia.
Qed.

Lemma in_dtype_below_64 (x : Z) : in_dtype t x -> x < 2 ^ Z.of_nat 64.
Proof.
  unfold in_dtype. change (2 ^ Z.of_nat 64) with (2 ^ 64).
  assert (2 ^ (bits t - 1) <= 2 ^ 63) by (destruct t; cbn; lia). lia.
Qed.

(** The normalizer keeps the number and brings every digit into range,
    provided the digits denote a non-negative number. *)
Lemma propogate_carryovers_spec (result : ndarray) (negative : bool) :
  dt result = t ->
  elts result <> [] -> Forall digit_ok (elts result) ->
  0 <= digits_value b (elts result) ->
  exists l,
    propogate_carryovers b st result b negative = Ok (mk_nd t l, negative)
    /\ in_range b l /\ l <> []
    /\ digits_value b l = digits_value b (elts result).
Proof.
  intros Ht Hne Hr Hv. unfold propogate_carryovers. rewrite Ht.
  destruct (elts result) as [|d0 rest] eqn:E; [contradiction|].
  pose proof (Forall_inv Hr) as Hd0. pose proof (Forall_inv_tail Hr) as Hrest.
  assert (Hc : cur_ok d0) by (unfold cur_ok, digit_ok in *; lia).
  destruct (carry_scan_spec rest d0 Hc Hrest)
    as (lo & top & Es & Hlen & Hlo & Htop & Hval).
  rewrite Es. cbn [bind].
  assert (Htop0 : 0 <= top).
  { rewrite digits_value_app in Hval by lia. simpl in Hval, Hv.
    pose proof (digits_value_bound b Hb lo Hlo).
    destruct (Z.le_gt_cases 0 top); trivial. nia. }
  unfold fix_negative_top, last_elt. rewrite last_last.
  destruct (Z.ltb_spec top 0); [lia|]. cbn [bind].
  rewrite last_last, removelast_last.
  pose proof (cur_ok_fits top Htop) as Hft.
  destruct (top_carry_spec 64 top) as (hi & Eh & Hhi & Hhne & Hhv);
    [pose proof (in_dtype_below_64 top Hft); lia|exact Hft|].
  rewrite Eh. cbn [bind]. eexists. split; [reflexivity|]. repeat split.
  - apply in_range_app. now split.
  - destruct lo; [exact Hhne|discriminate].
  - rewrite digits_value_app in * by lia. simpl in Hval. simpl. lia.
Qed.
End Carry.

(** The most-significant digit is spread over as many digits as it needs;
    nothing is divided when it is below the base. *)
Lemma top_carry_digits (b : Z) (t : dtype) (fuel : nat) :
  2 <= b ->
  forall p, 0 <= p < 2 ^ Z.of_nat fuel -> in_dtype t p -> p < b \/ in_dtype t b ->
  exists hi,
    top_carry b fuel t p = Ok hi
    /\ in_range b hi /\ hi <> [] /\ digits_value b hi = p
    /\ (p < b -> hi = [p]).
Proof.
  intros Hb. induction fuel as [|f IH]; intros p Hlt Hin Hfit.
  - cbn in Hlt. assert (p = 0) as -> by lia.
    cbn [top_carry]. assert ((0 >=? b) = false) as -> by (rewrite Z.geb_leb; apply Z.leb_gt; lia).
    exists [0]. repeat split; try (constructor; [lia|constructor]);
      try discriminate. cbn. lia.
  - cbn [top_carry].
    destruct (Z.lt_ge_cases p b) as [Hs|Hl].
    + assert ((p >=? b) = false) as -> by (rewrite Z.geb_leb; apply Z.leb_gt; lia).
      exists [p]. repeat split; try (constructor; [lia|constructor]);
        try discriminate. cbn. lia.
    + assert ((p >=? b) = true) as -> by (rewrite Z.geb_leb; apply Z.leb_le; lia).
      assert (Hfit' : in_dtype t b) by (destruct Hfit; [lia|assumption]).
      assert (Hq : 0 <= p / b < p).
      { split; [apply Z.div_pos; lia|apply Z.div_lt; lia]. }
      rewrite np_floordiv_ok; trivial; try lia;
        [|unfold in_dtype in *; lia].
      rewrite np_mod_ok by (trivial; lia). cbn [bind].
      destruct (IH (p / b)) as (hi & E & R & N & V & _).
      * split; [lia|].
        rewrite Nat2Z.inj_succ, Z.pow_succ_r in Hlt by lia.
        pose proof (Z.pow_pos_nonneg 2 (Z.of_nat f) ltac:(lia) ltac:(lia)).
        apply Z.div_lt_upper_bound; nia.
      * unfold in_dtype in *. lia.
      * now right.
      * rewrite E. cbn [bind]. exists ((p mod b) :: hi).
        repeat split; try discriminate.
        -- constructor; [apply Z.mod_pos_bound; lia|exact R].
        -- cbn [digits_value]. rewrite V.
           pose proof (Z.div_mod p b ltac:(lia)). lia.
        -- intros; lia.
Qed.

Lemma in_dtype_lt_64 (t : dtype) (p : Z) : in_dtype t p -> p < 2 ^ Z.of_nat 64.
Proof. unfold in_dtype. destruct t; cbn [bits]; cbn; lia. Qed.

(** A single digit that is not negative. *)
Lemma propogate_carryovers_single (b : Z) (st t : dtype) (p : Z) (negative : bool) :
  2 <= b -> p < b \/ in_dtype t b -> 0 <= p -> in_dtype t p ->
  exists l,
    propogate_carryovers b st (mk_nd t [p]) b negative = Ok (mk_nd t l, negative)
    /\ in_range b l /\ l <> [] /\ digits_value b l = p
    /\ (p < b -> l = [p]).
Proof.
  intros Hb Hfit Hp Hin.
  unfold propogate_carryovers. cbn [elts dt carry_scan bind].
  unfold fix_negative_top. cbn [last_elt last].
  assert ((p <? 0) = false) as -> by (apply Z.ltb_ge; lia).
  cbn [bind removelast app last_elt last].
  destruct (top_carry_digits b t 64 Hb p
              ltac:(split; [lia|now apply (in_dtype_lt_64 t)]) Hin Hfit)
    as (hi & E & R & N & V & I).
  rewrite E. cbn [bind]. exists hi. repeat split; trivial.
Qed.

(** ** The comparator orders magnitudes *)

Section Magnitude.
Variable b : Z.
Hypothesis Hb : 2 <= b.

Lemma in_range_rev (l : list Z) : in_range b l -> in_range b (rev l).
Proof. apply Forall_rev. Qed.

Lemma scan_swap_value (xr : list Z) :
  forall yr, length xr = length yr -> in_range b xr -> in_range b yr ->
  if scan_swap xr yr
  then digits_value b (rev xr) < digits_value b (rev yr)
  else digits_value b (rev yr) <= digits_value b (rev xr).
Proof.
  induction xr as [|x xt IH]; intros [|y yt] Hl Hx Hy; simpl in Hl; try lia.
  - simpl. lia.
  - inversion Hx as [|? ? Hx0 Hxt]; inversion Hy as [|? ? Hy0 Hyt]; subst.
    injection Hl as Hl.
    simpl rev. rewrite !digits_value_app by lia. simpl digits_value.
    rewrite !length_rev, <- Hl.
    pose proof (digits_value_bound b Hb (rev xt) (in_range_rev _ Hxt)) as Bx.
    pose proof (digits_value_bound b Hb (rev yt) (in_range_rev _ Hyt)) as By.
    rewrite length_rev in Bx, By. rewrite <- Hl in By.
    simpl scan_swap.
    set (P := b ^ Z.of_nat (length xt)) in *.
    destruct (Z.ltb_spec x y).
    { assert (P * (x + 1) <= P * y) by (apply Z.mul_le_mono_nonneg_l; lia). lia. }
    rewrite Z.gtb_ltb. destruct (Z.ltb_spec y x).
    { assert (P * (y + 1) <= P * x) by (apply Z.mul_le_mono_nonneg_l; lia). lia. }
    assert (x = y) by lia. subst y.
    specialize (IH yt Hl Hxt Hyt). destruct (scan_swap xt yt); lia.
Qed.

Lemma swapped_length (x y : ndarray) :
  (if swapped x y then length (elts x) <= length (elts y)
   else length (elts y) <= length (elts x))%nat.
Proof.
  unfold swapped, len.
  destruct (Z.ltb_spec (Z.of_nat (length (elts x))) (Z.of_nat (length (elts y)))); [lia|].
  destruct (Z.eqb_spec (Z.of_nat (length (elts x))) (Z.of_nat (length (elts y)))).
  - destruct (scan_swap _ _); lia.
  - lia.
Qed.

Lemma longer_trimmed_value (s l : list Z) :
  in_range b s -> in_range b l -> trimmed l -> (length s < length l)%nat ->
  digits_value b s < digits_value b l.
Proof.
  intros Hs Hl Ht Hlen.
  assert (l <> []) by (destruct l; [simpl in Hlen; lia|discriminate]).
  pose proof (trimmed_value_lower b Hb l Hl Ht ltac:(assumption)).
  pose proof (digits_value_bound b Hb s Hs).
  assert (b ^ Z.of_nat (length s) <= b ^ (Z.of_nat (length l) - 1))
    by (apply Z.pow_le_mono_r; lia).
  lia.
Qed.

(** When the comparator exchanges its arguments the second is the larger
    number; when it does not, the first is at least as large.  For
    operands of different lengths this needs the longer one trimmed. *)
Lemma swapped_true_lt (x y : ndarray) :
  in_range b (elts x) -> in_range b (elts y) ->
  ((length (elts x) < length (elts y))%nat -> trimmed (elts y)) ->
  swapped x y = true ->
  digits_value b (elts x) < digits_value b (elts y).
Proof.
  intros Hx Hy Hty. unfold swapped, len.
  destruct (Z.ltb_spec (Z.of_nat (length (elts x))) (Z.of_nat (length (elts y)))).
  - intros _. apply longer_trimmed_value; trivial; [apply Hty|]; lia.
  - destruct (Z.eqb_spec (Z.of_nat (length (elts x))) (Z.of_nat (length (elts y))));
      [|discriminate].
    intros S.
    pose proof (scan_swap_value (rev (elts x)) (rev (elts y))) as V.
    rewrite !rev_involutive, !length_rev, S in V.
    apply V; [lia|now apply in_range_rev|now apply in_range_rev].
Qed.

Lemma swapped_false_le (x y : ndarray) :
  in_range b (elts x) -> in_range b (elts y) ->
  ((length (elts y) < length (elts x))%nat -> trimmed (elts x)) ->
  swapped x y = false ->
  digits_value b (elts y) <= digits_value b (elts x).
Proof.
  intros Hx Hy Htx. unfold swapped, len.
  destruct (Z.ltb_spec (Z.of_nat (length (elts x))) (Z.of_nat (length (elts y))));
    [discriminate|].
  destruct (Z.eqb_spec (Z.of_nat (length (elts x))) (Z.of_nat (length (elts y)))).
  - intros S.
    pose proof (scan_swap_value (rev (elts x)) (rev (elts y))) as V.
    rewrite !rev_involutive, !length_rev, S in V.
    apply V; [lia|now apply in_range_rev|now apply in_range_rev].
  - intros _. apply Z.lt_le_incl.
    apply longer_trimmed_value; trivial; [apply Htx|]; lia.
Qed.
End Magnitude.

(** ** The adder *)

Section Adder.
Variable b : Z.
Variable st : dtype.
Hypothesis Hb : 2 <= b.

Lemma overlap_op_spec (same : bool) (tb ts : dtype) (bg : list Z) :
  in_dtype tb (2 * b - 1) ->
  forall sm, in_range b bg -> in_range b sm -> (length sm <= length bg)%nat ->
  let l := overlap_op (digit_op same tb ts) bg sm in
  length l = length bg
  /\ Forall (fun d => - b <= d <= 2 * b - 2) l
  /\ digits_value b l
     = digits_value b bg + (if same then digits_value b sm else - digits_value b sm).
Proof.
  intros Hroomy.
  induction bg as [|x bt IH]; intros sm Hbg Hsm Hlen.
  - destruct sm; [|simpl in Hlen; lia]. cbn [overlap_op length digits_value].
    repeat split; [constructor|]. destruct same; lia.
  - destruct sm as [|s st0].
    + cbn [overlap_op length digits_value]. repeat split.
      * eapply Forall_impl; [|exact Hbg]. cbv beta. intros; lia.
      * destruct same; lia.
    + inversion Hbg as [|? ? Hx Hbt]; inversion Hsm as [|? ? Hs Hst]; subst.
      simpl in Hlen.
      destruct (IH st0 Hbt Hst ltac:(lia)) as (L & R & V).
      simpl overlap_op. simpl length. simpl digits_value.
      assert (E : digit_op same tb ts x s = if same then x + s else x - s).
      { unfold digit_op.
        assert (Hfit : forall z, - b - 2 <= z <= 2 * b - 1 ->
                  wrap tb (wrap (promote tb ts) z) = z).
        { intros z Hz. pose proof (roomy_between b tb z Hb Hroomy Hz) as Hz'.
          rewrite (wrap_id (promote tb ts))
            by exact (proj1 (in_dtype_promote tb ts z Hz')).
          now apply wrap_id. }
        destruct same; apply Hfit; lia. }
      rewrite E. repeat split.
      * now rewrite L.
      * constructor; [destruct same; lia|exact R].
      * rewrite V. destruct same; ring.
Qed.

(** The core of [_add_numbers]: with equal signs the magnitudes are added;
    with different signs the smaller is subtracted from the bigger, which
    requires the comparator's bigger operand to be the larger number.  The
    element type of an operand that is not empty holds the sum of two
    digits and a carry. *)
Lemma _add_numbers_roomy (n1 n2 : ndarray) (s1 s2 : bool) :
  in_range b (elts n1) -> in_range b (elts n2) ->
  (elts n1 <> [] -> in_dtype (dt n1) (2 * b - 1)) ->
  (elts n2 <> [] -> in_dtype (dt n2) (2 * b - 1)) ->
  let bg := fst (get_bigger_smaller n1 n2) in
  let sm := snd (get_bigger_smaller n1 n2) in
  (eqb s1 s2 = false -> digits_value b (elts sm) <= digits_value b (elts bg)) ->
  exists r,
    _add_numbers b st n1 s1 n2 s2
    = Ok (r, match elts bg with
             | [] => false
             | _ => if swapped n1 n2 then s2 else s1
             end)
    /\ in_range b (elts r) /\ trimmed (elts r)
    /\ digits_value b (elts r)
       = digits_value b (elts bg)
         + (if eqb s1 s2 then digits_value b (elts sm)
            else - digits_value b (elts sm))
    /\ (dt r = dt bg \/ elts r = [])
    /\ (elts r <> [] -> in_dtype (dt r) (2 * b - 1)).
Proof.
  intros H1 H2 T1 T2 bg sm Hord.
  assert (Hbg : in_range b (elts bg) /\ in_range b (elts sm)
                /\ (length (elts sm) <= length (elts bg))%nat
                /\ (elts bg <> [] -> in_dtype (dt bg) (2 * b - 1))).
  { subst bg sm. unfold get_bigger_smaller.
    pose proof (swapped_length n1 n2) as SL.
    destruct (swapped n1 n2); simpl; auto. }
  destruct Hbg as (Rb & Rs & Hlen & Tb).
  unfold _add_numbers.
  replace (get_bigger_smaller n1 n2) with (bg, sm)
    by (subst bg sm; destruct (get_bigger_smaller n1 n2); reflexivity).
  assert (Hcase : elts bg = [] \/ elts bg <> [])
    by (destruct (elts bg); [left; reflexivity|right; discriminate]).
  destruct Hcase as [Eg|Hgne].
  - (* both operands are empty *)
    rewrite Eg in *.
    destruct (elts sm) as [|? ?] eqn:Es; [|simpl in Hlen; lia].
    unfold propogate_carryovers, np_zeros. change (Z.to_nat 1) with 1%nat. cbn.
    eexists. split; [reflexivity|]. cbn.
    split; [constructor|].
    split; [unfold trimmed; cbn; lia|].
    split; [destruct (eqb s1 s2); reflexivity|].
    split; [now right|intros C; contradiction].
  - specialize (Tb Hgne).
    destruct (overlap_op_spec (eqb s1 s2) (dt bg) (dt sm) (elts bg) Tb (elts sm)
                Rb Rs Hlen) as (L & R & V).
    set (sgn := if swapped n1 n2 then s2 else s1).
    assert (Hm : match elts bg with [] => false | _ :: _ => sgn end = sgn)
      by (destruct (elts bg); [contradiction|reflexivity]).
    rewrite Hm.
    set (res := mk_nd (dt bg) _).
    assert (Hne : elts res <> []).
    { subst res. cbn [elts]. intros C. rewrite C in L.
      destruct (elts bg); [contradiction|discriminate]. }
    assert (Hv0 : 0 <= digits_value b (elts res)).
    { subst res. cbn [elts]. rewrite V.
      pose proof (digits_value_bound b Hb _ Rb).
      pose proof (digits_value_bound b Hb _ Rs).
      destruct (eqb s1 s2); [lia|]. specialize (Hord eq_refl). lia. }
    destruct (propogate_carryovers_spec b (2 * b - 2) (2 * b - 1) b st (dt bg) Hb
                ltac:(lia) ltac:(lia)
                ltac:(assert (2 * b - 1 < b * 2) by lia;
                      pose proof (Z.div_lt_upper_bound (2 * b - 1) b 2 ltac:(lia) ltac:(lia));
                      lia)
                Tb ltac:(apply (roomy_between b); trivial; lia)
                ltac:(apply (roomy_between b); trivial; lia)
                res sgn eq_refl Hne R Hv0)
      as (l & E & Rl & Nl & Vl).
    rewrite E. cbn [bind]. eexists. split; [reflexivity|].
    cbn [elts dt np_trim_zeros].
    split; [now apply trim_back_in_range|].
    split; [apply trim_back_trimmed|].
    split; [|split; [now left|intros _; exact Tb]].
    rewrite trim_back_value, Vl. subst res. cbn [elts]. exact V.
Qed.
End Adder.

(** When twice the base is at most [2 ^ 15], every element type will do. *)
Lemma _add_numbers_core (b : Z) (st : dtype) (Hb : 2 <= b) (Hcap : 2 * b <= 2 ^ 15)
  (n1 n2 : ndarray) (s1 s2 : bool) :
  in_range b (elts n1) -> in_range b (elts n2) ->
  let bg := fst (get_bigger_smaller n1 n2) in
  let sm := snd (get_bigger_smaller n1 n2) in
  (eqb s1 s2 = false -> digits_value b (elts sm) <= digits_value b (elts bg)) ->
  exists r,
    _add_numbers b st n1 s1 n2 s2
    = Ok (r, match elts bg with
             | [] => false
             | _ => if swapped n1 n2 then s2 else s1
             end)
    /\ in_range b (elts r) /\ trimmed (elts r)
    /\ digits_value b (elts r)
       = digits_value b (elts bg)
         + (if eqb s1 s2 then digits_value b (elts sm)
            else - digits_value b (elts sm))
    /\ (dt r = dt bg \/ elts r = []).
Proof.
  intros H1 H2 bg sm Hord.
  destruct (_add_numbers_roomy b st Hb n1 n2 s1 s2 H1 H2
              ltac:(intros _; apply roomy_small; lia)
              ltac:(intros _; apply roomy_small; lia) Hord)
    as (r & E & R & T & V & D & _).
  exists r. auto.
Qed.

(** ** The multiplier *)

Section Multiplier.
Variable b : Z.
Variable st : dtype.
Hypothesis Hb : 2 <= b.
Hypothesis Hst : in_dtype st (2 * b - 1).

(** The element type of an operand that is not empty holds the sum of two
    digits and a carry, as the configured store does. *)
Let roomy (a : ndarray) : Prop := elts a <> [] -> in_dtype (dt a) (2 * b - 1).

(** The type in which the digit products of two operands are computed
    holds every product of two digits. *)
Let room (x y : ndarray) : Prop :=
  in_dtype (promote (dt x) (dt y)) (b * b - 1).

Lemma room_sym (x y : ndarray) : room x y -> room y x.
Proof. unfold room. now destruct (dt x), (dt y). Qed.

(** Adding two magnitudes. *)
Lemma _add_numbers_pos (n1 n2 : ndarray) :
  in_range b (elts n1) -> in_range b (elts n2) -> roomy n1 -> roomy n2 ->
  exists r,
    _add_numbers b st n1 false n2 false = Ok (r, false)
    /\ in_range b (elts r) /\ trimmed (elts r)
    /\ digits_value b (elts r)
       = digits_value b (elts n1) + digits_value b (elts n2)
    /\ (dt r = dt n1 \/ dt r = dt n2 \/ elts r = [])
    /\ roomy r.
Proof.
  intros H1 H2 T1 T2.
  pose proof (_add_numbers_roomy b st Hb n1 n2 false false H1 H2 T1 T2) as C.
  cbv zeta in C.
  destruct C as (r & E & Rr & Tr & Vr & Dr & Yr); [discriminate|].
  exists r. rewrite E.
  split; [|split; [exact Rr|split; [exact Tr|split; [|split; [|exact Yr]]]]].
  - f_equal. f_equal. destruct (elts (fst _)); trivial. destruct (swapped n1 n2); trivial.
  - rewrite Vr. cbn [eqb]. unfold get_bigger_smaller.
    destruct (swapped n1 n2); cbn [fst snd]; lia.
  - unfold get_bigger_smaller in Dr.
    destruct (swapped n1 n2); cbn [fst snd] in Dr; tauto.
Qed.

(** Subtracting a trimmed magnitude from one that is at least as large. *)
Lemma _add_numbers_minus (n1 n2 : ndarray) :
  in_range b (elts n1) -> in_range b (elts n2) -> trimmed (elts n2) ->
  roomy n1 -> roomy n2 ->
  digits_value b (elts n2) <= digits_value b (elts n1) ->
  exists r,
    _add_numbers b st n1 false n2 true = Ok (r, false)
    /\ in_range b (elts r) /\ trimmed (elts r)
    /\ digits_value b (elts r)
       = digits_value b (elts n1) - digits_value b (elts n2)
    /\ roomy r.
Proof.
  intros H1 H2 T2 Y1 Y2 Hle.
  assert (S : swapped n1 n2 = false).
  { destruct (swapped n1 n2) eqn:S; trivial.
    pose proof (swapped_true_lt b Hb n1 n2 H1 H2 (fun _ => T2) S). lia. }
  pose proof (_add_numbers_roomy b st Hb n1 n2 false true H1 H2 Y1 Y2) as C.
  cbv zeta in C. unfold get_bigger_smaller in C. rewrite S in C. cbn [fst snd eqb] in C.
  destruct (C (fun _ => Hle)) as (r & E & Rr & Tr & Vr & _ & Yr).
  exists r. rewrite E.
  split; [|split; [exact Rr|split; [exact Tr|split; [exact Vr|exact Yr]]]].
  f_equal. f_equal. destruct (elts n1); trivial.
Qed.

Lemma digits_value_scale (s : Z) (l : list Z) :
  digits_value b (map (fun d => d * s) l) = s * digits_value b l.
Proof. induction l as [|d l IH]; simpl; [lia|]. rewrite IH. ring. Qed.

(** The base case: a digit sequence times a single digit. *)
Lemma scale_spec (n : ndarray) (s : Z) (ts : dtype) :
  in_range b (elts n) -> 0 <= s < b ->
  in_dtype (promote (dt n) ts) (b * b - 1) ->
  exists r,
    propogate_carryovers b st (np_scale n s ts) b false = Ok (r, false)
    /\ in_range b (elts r)
    /\ digits_value b (elts r) = s * digits_value b (elts n)
    /\ roomy r.
Proof.
  intros Hn Hs Hroom.
  assert (Hsum : in_dtype (promote (dt n) ts) (2 * b - 1))
    by (apply (in_dtype_between _ 0 (b * b - 1)); trivial;
        [apply in_dtype_zero|nia]).
  assert (Hlow : in_dtype (promote (dt n) ts) (- b - 2))
    by (apply (roomy_between b); trivial; lia).
  assert (E : elts (np_scale n s ts) = map (fun d => d * s) (elts n)).
  { unfold np_scale. cbn [elts]. apply map_ext_in. intros d Hd.
    apply wrap_id. unfold in_range in Hn. rewrite Forall_forall in Hn.
    specialize (Hn d Hd).
    apply (in_dtype_between _ (- b - 2) (b * b - 1)); trivial. nia. }
  destruct (elts n) as [|d0 rest] eqn:En.
  - unfold propogate_carryovers. rewrite E. cbn [map].
    eexists. split; [reflexivity|].
    unfold np_zeros. change (Z.to_nat 1) with 1%nat. cbn.
    split; [constructor; [lia|constructor]|]. split; [lia|intros _; exact Hst].
  - assert (Hne : elts (np_scale n s ts) <> []) by (rewrite E; discriminate).
    assert (Hd : Forall (fun d => - b <= d <= b * b - b) (elts (np_scale n s ts))).
    { rewrite E. apply Forall_map. eapply Forall_impl; [|exact Hn].
      cbv beta. intros d Hd. nia. }
    assert (Hv : 0 <= digits_value b (elts (np_scale n s ts))).
    { rewrite E, digits_value_scale.
      pose proof (digits_value_bound b Hb _ Hn). nia. }
    destruct (propogate_carryovers_spec b (b * b - b) (b * b - 1) b st
                (promote (dt n) ts) Hb ltac:(lia)
                ltac:(nia)
                ltac:(pose proof (Z.div_lt_upper_bound (b * b - 1) b b ltac:(lia) ltac:(lia));
                      lia)
                Hroom ltac:(apply (roomy_between b); trivial; lia) Hlow
                (np_scale n s ts) false eq_refl Hne Hd Hv)
      as (l & El & Rl & Nl & Vl).
    rewrite El. eexists. split; [reflexivity|]. cbn [elts dt].
    split; [exact Rl|]. split; [|intros _; exact Hsum].
    rewrite Vl, E. apply digits_value_scale.
Qed.

Lemma append_zeros_roomy (n : Z) (z : ndarray) : roomy (np_append (np_zeros n st) z).
Proof.
  intros _. unfold np_append, np_zeros. cbn [dt].
  exact (proj1 (in_dtype_promote st (dt z) _ Hst)).
Qed.

Lemma _multiply_numbers_swap (f : nat) (x y : ndarray) :
  len x < len y ->
  _multiply_numbers b st (S f) x y = _multiply_numbers b st (S f) y x.
Proof.
  intros H. cbn [_multiply_numbers].
  assert ((len x <? len y) = true) as -> by (apply Z.ltb_lt; lia).
  assert ((len y <? len x) = false) as -> by (apply Z.ltb_ge; lia).
  reflexivity.
Qed.

Lemma elts_append_zeros (n : Z) (z : ndarray) :
  elts (np_append (np_zeros n st) z) = repeat 0 (Z.to_nat n) ++ elts z.
Proof. reflexivity. Qed.

Lemma append_zeros_in_range (n : Z) (z : ndarray) :
  in_range b (elts z) -> in_range b (elts (np_append (np_zeros n st) z)).
Proof.
  intros H. rewrite elts_append_zeros. apply in_range_app. split; trivial.
  apply in_range_repeat0. lia.
Qed.

Lemma append_zeros_value (n : Z) (z : ndarray) :
  digits_value b (elts (np_append (np_zeros n st) z))
  = b ^ Z.of_nat (Z.to_nat n) * digits_value b (elts z).
Proof.
  rewrite elts_append_zeros, digits_value_app, digits_value_repeat0, repeat_length by lia.
  lia.
Qed.

(** What the recursion delivers for a given amount of fuel. *)
Let mult_ok (f : nat) : Prop :=
  forall x y,
    in_range b (elts x) -> in_range b (elts y) ->
    shape (elts x) -> shape (elts y) -> room x y -> roomy x -> roomy y ->
    (Z.to_nat (digits_value b (elts x) + digits_value b (elts y)) < f)%nat ->
    exists r,
      _multiply_numbers b st f x y = Ok (r, false)
      /\ in_range b (elts r)
      /\ digits_value b (elts r) = digits_value b (elts x) * digits_value b (elts y)
      /\ roomy r.

Lemma mult_step (f : nat) :
  mult_ok f ->
  forall x y,
    len y <= len x ->
    in_range b (elts x) -> in_range b (elts y) ->
    shape (elts x) -> shape (elts y) -> room x y -> roomy x -> roomy y ->
    (Z.to_nat (digits_value b (elts x) + digits_value b (elts y)) < S f)%nat ->
    exists r,
      _multiply_numbers b st (S f) x y = Ok (r, false)
      /\ in_range b (elts r)
      /\ digits_value b (elts r) = digits_value b (elts x) * digits_value b (elts y)
      /\ roomy r.
Proof.
  intros IH x y Hlen Hx Hy Sx Sy Hroom Yx Yy Hm.
  cbn [_multiply_numbers].
  assert ((len x <? len y) = false) as -> by (apply Z.ltb_ge; lia).
  unfold len in *.
  destruct (Z.eqb_spec (Z.of_nat (length (elts x))) 1) as [L1|L1].
  { (* the first operand is a single digit *)
    destruct (elts x) as [|s [|? ?]] eqn:Ex; cbn [length] in L1; try lia.
    inversion Hx as [|? ? Hs _]; subst.
    destruct (scale_spec y s (dt x) Hy Hs (room_sym _ _ Hroom)) as (r & E & R & V & Y).
    exists r. cbn [nth]. rewrite E.
    split; [reflexivity|]. split; [exact R|]. split; [|exact Y].
    rewrite V. cbn [digits_value]. ring. }
  destruct (Z.eqb_spec (Z.of_nat (length (elts y))) 1) as [L2|L2].
  { destruct (elts y) as [|s [|? ?]] eqn:Ey; cbn [length] in L2; try lia.
    inversion Hy as [|? ? Hs _]; subst.
    destruct (scale_spec x s (dt y) Hx Hs Hroom) as (r & E & R & V & Y).
    exists r. cbn [nth]. rewrite E.
    split; [reflexivity|]. split; [exact R|]. split; [|exact Y].
    rewrite V. cbn [digits_value]. ring. }
  destruct (Z.eqb_spec (Z.of_nat (length (elts y))) 0) as [Z2|Z2].
  { (* an empty operand *)
    rewrite Bool.orb_true_r.
    destruct (elts y) as [|? ?] eqn:Ey; cbn [length] in Z2; try lia.
    eexists. split; [reflexivity|].
    unfold np_zeros. change (Z.to_nat 1) with 1%nat. cbn [repeat elts digits_value].
    split; [constructor; [lia|constructor]|]. split; [lia|intros _; exact Hst]. }
  (* the recursive case: both operands have at least two digits *)
  destruct (Z.eqb_spec (Z.of_nat (length (elts x))) 0) as [Z1|Z1]; [lia|].
  cbn [orb].
  set (L := length (elts x)) in *. set (L' := length (elts y)) in *.
  assert (Tx : trimmed (elts x)) by (destruct Sx; [assumption|fold L in H; lia]).
  assert (Ty : trimmed (elts y)) by (destruct Sy; [assumption|fold L' in H; lia]).
  cbv zeta.
  remember (Z.shiftr (Z.of_nat L) 1) as m eqn:Em.
  assert (Hm' : m = Z.of_nat L / 2) by (rewrite Em, Z.shiftr_div_pow2 by lia; reflexivity).
  assert (Hm1 : 1 <= m /\ 2 * m <= Z.of_nat L).
  { rewrite Hm'. pose proof (Z.div_mod (Z.of_nat L) 2 ltac:(lia)).
    pose proof (Z.mod_pos_bound (Z.of_nat L) 2 ltac:(lia)). lia. }
  set (mn := Z.to_nat m).
  set (P := b ^ Z.of_nat mn).
  assert (HP : 2 <= P).
  { subst P. assert (b ^ 1 <= b ^ Z.of_nat mn) by (apply Z.pow_le_mono_r; lia). lia. }
  assert (Yx' : in_dtype (dt x) (2 * b - 1))
    by (apply Yx; intros C; apply (f_equal (@length Z)) in C; fold L in C;
        cbn [length] in C; lia).
  assert (Yy' : in_dtype (dt y) (2 * b - 1))
    by (apply Yy; intros C; apply (f_equal (@length Z)) in C; fold L' in C;
        cbn [length] in C; lia).
  set (a := slice_from x m). set (lo1 := np_trim_zeros (slice_to x m)).
  set (c := slice_from y m). set (lo2 := np_trim_zeros (slice_to y m)).
  assert (Ya : roomy a) by (intros _; exact Yx').
  assert (Yb : roomy lo1) by (intros _; exact Yx').
  assert (Yc : roomy c) by (intros _; exact Yy').
  assert (Yd : roomy lo2) by (intros _; exact Yy').
  assert (Ra : in_range b (elts a)) by (apply in_range_skipn; assumption).
  assert (Rc : in_range b (elts c)) by (apply in_range_skipn; assumption).
  assert (Rb : in_range b (elts lo1))
    by (apply trim_back_in_range, in_range_firstn; assumption).
  assert (Rd : in_range b (elts lo2))
    by (apply trim_back_in_range, in_range_firstn; assumption).
  assert (Ta : trimmed (elts a)) by (apply trimmed_skipn; assumption).
  assert (Tc : trimmed (elts c)) by (apply trimmed_skipn; assumption).
  assert (Tb : trimmed (elts lo1)) by apply trim_back_trimmed.
  assert (Td : trimmed (elts lo2)) by apply trim_back_trimmed.
  assert (Vx : digits_value b (elts x)
               = digits_value b (elts lo1) + P * digits_value b (elts a)).
  { subst lo1 a. cbn [elts np_trim_zeros slice_to slice_from].
    rewrite trim_back_value. fold mn. apply digits_value_split. }
  assert (Vy : digits_value b (elts y)
               = digits_value b (elts lo2) + P * digits_value b (elts c)).
  { subst lo2 c. cbn [elts np_trim_zeros slice_to slice_from].
    rewrite trim_back_value. fold mn. apply digits_value_split. }
  pose proof (digits_value_bound b Hb _ Ra) as Ba.
  pose proof (digits_value_bound b Hb _ Rb) as Bb.
  pose proof (digits_value_bound b Hb _ Rc) as Bc.
  pose proof (digits_value_bound b Hb _ Rd) as Bd.
  assert (Pa : 0 < digits_value b (elts a)).
  { apply trimmed_value_pos; trivial. subst a. cbn [elts slice_from]. fold mn.
    intros C. apply (f_equal (@length Z)) in C. rewrite length_skipn in C.
    fold L in C. cbn [length] in C. lia. }
  set (va := digits_value b (elts a)) in *.
  set (vb := digits_value b (elts lo1)) in *.
  set (vc := digits_value b (elts c)) in *.
  set (vd := digits_value b (elts lo2)) in *.
  assert (Hac : vc <= P * vc) by nia.
  assert (Haa : 2 * va <= P * va) by nia.
  (* z2 = a * c *)
  destruct (IH a c Ra Rc (or_introl Ta) (or_introl Tc) Hroom Ya Yc)
    as (z2 & E2 & R2 & V2 & Y2).
  { fold va vc. lia. }
  rewrite E2. cbn [bind].
  (* z0 = b * d *)
  destruct (IH lo1 lo2 Rb Rd (or_introl Tb) (or_introl Td) Hroom Yb Yd)
    as (z0 & E0 & R0 & V0 & Y0).
  { fold vb vd. lia. }
  rewrite E0. cbn [bind].
  (* (a + b) * (c + d) *)
  destruct (_add_numbers_pos a lo1 Ra Rb Ya Yb) as (ab & Eab & Rab & Tab & Vab & Dab & Yab).
  rewrite Eab. cbn [bind].
  destruct (_add_numbers_pos c lo2 Rc Rd Yc Yd) as (cd & Ecd & Rcd & Tcd & Vcd & Dcd & Ycd).
  rewrite Ecd. cbn [bind fst].
  fold va vb in Vab. fold vc vd in Vcd.
  assert (Dab' : dt ab = dt x).
  { destruct Dab as [D|[D|D]]; trivial. rewrite D in Vab. cbn [digits_value] in Vab. lia. }
  assert (Py : 0 < digits_value b (elts y)).
  { apply trimmed_value_pos; trivial. intros C. apply (f_equal (@length Z)) in C.
    fold L' in C. cbn [length] in C. lia. }
  assert (Dcd' : dt cd = dt y).
  { destruct Dcd as [D|[D|D]]; trivial. rewrite D in Vcd. cbn [digits_value] in Vcd. nia. }
  assert (Hroom1 : room ab cd) by (unfold room; now rewrite Dab', Dcd').
  destruct (IH ab cd Rab Rcd (or_introl Tab) (or_introl Tcd) Hroom1 Yab Ycd)
    as (z1 & E1 & R1 & V1 & Y1).
  { rewrite Vab, Vcd. lia. }
  rewrite E1. cbn [bind].
  rewrite Vab, Vcd in V1. fold va vc in V2. fold vb vd in V0.
  (* z2 + z0 *)
  destruct (_add_numbers_pos z2 z0 R2 R0 Y2 Y0) as (z20 & E20 & R20 & T20 & V20 & _ & Y20).
  rewrite E20. cbn [bind negb].
  (* z1 - (z2 + z0) *)
  destruct (_add_numbers_minus z1 z20 R1 R20 T20 Y1 Y20) as (zm & Em0 & Rm & Tm & Vm & Ym).
  { rewrite V20, V1, V2, V0. nia. }
  rewrite Em0. cbn [bind].
  (* the ends and the final sum *)
  destruct (_add_numbers_pos (np_append (np_zeros (Z.shiftl m 1) st) z2) z0
              (append_zeros_in_range _ _ R2) R0 (append_zeros_roomy _ _) Y0)
    as (ze & Ee & Re & Te & Ve & _ & Ye).
  rewrite Ee. cbn [bind].
  destruct (_add_numbers_pos ze (np_append (np_zeros m st) zm)
              Re (append_zeros_in_range _ _ Rm) Ye (append_zeros_roomy _ _))
    as (r & Er & Rr & Tr & Vr & _ & Yr).
  exists r. rewrite Er.
  split; [reflexivity|]. split; [exact Rr|]. split; [|exact Yr].
  rewrite Vr, Ve, !append_zeros_value, Vm, V20, V1, V2, V0, Vx, Vy.
  fold mn P.
  assert (EP : b ^ Z.of_nat (Z.to_nat (Z.shiftl m 1)) = P * P).
  { rewrite Z.shiftl_mul_pow2 by lia. subst P mn.
    rewrite <- Z.pow_add_r by lia. f_equal. lia. }
  rewrite EP. fold va vb vc vd. ring.
Qed.

(** The multiplier returns the product of the two magnitudes, in range
    and with the sign flag unset, once the fuel exceeds the sum of the
    operands. *)
Lemma _multiply_numbers_roomy (f : nat) : mult_ok f.
Proof.
  induction f as [|f IH]; intros x y Hx Hy Sx Sy Hroom Yx Yy Hm; [lia|].
  destruct (Z.lt_ge_cases (len x) (len y)) as [Hl|Hl].
  - rewrite _multiply_numbers_swap by exact Hl.
    destruct (mult_step f IH y x ltac:(lia) Hy Hx Sy Sx (room_sym _ _ Hroom) Yy Yx
                ltac:(lia))
      as (r & E & R & V & Y).
    exists r. split; [exact E|]. split; [exact R|]. split; [lia|exact Y].
  - apply (mult_step f IH x y Hl Hx Hy Sx Sy Hroom Yx Yy Hm).
Qed.

(** Two single digits whose product is a 16-bit integer are multiplied
    correctly in every element type. *)
Lemma _multiply_numbers_digits (f : nat) (x y : ndarray) (p q : Z) :
  2 * b <= 2 ^ 15 ->
  elts x = [p] -> elts y = [q] -> 0 <= p < b -> 0 <= q < b -> p * q < 2 ^ 15 ->
  exists r,
    _multiply_numbers b st (S f) x y = Ok (r, false)
    /\ in_range b (elts r)
    /\ digits_value b (elts r) = p * q.
Proof.
  intros Hadd Ex Ey Hp Hq Hpq.
  cbn [_multiply_numbers]. unfold len. rewrite Ex, Ey. cbn [length].
  change (Z.of_nat 1 <? Z.of_nat 1) with false. cbv iota.
  rewrite Ex, Ey. cbn [length]. change (Z.of_nat 1 =? 1) with true. cbv iota.
  unfold np_scale. rewrite Ey. cbn [map nth].
  rewrite wrap_small by nia.
  destruct (propogate_carryovers_single b st (promote (dt y) (dt x)) (q * p) false Hb
              ltac:(right; apply in_dtype_small; lia) ltac:(nia)
              ltac:(apply in_dtype_small; nia))
    as (l & E & R & N & V & _).
  rewrite E. eexists. split; [reflexivity|]. cbn [elts]. split; trivial. lia.
Qed.
End Multiplier.

(** When twice the base is at most [2 ^ 15], every element type and every
    store will do for the sums. *)
Lemma _multiply_numbers_spec (b : Z) (st : dtype) (Hb : 2 <= b)
  (Hadd : 2 * b <= 2 ^ 15) (f : nat) (x y : ndarray) :
  in_range b (elts x) -> in_range b (elts y) ->
  shape (elts x) -> shape (elts y) ->
  in_dtype (promote (dt x) (dt y)) (b * b - 1) ->
  (Z.to_nat (digits_value b (elts x) + digits_value b (elts y)) < f)%nat ->
  exists r,
    _multiply_numbers b st f x y = Ok (r, false)
    /\ in_range b (elts r)
    /\ digits_value b (elts r) = digits_value b (elts x) * digits_value b (elts y).
Proof.
  intros Rx Ry Sx Sy Hroom Hf.
  destruct (_multiply_numbers_roomy b st Hb ltac:(apply roomy_small; lia) f x y
              Rx Ry Sx Sy Hroom
              ltac:(intros _; apply roomy_small; lia)
              ltac:(intros _; apply roomy_small; lia) Hf)
    as (r & E & R & V & _).
  exists r. auto.
Qed.

(** ** The constructor *)

Section Constructor.
Variable b : Z.
Hypothesis Hb : 2 <= b.
Hypothesis Hb16 : b <= 2 ^ 15.

Lemma carry_scan_id (t : dtype) (rest : list Z) :
  forall cur, in_range b (cur :: rest) -> rest = [] \/ in_dtype t b ->
  carry_scan b t b cur rest = Ok (cur :: rest).
Proof.
  induction rest as [|y tl IH]; intros cur Hr Hf; [reflexivity|].
  destruct Hf as [Hf|Hf]; [discriminate|].
  pose proof (Forall_inv Hr) as Hc. pose proof (Forall_inv_tail Hr) as Hr'.
  pose proof (Forall_inv Hr') as Hy. cbv beta in Hc, Hy.
  cbn [carry_scan].
  rewrite np_floordiv_ok;
    [|trivial|lia|rewrite Z.div_small by lia; apply in_dtype_zero].
  rewrite np_mod_ok by (trivial; lia). cbn [bind].
  rewrite Z.div_small, Z.mod_small, Z.add_0_r by lia.
  rewrite wrap_id
    by (apply (in_dtype_between t 0 b); trivial; [apply in_dtype_zero|lia]).
  rewrite IH by (trivial; now right). reflexivity.
Qed.

(** With two digits or more the first division by a base that the element
    type cannot hold is an [OverflowError]. *)
Lemma carry_scan_overflow (t : dtype) (cur y : Z) (tl : list Z) :
  fits t b = false -> carry_scan b t b cur (y :: tl) = Raises OverflowError.
Proof. intros Hf. cbn [carry_scan]. unfold np_floordiv. now rewrite Hf. Qed.

Lemma in_range_last (l : list Z) :
  in_range b l -> l <> [] -> 0 <= last_elt l < b.
Proof.
  intros Hr Hne. destruct (exists_last Hne) as (l0 & t & ->).
  unfold last_elt. rewrite last_last.
  apply in_range_app in Hr. destruct Hr as [_ Ht]. now inversion Ht.
Qed.

(** The normalizer leaves digits that are already in range alone. *)
Lemma propogate_carryovers_id (st : dtype) (a : ndarray) (negative : bool) :
  in_range b (elts a) -> elts a <> [] ->
  length (elts a) = 1%nat \/ in_dtype (dt a) b ->
  propogate_carryovers b st a b negative = Ok (mk_nd (dt a) (elts a), negative).
Proof.
  intros Hr Hne Hf. unfold propogate_carryovers.
  destruct (elts a) as [|d0 rest] eqn:E; [contradiction|].
  rewrite carry_scan_id;
    [|exact Hr
     |destruct Hf as [Hf|Hf]; [left; destruct rest; [trivial|discriminate]|now right]].
  cbn [bind].
  pose proof (in_range_last _ Hr Hne) as Hl.
  unfold fix_negative_top.
  destruct (Z.ltb_spec (last_elt (d0 :: rest)) 0); [lia|].
  cbn [bind].
  change 64%nat with (S 63). cbn [top_carry].
  destruct (Z.geb_spec (last_elt (d0 :: rest)) b); [lia|].
  cbn [bind].
  unfold last_elt. rewrite <- app_removelast_last by discriminate. reflexivity.
Qed.

Lemma propogate_carryovers_overflow (st : dtype) (a : ndarray) (negative : bool) :
  (2 <= length (elts a))%nat -> fits (dt a) b = false ->
  propogate_carryovers b st a b negative = Raises OverflowError.
Proof.
  intros Hl Hf. unfold propogate_carryovers.
  destruct (elts a) as [|d0 [|y tl]]; cbn [length] in Hl; try lia.
  now rewrite carry_scan_overflow.
Qed.

Lemma strip_top_value (l : list Z) :
  digits_value b (strip_top l) = digits_value b l.
Proof. destruct l; cbn [strip_top digits_value]; [|rewrite trim_back_value]; trivial. Qed.

Lemma strip_top_in_range (l : list Z) : in_range b l -> in_range b (strip_top l).
Proof.
  intros H. destruct l; trivial. inversion H; subst.
  constructor; trivial. now apply trim_back_in_range.
Qed.

Lemma strip_top_shape (l : list Z) :
  l <> [] -> strip_top l <> [] /\ (strip_top l = [0] \/ trimmed (strip_top l)).
Proof.
  intros Hne. destruct l as [|x r]; [contradiction|]. cbn [strip_top].
  split; [discriminate|].
  pose proof (trim_back_trimmed r) as T.
  destruct (trim_back r) as [|y r'] eqn:E.
  - destruct (Z.eq_dec x 0) as [->|Hx]; [now left|right]. unfold trimmed. cbn. exact Hx.
  - right. exact T.
Qed.

Lemma strip_top_id (l : list Z) :
  l = [0] \/ (trimmed l /\ l <> []) -> strip_top l = l.
Proof.
  intros [->|[T Hne]]; [reflexivity|].
  destruct l as [|x r]; [contradiction|]. cbn [strip_top]. f_equal.
  apply trim_back_id. destruct r as [|y r']; [unfold trimmed; cbn; lia|exact T].
Qed.

(** Construction from an array of digits that are in range. *)
Lemma __init___array (a : ndarray) (negative : bool) (st : dtype) :
  in_range b (elts a) ->
  (length (elts a) <= 1)%nat \/ in_dtype (dt a) b ->
  exists v,
    __init__ (PyArray a) b negative st = Ok v
    /\ _base v = b /\ _negative v = negative /\ _store v = st
    /\ canonical v
    /\ digits_value b (elts (_number v)) = digits_value b (elts a)
    /\ (elts a = [0] \/ (trimmed (elts a) /\ elts a <> []) ->
        elts (_number v) = elts a)
    /\ (elts a <> [] -> dt (_number v) = dt a).
Proof.
  intros Hr Hf. unfold __init__. cbn [bind].
  set (n := if len a <? 1 then np_zeros 1 st else a).
  assert (Hn : in_range b (elts n) /\ elts n <> []
               /\ digits_value b (elts n) = digits_value b (elts a)
               /\ (elts a <> [] -> n = a)
               /\ (length (elts n) = 1%nat \/ in_dtype (dt n) b)).
  { subst n. unfold len. destruct (elts a) as [|d r] eqn:E.
    - change (Z.of_nat (length (@nil Z)) <? 1) with true. cbv iota.
      change (elts (np_zeros 1 st)) with [0].
      repeat split; try discriminate; try contradiction.
      + constructor; [lia|constructor].
      + cbn. lia.
      + now left.
    - destruct (Z.ltb_spec (Z.of_nat (length (d :: r))) 1) as [C|_];
        [cbn [length] in C; lia|].
      rewrite E. repeat split; trivial; try discriminate.
      destruct Hf as [Hf|Hf]; [left|now right].
      cbn [length] in *. lia. }
  destruct Hn as (Rn & Nn & Vn & En & Fn).
  assert ((0 <? len n) = true) as ->.
  { apply Z.ltb_lt. unfold len. destruct (elts n); [contradiction|cbn [length]; lia]. }
  rewrite propogate_carryovers_id by assumption. cbn [bind].
  eexists. split; [reflexivity|]. cbn [_base _negative _store _number elts dt].
  repeat split; trivial.
  - unfold inv_nonempty. cbn. apply strip_top_shape; assumption.
  - unfold inv_digits. cbn. now apply strip_top_in_range.
  - unfold inv_no_leading_zero. cbn. apply strip_top_shape; assumption.
  - rewrite strip_top_value. exact Vn.
  - intros Hs. rewrite En by (destruct Hs as [->|[_ ?]]; [discriminate|assumption]).
    now apply strip_top_id.
  - intros Hne. now rewrite En.
Qed.

(** *** Construction from an integer *)

Lemma int_loop_spec (fuel : nat) :
  forall x lo t tn,
    0 <= x < 2 ^ Z.of_nat fuel -> x < 2 ^ 63 -> (x < b -> t = x) ->
    exists hi,
      int_loop fuel b (mk_nd tn (lo ++ [t])) x
      = Ok (mk_nd (if x <? b then tn else int64) (lo ++ hi))
      /\ in_range b hi /\ hi <> [] /\ digits_value b hi = x
      /\ (hi = [0] \/ trimmed hi)
      /\ (x < b -> hi = [x]).
Proof.
  induction fuel as [|f IH]; intros x lo t tn Hx H63 Ht.
  - cbn [int_loop]. change (2 ^ Z.of_nat 0) with 1 in Hx.
    destruct (Z.geb_spec x b); [lia|].
    destruct (Z.ltb_spec x b); [|lia].
    exists [t]. rewrite Ht by lia. repeat split; try discriminate.
    + constructor; [lia|constructor].
    + cbn. lia.
    + assert (x = 0) as -> by lia. now left.
  - cbn [int_loop]. destruct (Z.geb_spec x b) as [Hge|Hlt].
    + destruct (Z.ltb_spec x b); [lia|].
      cbn [elts dt]. rewrite removelast_last.
      assert (Hfit : fits tn (x mod b) = true).
      { apply fits_iff, in_dtype_small. pose proof (Z.mod_pos_bound x b). lia. }
      rewrite Hfit.
      assert (Hq : 1 <= x / b /\ x / b < 2 ^ Z.of_nat f /\ x / b < 2 ^ 63).
      { rewrite Nat2Z.inj_succ, Z.pow_succ_r in Hx by lia.
        repeat split.
        - apply Z.div_le_lower_bound; lia.
        - apply Z.div_lt_upper_bound; [lia|]. nia.
        - apply Z.div_lt_upper_bound; [lia|]. nia. }
      unfold np_append_int, np_append. cbn [elts dt].
      destruct (IH (x / b) (lo ++ [x mod b]) (x / b) (promote tn int64)
                  ltac:(lia) ltac:(lia) ltac:(trivial))
        as (hi & E & Rh & Nh & Vh & Sh & _).
      exists (x mod b :: hi).
      rewrite E. rewrite <- app_assoc. cbn [app].
      assert ((if x / b <? b then promote tn int64 else int64) = int64) as ->
        by (destruct (x / b <? b), tn; reflexivity).
      repeat split; try discriminate.
      * constructor; [apply Z.mod_pos_bound; lia|exact Rh].
      * cbn [digits_value]. rewrite Vh. pose proof (Z.div_mod x b ltac:(lia)). lia.
      * right. destruct Sh as [->|T]; [cbn in Vh; lia|].
        destruct hi; [contradiction|exact T].
      * intros; lia.
    + destruct (Z.ltb_spec x b); [|lia].
      exists [t]. rewrite Ht by lia. repeat split; try discriminate.
      * constructor; [lia|constructor].
      * cbn. lia.
      * destruct (Z.eq_dec x 0) as [->|]; [now left|right; unfold trimmed; cbn; lia].
Qed.

Lemma int_digits_spec (st : dtype) (x : Z) :
  0 <= x < 2 ^ 63 ->
  exists a,
    int_digits b st x = Ok a
    /\ in_range b (elts a) /\ digits_value b (elts a) = x
    /\ (elts a = [0] \/ (trimmed (elts a) /\ elts a <> []))
    /\ dt a = (if x <? b then st else int64)
    /\ (x < b -> elts a = [x]).
Proof.
  intros Hx. unfold int_digits.
  destruct (Z.eqb_spec b 0); [lia|].
  assert (Hf : 0 <= x < 2 ^ Z.of_nat (Z.to_nat (Z.log2 x + 1))).
  { pose proof (Z.log2_nonneg x). rewrite Z2Nat.id by lia.
    destruct (Z.eq_dec x 0) as [->|]; [cbn; lia|].
    pose proof (Z.log2_spec x ltac:(lia)).
    replace (Z.log2 x + 1) with (Z.succ (Z.log2 x)) by lia. lia. }
  destruct (int_loop_spec (Z.to_nat (Z.log2 x + 1)) x [] (x mod b) st
              Hf ltac:(lia))
    as (hi & E & Rh & Nh & Vh & Sh & Ih).
  { intros Hlt. apply Z.mod_small. lia. }
  unfold np_array. cbn [forallb].
  assert (Hfit : fits st (x mod b) = true).
  { apply fits_iff, in_dtype_small. pose proof (Z.mod_pos_bound x b). lia. }
  rewrite Hfit. cbn [andb bind]. cbn [app] in E. rewrite E.
  eexists. split; [reflexivity|]. cbn [elts dt app].
  repeat split; trivial.
  destruct Sh as [->|T]; [now left|right; now split].
Qed.

Lemma __init___int (n : Z) (negative : bool) (st : dtype) :
  - 2 ^ 63 < n < 2 ^ 63 ->
  exists v,
    __init__ (PyInt n) b negative st = Ok v
    /\ _base v = b /\ _store v = st
    /\ _negative v = (if n <? 0 then true else negative)
    /\ canonical v
    /\ digits_value b (elts (_number v)) = Z.abs n
    /\ dt (_number v) = (if Z.abs n <? b then st else int64)
    /\ (Z.abs n < b -> elts (_number v) = [Z.abs n]).
Proof.
  intros Hn. unfold __init__.
  set (p := if n <? 0 then (- n, true) else (n, negative)).
  assert (Hp : p = (Z.abs n, if n <? 0 then true else negative)).
  { subst p. destruct (Z.ltb_spec n 0); f_equal; lia. }
  rewrite Hp.
  destruct (int_digits_spec st (Z.abs n) ltac:(lia)) as (a & E & Ra & Va & Sa & Da & Ia).
  rewrite E. cbn [bind].
  assert (Na : elts a <> []) by (destruct Sa as [->|[_ ?]]; [discriminate|assumption]).
  assert ((0 <? len a) = true) as ->.
  { apply Z.ltb_lt. unfold len. destruct (elts a); [contradiction|cbn [length]; lia]. }
  rewrite propogate_carryovers_id;
    [|assumption|assumption
     |rewrite Da; destruct (Z.ltb_spec (Z.abs n) b) as [Hs|Hl];
      [left; now rewrite Ia|right; unfold in_dtype; cbn [bits]; lia]].
  cbn [bind].
  eexists. split; [reflexivity|]. cbn [_base _negative _store _number elts dt].
  rewrite strip_top_id by exact Sa.
  repeat split; trivial.
  unfold inv_no_leading_zero. cbn. destruct Sa as [->|[T _]]; [now left|now right].
Qed.
End Constructor.

(** ** The operators on values *)

Lemma canonical_canon (v : BaseBigInteger) :
  canonical v -> canon (elts (_number v)).
Proof.
  intros (Hne & _ & [E|T]); [now left|right; now split].
Qed.

Lemma canon_longer_trimmed (l l' : list Z) :
  canon l -> canon l' -> (length l' < length l)%nat -> trimmed l.
Proof.
  intros [->|[T _]] Hl' Hlen; trivial.
  destruct Hl' as [->|[_ Hne]]; [cbn in Hlen; lia|].
  destruct l'; [contradiction|cbn in Hlen; lia].
Qed.

Lemma canon_shape (l : list Z) : canon l -> shape l.
Proof. intros [->|[T _]]; [now right|now left]. Qed.

Lemma canon_zero (b : Z) (l : list Z) :
  2 <= b -> in_range b l -> canon l -> digits_value b l = 0 -> l = [0].
Proof.
  intros Hb Hr [->|[T Hne]] Hv; trivial.
  pose proof (trimmed_value_pos b Hb l Hr T Hne). lia.
Qed.

Section Operators.
Variable b : Z.
Hypothesis Hb : 2 <= b.
Hypothesis Hadd : 2 * b <= 2 ^ 15.

Let Hb16 : b <= 2 ^ 15.
Proof. lia. Qed.

(** Signed addition of two canonical magnitudes followed by the
    construction of the result, as [__add__] and [__sub__] do.  The result
    takes the sign of the operand that the comparator calls the bigger
    one, which is the first one when the sum is zero. *)
Lemma add_signed (st : dtype) (n1 n2 : ndarray) (s1 s2 : bool) :
  in_range b (elts n1) -> in_range b (elts n2) ->
  canon (elts n1) -> canon (elts n2) ->
  exists r,
    (let* '(result, neg) := _add_numbers b st n1 s1 n2 s2 in
     __init__ (PyArray result) b neg st) = Ok r
    /\ value_of r
       = signed s1 (digits_value b (elts n1)) + signed s2 (digits_value b (elts n2))
    /\ canonical r /\ _base r = b /\ _store r = st
    /\ _negative r = (if swapped n1 n2 then s2 else s1)
    /\ (value_of r = 0 -> _negative r = s1).
Proof.
  intros R1 R2 C1 C2.
  pose proof (_add_numbers_core b st Hb Hadd n1 n2 s1 s2 R1 R2) as C.
  cbv zeta in C. unfold get_bigger_smaller in C.
  assert (N1 : elts n1 <> []) by (destruct C1 as [->|[_ ?]]; [discriminate|assumption]).
  assert (N2 : elts n2 <> []) by (destruct C2 as [->|[_ ?]]; [discriminate|assumption]).
  destruct (swapped n1 n2) eqn:S; cbn [fst snd] in C.
  - pose proof (swapped_true_lt b Hb n1 n2 R1 R2
                  (fun H => canon_longer_trimmed _ _ C2 C1 H) S) as Hlt.
    destruct (C ltac:(intros; lia)) as (r & E & Rr & Tr & Vr & _).
    rewrite E. cbn [bind].
    destruct (elts n2) as [|d2 r2] eqn:E2; [contradiction|].
    destruct (__init___array b Hb r s2 st Rr ltac:(right; apply in_dtype_small; lia))
      as (v & Ev & Bv & Nv & Sv & Cv & Vv & _).
    exists v. rewrite Ev. split; [reflexivity|].
    assert (V : value_of v
                = signed s1 (digits_value b (elts n1))
                  + signed s2 (digits_value b (d2 :: r2))).
    { unfold value_of. rewrite Bv, Nv, Vv, Vr. unfold signed.
      destruct s1, s2; cbn [eqb]; lia. }
    split; [exact V|]. split; [exact Cv|]. split; [exact Bv|].
    split; [exact Sv|]. split; [exact Nv|].
    intros Z0. rewrite V in Z0. unfold signed in Z0.
    pose proof (digits_value_bound b Hb _ R1).
    destruct s1, s2; lia.
  - pose proof (swapped_false_le b Hb n1 n2 R1 R2
                  (fun H => canon_longer_trimmed _ _ C1 C2 H) S) as Hle.
    destruct (C ltac:(intros; lia)) as (r & E & Rr & Tr & Vr & _).
    rewrite E. cbn [bind].
    destruct (elts n1) as [|d1 r1] eqn:E1; [contradiction|].
    destruct (__init___array b Hb r s1 st Rr ltac:(right; apply in_dtype_small; lia))
      as (v & Ev & Bv & Nv & Sv & Cv & Vv & _).
    exists v. rewrite Ev. split; [reflexivity|].
    split; [|auto].
    unfold value_of. rewrite Bv, Nv, Vv, Vr. unfold signed.
    destruct s1, s2; cbn [eqb]; lia.
Qed.

Lemma __add___spec (v w : BaseBigInteger) :
  canonical v -> canonical w -> _base v = b -> _base w = b ->
  exists r,
    __add__ v w = Ok r
    /\ value_of r = value_of v + value_of w
    /\ canonical r /\ _base r = b /\ _store r = _store v
    /\ (value_of r = 0 -> _negative r = _negative v).
Proof.
  intros Cv Cw Bv Bw. unfold __add__, value_of at 2 3. rewrite Bv, Bw.
  destruct (add_signed (_store v) (_number v) (_number w) (_negative v)
              (_negative w)) as (r & E & V & C & B & S & _ & Z0).
  - destruct Cv as (_ & R & _). unfold inv_digits in R. now rewrite Bv in R.
  - destruct Cw as (_ & R & _). unfold inv_digits in R. now rewrite Bw in R.
  - now apply canonical_canon.
  - now apply canonical_canon.
  - exists r. auto 10.
Qed.

Lemma __sub___spec (v w : BaseBigInteger) :
  canonical v -> canonical w -> _base v = b -> _base w = b ->
  exists r,
    __sub__ v w = Ok r
    /\ value_of r = value_of v - value_of w
    /\ canonical r /\ _base r = b /\ _store r = _store v
    /\ (value_of r = 0 -> _negative r = _negative v).
Proof.
  intros Cv Cw Bv Bw. unfold __sub__, value_of at 2 3. rewrite Bv, Bw.
  destruct (add_signed (_store v) (_number v) (_number w) (_negative v)
              (negb (_negative w))) as (r & E & V & C & B & S & _ & Z0).
  - destruct Cv as (_ & R & _). unfold inv_digits in R. now rewrite Bv in R.
  - destruct Cw as (_ & R & _). unfold inv_digits in R. now rewrite Bw in R.
  - now apply canonical_canon.
  - now apply canonical_canon.
  - exists r. split; [exact E|]. split; [|auto].
    rewrite V. unfold signed. destruct (_negative w); cbn [negb]; lia.
Qed.
End Operators.

Section Product.
Variable b : Z.
Hypothesis Hb : 2 <= b.
Hypothesis Hadd : 2 * b <= 2 ^ 15.

(** What [__mul__] makes of a product of the two magnitudes. *)
Lemma __mul___of_product (fuel : nat) (v w : BaseBigInteger) (r : ndarray) :
  _base v = b -> _base w = b ->
  _multiply_numbers b (_store v) fuel (_number v) (_number w) = Ok (r, false) ->
  in_range b (elts r) ->
  (length (elts r) <= 1)%nat \/ in_dtype (dt r) b ->
  digits_value b (elts r)
  = digits_value b (elts (_number v)) * digits_value b (elts (_number w)) ->
  exists p,
    __mul__ fuel v w = Ok p
    /\ value_of p = value_of v * value_of w
    /\ canonical p /\ _base p = b /\ _store p = int16
    /\ _negative p = negb (eqb (_negative v) (_negative w))
    /\ digits_value b (elts (_number p))
       = digits_value b (elts (_number v)) * digits_value b (elts (_number w)).
Proof.
  intros Bv Bw E Rr Fr Vr.
  unfold __mul__. rewrite Bv, E. cbn [bind orb].
  destruct (__init___array b Hb r
              (negb (eqb (_negative v) (_negative w))) default_store Rr Fr)
    as (p & Ep & Bp & Np & Sp & Cp & Vp & _).
  exists p. rewrite Ep. split; [reflexivity|].
  split; [|split; [exact Cp|split; [exact Bp|split; [exact Sp|split; [exact Np|]]]]].
  - unfold value_of. rewrite Bp, Np, Vp, Vr, Bv, Bw. unfold signed.
    destruct (_negative v), (_negative w); cbn [eqb negb]; ring.
  - now rewrite Vp, Vr.
Qed.

(** The product of two values whose digit products fit the element type
    in which they are computed. *)
Lemma __mul___room (fuel : nat) (v w : BaseBigInteger) :
  canonical v -> canonical w -> _base v = b -> _base w = b ->
  in_dtype (promote (dt (_number v)) (dt (_number w))) (b * b - 1) ->
  (Z.to_nat (Z.abs (value_of v) + Z.abs (value_of w)) < fuel)%nat ->
  exists r,
    __mul__ fuel v w = Ok r
    /\ value_of r = value_of v * value_of w
    /\ canonical r /\ _base r = b /\ _store r = int16
    /\ _negative r = negb (eqb (_negative v) (_negative w))
    /\ digits_value b (elts (_number r))
       = digits_value b (elts (_number v)) * digits_value b (elts (_number w)).
Proof.
  intros Cv Cw Bv Bw Hroom Hf.
  assert (Rv : in_range b (elts (_number v)))
    by (destruct Cv as (_ & R & _); unfold inv_digits in R; now rewrite Bv in R).
  assert (Rw : in_range b (elts (_number w)))
    by (destruct Cw as (_ & R & _); unfold inv_digits in R; now rewrite Bw in R).
  pose proof (digits_value_bound b Hb _ Rv) as Pv.
  pose proof (digits_value_bound b Hb _ Rw) as Pw.
  unfold value_of in Hf. rewrite Bv, Bw in Hf.
  destruct (_multiply_numbers_spec b (_store v) Hb Hadd fuel (_number v) (_number w)
              Rv Rw
              (canon_shape _ (canonical_canon _ Cv))
              (canon_shape _ (canonical_canon _ Cw)) Hroom)
    as (r & E & Rr & Vr).
  { unfold signed in Hf. destruct (_negative v), (_negative w); lia. }
  apply (__mul___of_product fuel v w r); trivial.
  right. apply in_dtype_small. lia.
Qed.


(** The product of two single digits that is a 16-bit integer. *)
Lemma __mul___digits (fuel : nat) (v w : BaseBigInteger) (p q : Z) :
  _base v = b -> _base w = b ->
  elts (_number v) = [p] -> elts (_number w) = [q] ->
  0 <= p < b -> 0 <= q < b -> p * q < 2 ^ 15 ->
  exists r,
    __mul__ (S fuel) v w = Ok r
    /\ value_of r = value_of v * value_of w
    /\ canonical r /\ _base r = b /\ _store r = int16
    /\ _negative r = negb (eqb (_negative v) (_negative w))
    /\ digits_value b (elts (_number r))
       = digits_value b (elts (_number v)) * digits_value b (elts (_number w)).
Proof.
  intros Bv Bw Ev Ew Hp Hq Hpq.
  destruct (_multiply_numbers_digits b (_store v) Hb fuel (_number v) (_number w)
              p q Hadd Ev Ew Hp Hq Hpq) as (r & E & Rr & Vr).
  apply (__mul___of_product (S fuel) v w r); trivial.
  - right. apply in_dtype_small. lia.
  - rewrite Vr, Ev, Ew. cbn [digits_value]. lia.
Qed.
End Product.

Lemma capacity_add (b : Z) : capacity b -> 2 * b <= 2 ^ 15.
Proof. intros [H1 H2]. nia. Qed.

Lemma capacity_room (b : Z) (t : dtype) : capacity b -> in_dtype t (b * b - 1).
Proof. intros [H1 H2]. apply in_dtype_small. nia. Qed.

Lemma __mul___spec (b : Z) (Hcap : capacity b) (fuel : nat) (v w : BaseBigInteger) :
  canonical v -> canonical w -> _base v = b -> _base w = b ->
  (Z.to_nat (Z.abs (value_of v) + Z.abs (value_of w)) < fuel)%nat ->
  exists r,
    __mul__ fuel v w = Ok r
    /\ value_of r = value_of v * value_of w
    /\ canonical r /\ _base r = b /\ _store r = int16.
Proof.
  intros Cv Cw Bv Bw Hf.
  destruct (__mul___room b (proj1 Hcap) (capacity_add b Hcap) fuel v w Cv Cw Bv Bw
              (capacity_room b _ Hcap) Hf) as (r & E & V & C & B & S & _).
  exists r. auto.
Qed.

Section Shifter.
Variable b : Z.
Hypothesis Hb : 2 <= b.

(** The zero that a right shift beyond the digit count returns. *)
Lemma __init___zero :
  __init__ (PyInt 0) b false default_store
  = Ok (mkBBI b false int16 (mk_nd int16 [0])).
Proof.
  unfold __init__, int_digits. change (0 <? 0) with false. cbv iota.
  destruct (Z.eqb_spec b 0); [lia|].
  rewrite Z.mod_0_l by lia.
  change (np_array [0] default_store) with (Ok (mk_nd int16 [0])). cbn [bind].
  change (Z.to_nat (Z.log2 0 + 1)) with 1%nat. cbn [int_loop].
  destruct (Z.geb_spec 0 b); [lia|]. cbn [bind].
  change (0 <? len (mk_nd int16 [0])) with true. cbv iota.
  rewrite (propogate_carryovers_id b Hb);
    [reflexivity|repeat constructor; lia|discriminate|now left].
Qed.

(** The digits, the element type and the sign that [shift] returns for a
    value whose array can hold the base, or has one digit only. *)
Lemma shift_spec (v : BaseBigInteger) (k : Z) :
  canonical v -> _base v = b ->
  (length (elts (_number v)) <= 1)%nat \/ in_dtype (dt (_number v)) b ->
  exists r,
    shift v k = Ok r
    /\ _base r = b /\ _store r = int16
    /\ elts (_number r)
       = (if k =? 0 then elts (_number v)
          else if k >? 0 then repeat 0 (Z.to_nat k) ++ elts (_number v)
          else if len (_number v) + k >? 0
               then skipn (Z.to_nat (- k)) (elts (_number v))
               else [0])
    /\ _negative r
       = (if (k <? 0) && negb (len (_number v) + k >? 0) then false
          else _negative v)
    /\ dt (_number r)
       = (if k =? 0 then dt (_number v)
          else if k >? 0 then promote (_store v) (dt (_number v))
          else if len (_number v) + k >? 0 then dt (_number v)
               else int16).
Proof.
  intros Cv Bv Hfit. unfold shift. rewrite Bv.
  assert (Rv : in_range b (elts (_number v)))
    by (destruct Cv as (_ & R & _); unfold inv_digits in R; now rewrite Bv in R).
  destruct (__init___array b Hb (_number v) (_negative v) default_store Rv Hfit)
    as (res & E & Br & Nr & Sr & Cr & Vr & Er & Dr).
  specialize (Er (canonical_canon _ Cv)).
  specialize (Dr (proj1 Cv)).
  rewrite E. cbn [bind].
  assert (Hlen : len (_number res) = len (_number v)) by (unfold len; now rewrite Er).
  rewrite Hlen.
  destruct (Z.eqb_spec k 0) as [->|K0].
  { exists res. cbn [andb]. auto 10. }
  rewrite Z.gtb_ltb.
  destruct (Z.ltb_spec 0 k) as [Kp|Kn].
  { eexists. split; [reflexivity|]. cbn [_base _store _negative _number].
    assert ((k <? 0) = false) as -> by (apply Z.ltb_ge; lia).
    cbn [andb]. repeat split; trivial.
    - unfold np_append, np_zeros. cbn [elts]. now rewrite Er.
    - unfold np_append, np_zeros. cbn [dt]. now rewrite Dr. }
  assert ((k <? 0) = true) as -> by (apply Z.ltb_lt; lia).
  rewrite Z.gtb_ltb.
  destruct (Z.ltb_spec 0 (len (_number v) + k)) as [D|D]; cbn [andb negb].
  - eexists. split; [reflexivity|]. cbn [_base _store _negative _number].
    repeat split; trivial.
    unfold slice_from. cbn [elts]. now rewrite Er.
  - rewrite __init___zero. eexists. split; [reflexivity|]. cbn. auto 10.
Qed.
End Shifter.

(** * The properties of the specification *)

Lemma value_of_constructed (b n : Z) (v : BaseBigInteger) :
  _base v = b -> _negative v = (if n <? 0 then true else false) ->
  digits_value b (elts (_number v)) = Z.abs n -> value_of v = n.
Proof.
  intros Bv Nv Vv. unfold value_of, signed. rewrite Bv, Nv, Vv.
  destruct (Z.ltb_spec n 0); lia.
Qed.

(** ** The digit store of results *)

Lemma __init___fields (x : pyarg) (b : Z) (negative : bool) (st : dtype)
  (v : BaseBigInteger) :
  __init__ x b negative st = Ok v -> _base v = b /\ _store v = st.
Proof.
  unfold __init__.
  destruct (match x with
            | PyArray a => _
            | PyInt n => _
            | PyStr s => _
            end) as [[number neg]| |]; cbn [bind]; try discriminate.
  destruct (if 0 <? len number then _ else _) as [[number' neg']| |];
    cbn [bind]; try discriminate.
  intros E. injection E as <-. split; reflexivity.
Qed.

(** C10: the values returned by multiply and by shift carry the default
    digit store [np.int16], whatever store the operands were configured
    with, whereas add and subtract hand the left operand's store on. *)
Theorem store_of_results (fuel : nat) (self other : BaseBigInteger) (k : Z) :
  (forall r, __mul__ fuel self other = Ok r -> _store r = int16)
  /\ (forall r, shift self k = Ok r -> _store r = int16)
  /\ (forall r, __add__ self other = Ok r -> _store r = _store self)
  /\ (forall r, __sub__ self other = Ok r -> _store r = _store self).
Proof.
  repeat split; intros r.
  - unfold __mul__.
    destruct (_multiply_numbers _ _ _ _ _) as [[res neg]| |]; cbn [bind]; try discriminate.
    intros E. now apply __init___fields in E.
  - unfold shift.
    destruct (__init__ (PyArray _) _ _ _) as [res| |] eqn:E0; cbn [bind]; try discriminate.
    apply __init___fields in E0. destruct E0 as [_ S0].
    destruct (k =? 0); [intros E; injection E as <-; exact S0|].
    destruct (k >? 0); [intros E; injection E as <-; exact S0|].
    destruct (len (_number res) + k >? 0); [intros E; injection E as <-; exact S0|].
    intros E. now apply __init___fields in E.
  - unfold __add__.
    destruct (_add_numbers _ _ _ _ _ _) as [[res neg]| |]; cbn [bind]; try discriminate.
    intros E. now apply __init___fields in E.
  - unfold __sub__.
    destruct (_add_numbers _ _ _ _ _ _) as [[res neg]| |]; cbn [bind]; try discriminate.
    intros E. now apply __init___fields in E.
Qed.

Lemma store_of_results_witness :
  exists p s a d,
    __mul__ 50 wide_12 wide_34 = Ok p /\ _store p = int16
    /\ shift wide_12 2 = Ok s /\ _store s = int16
    /\ __add__ wide_12 wide_34 = Ok a /\ _store a = int64
    /\ __sub__ wide_12 wide_34 = Ok d /\ _store d = int64.
Proof.
  pose proof (store_of_results 50 wide_12 wide_34 2) as (Hm & Hs & Ha & Hd).
  eexists. eexists. eexists. eexists.
  split; [vm_compute; reflexivity|].
  split; [apply Hm; vm_compute; reflexivity|].
  split; [vm_compute; reflexivity|].
  split; [apply Hs; vm_compute; reflexivity|].
  split; [vm_compute; reflexivity|].
  split; [apply Ha; vm_compute; reflexivity|].
  split; [vm_compute; reflexivity|].
  apply Hd; vm_compute; reflexivity.
Defined.

(** ** The normalizer returns when the element type holds the base *)

Section Totality.
Variable b : Z.
Variable st : dtype.
Variable t : dtype.
Variable base : Z.
Hypothesis Hb : 2 <= b.
Hypothesis Hfit : in_dtype t b.
Hypothesis Hfit' : in_dtype t base.

Lemma np_floordiv_total (x : Z) :
  exists q, np_floordiv t x base = Ok q /\ in_dtype t q.
Proof.
  unfold np_floordiv. rewrite (proj2 (fits_iff t base) Hfit').
  eexists. split; [reflexivity|].
  destruct (base =? 0); [apply in_dtype_zero|apply wrap_range].
Qed.

Lemma np_mod_total (x : Z) :
  exists r, np_mod t x b = Ok r /\ in_dtype t r.
Proof.
  unfold np_mod. rewrite (proj2 (fits_iff t b) Hfit).
  eexists. split; [reflexivity|].
  destruct (b =? 0); [apply in_dtype_zero|apply wrap_range].
Qed.

Lemma top_carry_total (fuel : nat) :
  forall top : Z,
  in_dtype t top -> top < 2 ^ Z.of_nat fuel ->
  exists hi, top_carry b fuel t top = Ok hi /\ hi <> [].
Proof.
  induction fuel as [|f IH]; intros top Ht Hf.
  - change (2 ^ Z.of_nat 0) with 1 in Hf. cbn [top_carry].
    destruct (Z.geb_spec top b); [lia|]. eexists. split; [reflexivity|discriminate].
  - cbn [top_carry]. destruct (Z.geb_spec top b) as [Hge|Hlt];
      [|eexists; split; [reflexivity|discriminate]].
    assert (Hq : 1 <= top / b /\ top / b < top).
    { split; [apply Z.div_le_lower_bound; lia|apply Z.div_lt_upper_bound; nia]. }
    assert (Hd : in_dtype t (top / b)) by (unfold in_dtype in *; lia).
    rewrite np_floordiv_ok by (trivial; lia).
    rewrite np_mod_ok by (trivial; lia). cbn [bind].
    destruct (IH (top / b) Hd) as (hi & E & _).
    { rewrite Nat2Z.inj_succ, Z.pow_succ_r in Hf by lia.
      apply Z.div_lt_upper_bound; [lia|]. nia. }
    rewrite E. cbn [bind]. eexists. split; [reflexivity|discriminate].
Qed.

Lemma carry_scan_total (rest : list Z) :
  forall cur, in_dtype t cur ->
  exists l, carry_scan b t base cur rest = Ok l /\ l <> [] /\ in_dtype t (last_elt l).
Proof.
  induction rest as [|y tl IH]; intros cur Hc.
  - exists [cur]. split; [reflexivity|]. split; [discriminate|exact Hc].
  - cbn [carry_scan].
    destruct (np_floordiv_total cur) as (q & Eq & _). rewrite Eq. cbn [bind].
    destruct (np_mod_total cur) as (r & Er & _). rewrite Er. cbn [bind].
    destruct (IH (wrap t (y + q)) (wrap_range _ _)) as (l & El & Nl & Ll).
    rewrite El. cbn [bind]. exists (r :: l).
    split; [reflexivity|]. split; [discriminate|].
    unfold last_elt in *. destruct l; [contradiction|exact Ll].
Qed.

Lemma fix_negative_top_total (l : list Z) (negative : bool) :
  in_dtype t (last_elt l) ->
  exists l' neg,
    fix_negative_top b t l negative = Ok (l', neg) /\ in_dtype t (last_elt l').
Proof.
  intros Hl. unfold fix_negative_top.
  destruct (last_elt l <? 0); [|eexists; eexists; split; [reflexivity|exact Hl]].
  destruct (np_mod_total (last_elt l)) as (r & Er & Hr). rewrite Er. cbn [bind].
  destruct (1 <? Z.of_nat (length l)); eexists; eexists;
    (split; [reflexivity|]); unfold last_elt.
  - change [r; 0] with ([r] ++ [0]).
    rewrite app_assoc, last_last. apply in_dtype_zero.
  - rewrite last_last. exact Hr.
Qed.

(** Whatever digits the element type holds, the normalizer returns. *)
Lemma propogate_carryovers_total (a : ndarray) (negative : bool) :
  dt a = t -> Forall (in_dtype t) (elts a) ->
  exists r neg,
    propogate_carryovers b st a base negative = Ok (r, neg) /\ elts r <> [].
Proof.
  intros Ht Ha. unfold propogate_carryovers. rewrite Ht.
  destruct (elts a) as [|d0 rest] eqn:E.
  - eexists. eexists. split; [reflexivity|]. discriminate.
  - pose proof (Forall_inv Ha) as Hd0.
    destruct (carry_scan_total rest d0 Hd0) as (l & El & Nl & Ll).
    rewrite El. cbn [bind].
    destruct (fix_negative_top_total l negative Ll) as (l' & neg & Ef & Lf).
    rewrite Ef. cbn [bind].
    destruct (top_carry_total 64 (last_elt l') Lf) as (hi & Eh & Nh).
    { now apply in_dtype_lt_64 with (t := t). }
    rewrite Eh. cbn [bind]. eexists. eexists. split; [reflexivity|]. cbn [elts].
    intros C. apply app_eq_nil in C. destruct C as [_ C]. contradiction.
Qed.
End Totality.

(** ** The normalizer and a negative most significant digit *)

(** C4: on the digits [3; -1] in base 10 (which denote 3 - 10 = -7) with
    the sign unset, the normalizer moves the top digit's remainder 9 into
    the second position, overwriting the 3, zeroes the top digit and flips
    the sign: the result denotes -9, not the number it was given. *)
Theorem normalizer_negative_top_digit :
  propogate_carryovers 10 int16 (mk_nd int16 [3; -1]) 10 false
  = Ok (mk_nd int16 [9; 0], true)
  /\ signed false (digits_value 10 [3; -1]) = -7
  /\ signed true (digits_value 10 [9; 0]) = -9
  /\ (exists v, __init__ (PyArray (mk_nd int16 [3; -1])) 10 false int16 = Ok v
                /\ value_of v = -9).
Proof.
  split; [vm_compute; reflexivity|].
  split; [reflexivity|]. split; [reflexivity|].
  eexists. split; vm_compute; reflexivity.
Qed.


(** ** Decoding strings *)

Lemma map_int_fail (l : list ascii) :
  Exists (fun c => is_decimal c = false) l -> map_int l = Raises ValueError.
Proof.
  induction l as [|c r IH]; intros H; [inversion H|].
  cbn [map_int]. unfold int_of_char. fold (is_decimal c).
  destruct (is_decimal c) eqn:D; cbn [bind]; trivial.
  inversion H as [? ? Hc|? ? Hr]; subst; [congruence|].
  now rewrite IH.
Qed.

Lemma map_int_ok (l : list ascii) :
  Forall (fun c => is_decimal c = true) l ->
  map_int l = Ok (map (fun c => ord c - 48) l).
Proof.
  induction 1 as [|c r Hc Hr IH]; [reflexivity|].
  cbn [map_int map]. unfold int_of_char. fold (is_decimal c).
  rewrite Hc. cbn [bind]. rewrite IH. reflexivity.
Qed.

Lemma length_list_ascii (s : string) :
  length (list_ascii_of_string s) = String.length s.
Proof. induction s; cbn; congruence. Qed.

Lemma np_array_ok (l : list Z) (t : dtype) :
  Forall (in_dtype t) l -> np_array l t = Ok (mk_nd t l).
Proof.
  intros H. unfold np_array.
  assert (forallb (fits t) l = true) as ->; [|reflexivity].
  apply forallb_forall. rewrite Forall_forall in H.
  intros x Hx. now apply fits_iff, H.
Qed.

Lemma np_array_small (l : list Z) (t : dtype) :
  Forall (fun d => - 2 ^ 15 <= d < 2 ^ 15) l -> np_array l t = Ok (mk_nd t l).
Proof.
  intros H. apply np_array_ok. eapply Forall_impl; [|exact H].
  intros d Hd. now apply in_dtype_small.
Qed.

Lemma digits_value_nonneg (b : Z) (l : list Z) :
  0 <= b -> Forall (fun d => 0 <= d) l -> 0 <= digits_value b l.
Proof.
  intros Hb. induction 1 as [|d l Hd Hl IH]; cbn [digits_value]; nia.
Qed.

Lemma decimal_digits_bounds (s : string) :
  Forall (fun c => is_decimal c = true) (list_ascii_of_string s) ->
  Forall (fun d => 0 <= d <= 9) (decimal_digits s).
Proof.
  intros H. unfold decimal_digits, reversed. apply Forall_map, Forall_rev.
  eapply Forall_impl; [|exact H]. cbv beta. intros c Hc.
  unfold is_decimal in Hc. apply andb_prop in Hc. destruct Hc as [H1 H2].
  apply Z.leb_le in H1, H2. lia.
Qed.

Lemma ord_range (c : ascii) : 0 <= ord c < 256.
Proof. unfold ord. pose proof (N_ascii_bounded c). lia. Qed.

Ltac split_tests :=
  repeat match goal with
         | |- context [?a <=? ?b] => destruct (Z.leb_spec a b)
         | |- context [?a =? ?b] => destruct (Z.eqb_spec a b)
         | H : context [?a <=? ?b] |- _ => destruct (Z.leb_spec a b)
         end; cbn [andb orb negb] in *.

(** The code points of a character in upper case, as digits. *)
Lemma upper_codes_digits (c : ascii) :
  Forall (fun d => - 55 <= d <= 869) (map alnum_digit (upper_codes c))
  /\ upper_codes c <> [].
Proof.
  pose proof (ord_range c) as Ho. unfold upper_codes, alnum_digit.
  set (o := ord c) in *. clearbody o.
  split_tests; (split; [repeat constructor; cbv beta; split_tests; lia|discriminate]).
Qed.

Lemma upper_codes_alnum (c : ascii) :
  is_alnum c = true ->
  Forall (fun d => 0 <= d <= 35) (map alnum_digit (upper_codes c)).
Proof.
  unfold is_alnum, upper_codes, alnum_digit.
  set (o := ord c) in *. clearbody o. intros H.
  split_tests; try discriminate;
    repeat constructor; cbv beta; split_tests; lia.
Qed.

Lemma alnum_digits_any (s : string) :
  Forall (fun d => - 55 <= d <= 869) (alnum_digits s).
Proof.
  unfold alnum_digits, reversed_upper. rewrite map_rev. apply Forall_rev.
  induction (list_ascii_of_string s) as [|c l IH]; [constructor|].
  cbn [flat_map]. rewrite map_app. apply Forall_app. split; [|exact IH].
  apply upper_codes_digits.
Qed.

Lemma alnum_digits_bounds (s : string) :
  Forall (fun c => is_alnum c = true) (list_ascii_of_string s) ->
  Forall (fun d => 0 <= d <= 35) (alnum_digits s).
Proof.
  unfold alnum_digits, reversed_upper. rewrite map_rev. intros H. apply Forall_rev.
  induction H as [|c l Hc Hl IH]; [constructor|].
  cbn [flat_map]. rewrite map_app. apply Forall_app. split; [|exact IH].
  now apply upper_codes_alnum.
Qed.

Lemma alnum_digits_nonempty (s : string) :
  s <> EmptyString -> alnum_digits s <> [].
Proof.
  intros Hs. destruct s as [|c r]; [contradiction|].
  unfold alnum_digits, reversed_upper. cbn [list_ascii_of_string flat_map].
  intros C. apply map_eq_nil in C. apply (f_equal (@rev Z)) in C.
  rewrite rev_involutive in C. cbn [rev] in C.
  apply app_eq_nil in C. destruct C as [C _].
  now apply (proj2 (upper_codes_digits c)).
Qed.

Lemma decimal_digits_nonempty (s : string) :
  s <> EmptyString -> decimal_digits s <> [].
Proof.
  intros Hs. unfold decimal_digits, reversed. intros C.
  apply map_eq_nil in C. apply (f_equal (@rev ascii)) in C.
  rewrite rev_involutive in C. cbn in C.
  destruct s; [contradiction|discriminate].
Qed.

(** The pair that the string branch of the constructor works on: the
    string without its minus signs when it starts with one, and the sign. *)
Lemma str_digits_body (s : string) (b : Z) (neg : bool) (st : dtype) :
  sign_stripped s <> EmptyString ->
  str_digits s b neg st
  = if b <=? 10
    then let* ds := map_int (reversed (sign_stripped s)) in
         let* number := np_array ds st in Ok (number, starts_with_minus s || neg)
    else let* number := np_array (alnum_digits (sign_stripped s)) st in
         Ok (number, starts_with_minus s || neg).
Proof.
  intros Hne. destruct s as [|c0 r]; [contradiction|].
  unfold str_digits, alnum_digits. cbn [sign_stripped starts_with_minus] in *.
  set (body := if is_minus c0 then remove_minus (String c0 r) else String c0 r) in *.
  assert (P : (if is_minus c0 then (remove_minus (String c0 r), true)
               else (String c0 r, neg)) = (body, is_minus c0 || neg))
    by (subst body; destruct (is_minus c0); reflexivity).
  rewrite P. clear P.
  assert ((String.length body <? 1)%nat = false) as ->
    by (destruct body; [contradiction|reflexivity]).
  reflexivity.
Qed.

Lemma str_digits_decimal (s : string) (b : Z) (neg : bool) (st : dtype) :
  b <= 10 -> sign_stripped s <> EmptyString ->
  Forall (fun c => is_decimal c = true) (list_ascii_of_string (sign_stripped s)) ->
  str_digits s b neg st
  = Ok (mk_nd st (decimal_digits (sign_stripped s)), starts_with_minus s || neg).
Proof.
  intros Hb Hne Hall. rewrite str_digits_body by exact Hne.
  assert ((b <=? 10) = true) as -> by (apply Z.leb_le; lia).
  unfold reversed. rewrite map_int_ok by (apply Forall_rev; exact Hall).
  cbn [bind]. fold (reversed (sign_stripped s)).
  fold (decimal_digits (sign_stripped s)).
  rewrite np_array_small; [reflexivity|].
  pose proof (decimal_digits_bounds _ Hall) as B.
  eapply Forall_impl; [|exact B]. cbv beta. intros; lia.
Qed.

Lemma str_digits_alnum (s : string) (b : Z) (neg : bool) (st : dtype) :
  10 < b -> sign_stripped s <> EmptyString ->
  str_digits s b neg st
  = Ok (mk_nd st (alnum_digits (sign_stripped s)), starts_with_minus s || neg).
Proof.
  intros Hb Hne. rewrite str_digits_body by exact Hne.
  assert ((b <=? 10) = false) as -> by (apply Z.leb_gt; lia).
  rewrite np_array_small; [reflexivity|].
  pose proof (alnum_digits_any (sign_stripped s)) as B.
  eapply Forall_impl; [|exact B]. cbv beta. intros; lia.
Qed.

(** The value constructed from an array of small digits that are not
    negative, which the normalizer carries into range. *)
Lemma __init___carried (b D H : Z) (st : dtype) (ds : list Z) (neg : bool) :
  2 <= b -> 0 <= D <= H -> D + H / b <= H -> H < 2 ^ 15 -> in_dtype st b ->
  ds <> [] -> Forall (fun d => 0 <= d <= D) ds ->
  exists v,
    (let* '(number, negative) :=
       (if 0 <? len (mk_nd st ds)
        then propogate_carryovers b st (mk_nd st ds) b neg
        else Raises ZeroLength) in
     Ok (mkBBI b negative st (mk_nd (dt number) (strip_top (elts number))))) = Ok v
    /\ canonical v /\ _base v = b /\ _store v = st
    /\ digits_value b (elts (_number v)) = digits_value b ds
    /\ _negative v = neg.
Proof.
  intros Hb HD HDH HH Hfit Nd B.
  assert ((0 <? len (mk_nd st ds)) = true) as ->.
  { apply Z.ltb_lt. unfold len. cbn [elts]. destruct ds; [contradiction|cbn [length]; lia]. }
  destruct (propogate_carryovers_spec b D H 0 st st Hb ltac:(lia) HD HDH
              ltac:(apply in_dtype_small; lia) Hfit
              ltac:(apply in_dtype_small; lia)
              (mk_nd st ds) neg eq_refl)
    as (l & El & Rl & Nl & Vl).
  { exact Nd. }
  { cbn [elts]. eapply Forall_impl; [|exact B]. cbv beta. intros; lia. }
  { cbn [elts]. apply digits_value_nonneg; [lia|].
    eapply Forall_impl; [|exact B]. cbv beta. intros; lia. }
  rewrite El. cbn [bind dt elts].
  eexists. split; [reflexivity|]. cbn [_number _negative _base _store elts].
  split; [|split; [reflexivity|split; [reflexivity|split; [|reflexivity]]]].
  - repeat split; cbn.
    + now apply strip_top_shape.
    + now apply strip_top_in_range.
    + now apply strip_top_shape.
  - rewrite strip_top_value. exact Vl.
Qed.

Lemma __init___decimal_string (s : string) (b : Z) (neg : bool) (st : dtype) :
  2 <= b <= 10 -> sign_stripped s <> EmptyString ->
  Forall (fun c => is_decimal c = true) (list_ascii_of_string (sign_stripped s)) ->
  exists v,
    __init__ (PyStr s) b neg st = Ok v
    /\ canonical v /\ _base v = b /\ _store v = st
    /\ digits_value b (elts (_number v))
       = digits_value b (decimal_digits (sign_stripped s))
    /\ _negative v = (starts_with_minus s || neg).
Proof.
  intros Hb Hne Hall.
  pose proof (str_digits_decimal s b neg st ltac:(lia) Hne Hall) as E.
  unfold __init__. cbn [bind]. fold (str_digits s b neg st). rewrite E. cbn [bind].
  apply (__init___carried b 9 18); try lia.
  - pose proof (Z.div_le_upper_bound 18 b 9 ltac:(lia) ltac:(lia)); lia.
  - apply in_dtype_small. lia.
  - now apply decimal_digits_nonempty.
  - now apply decimal_digits_bounds.
Qed.

Lemma __init___alnum_string (s : string) (b : Z) (neg : bool) (st : dtype) :
  10 < b -> in_dtype st b -> sign_stripped s <> EmptyString ->
  Forall (fun c => is_alnum c = true) (list_ascii_of_string (sign_stripped s)) ->
  exists v,
    __init__ (PyStr s) b neg st = Ok v
    /\ canonical v /\ _base v = b /\ _store v = st
    /\ digits_value b (elts (_number v))
       = digits_value b (alnum_digits (sign_stripped s))
    /\ _negative v = (starts_with_minus s || neg).
Proof.
  intros Hb Hfit Hne Hall.
  pose proof (str_digits_alnum s b neg st Hb Hne) as E.
  unfold __init__. cbn [bind]. fold (str_digits s b neg st). rewrite E. cbn [bind].
  apply (__init___carried b 35 39); try lia; trivial.
  - pose proof (Z.div_le_upper_bound 39 b 4 ltac:(lia) ltac:(lia)); lia.
  - now apply alnum_digits_nonempty.
  - now apply alnum_digits_bounds.
Qed.

(** Once the digit array of a string is built, construction succeeds when
    the array's element type holds the base. *)
Lemma __init___after_digits (b : Z) (st : dtype) (number : ndarray) (neg : bool) :
  2 <= b -> in_dtype (dt number) b ->
  Forall (in_dtype (dt number)) (elts number) -> elts number <> [] ->
  exists v,
    (let* '(number, negative) :=
       (if 0 <? len number then propogate_carryovers b st number b neg
        else Raises ZeroLength) in
     Ok (mkBBI b negative st (mk_nd (dt number) (strip_top (elts number))))) = Ok v
    /\ _base v = b /\ _store v = st.
Proof.
  intros Hb Hfit Hd Hne.
  assert ((0 <? len number) = true) as ->.
  { apply Z.ltb_lt. unfold len. destruct (elts number); [contradiction|cbn [length]; lia]. }
  destruct (propogate_carryovers_total b st (dt number) b Hb Hfit Hfit number neg
              eq_refl Hd) as (r & n & E & _).
  rewrite E. cbn [bind]. eexists. split; [reflexivity|]. split; reflexivity.
Qed.

(** In a base above 10 that the store holds, every string but the empty
    one is accepted. *)
Lemma __init___any_string (s : string) (b : Z) (neg : bool) (st : dtype) :
  10 < b -> in_dtype st b -> s <> EmptyString ->
  exists v, __init__ (PyStr s) b neg st = Ok v /\ _base v = b /\ _store v = st.
Proof.
  intros Hb Hfit Hs.
  destruct (string_dec (sign_stripped s) EmptyString) as [Ee|Hne].
  - destruct s as [|c0 r]; [contradiction|].
    unfold __init__, str_digits. cbn [sign_stripped] in Ee.
    set (body := if is_minus c0 then remove_minus (String c0 r) else String c0 r) in *.
    assert (P : (if is_minus c0 then (remove_minus (String c0 r), true)
                 else (String c0 r, neg)) = (body, is_minus c0 || neg))
      by (subst body; destruct (is_minus c0); reflexivity).
    rewrite P, Ee. cbn [String.length Nat.ltb Nat.leb bind].
    apply __init___after_digits; [lia|exact Hfit| |discriminate].
    repeat constructor; apply in_dtype_zero.
  - pose proof (str_digits_alnum s b neg st Hb Hne) as E.
    unfold __init__. cbn [bind]. fold (str_digits s b neg st). rewrite E. cbn [bind].
    apply __init___after_digits;
      [lia|exact Hfit| |cbn [elts]; now apply alnum_digits_nonempty].
    cbn [dt elts]. pose proof (alnum_digits_any (sign_stripped s)) as B.
    eapply Forall_impl; [|exact B]. cbv beta. intros d Hd.
    apply in_dtype_small. lia.
Qed.

(** C7, as stated, fails: the character '9' in base 2 is accepted, and
    carried into the binary digits of nine. *)
Lemma invalid_digit_accepted :
  __init__ (PyStr "9") 2 false default_store
  = Ok (mkBBI 2 false int16 (mk_nd int16 [1; 0; 0; 1])).
Proof. vm_compute. reflexivity. Qed.

(** C7, amended: a string that is not empty is rejected, with the
    [ValueError] of [int], when the base is at most 10 and the string (its
    minus signs removed if it starts with one) holds a character that is not
    a decimal digit.  Every other character outside the digit set of the
    base is accepted: in a base from 2 to 10 a string of decimal digits
    yields the canonical value of the number that its digits, at or above
    the base or not, spell positionally; in a base above 10 that the store
    holds every string is accepted, and a string of letters and digits
    yields the canonical value that the digits 0 to 35 of its characters
    spell positionally. *)
Theorem invalid_digit_handling (s : string) (b : Z) (neg : bool) (st : dtype) :
  s <> EmptyString ->
  (b <= 10 ->
   Exists (fun c => is_decimal c = false) (list_ascii_of_string (sign_stripped s)) ->
   __init__ (PyStr s) b neg st = Raises ValueError)
  /\ (2 <= b <= 10 -> sign_stripped s <> EmptyString ->
      Forall (fun c => is_decimal c = true) (list_ascii_of_string (sign_stripped s)) ->
      exists v,
        __init__ (PyStr s) b neg st = Ok v /\ canonical v /\ _base v = b
        /\ value_of v
           = signed (starts_with_minus s || neg)
               (digits_value b (decimal_digits (sign_stripped s))))
  /\ (10 < b -> in_dtype st b ->
      exists v, __init__ (PyStr s) b neg st = Ok v /\ _base v = b)
  /\ (10 < b -> in_dtype st b -> sign_stripped s <> EmptyString ->
      Forall (fun c => is_alnum c = true) (list_ascii_of_string (sign_stripped s)) ->
      exists v,
        __init__ (PyStr s) b neg st = Ok v /\ canonical v /\ _base v = b
        /\ value_of v
           = signed (starts_with_minus s || neg)
               (digits_value b (alnum_digits (sign_stripped s)))).
Proof.
  intros Hs. split; [|split; [|split]].
  - intros H10 Hex.
    assert (Hne : sign_stripped s <> EmptyString).
    { intros C. rewrite C in Hex. inversion Hex. }
    unfold __init__. fold (str_digits s b neg st).
    rewrite str_digits_body by exact Hne.
    assert ((b <=? 10) = true) as -> by (apply Z.leb_le; lia).
    unfold reversed. rewrite map_int_fail by (apply Exists_rev; exact Hex).
    reflexivity.
  - intros Hb Hne Hall.
    destruct (__init___decimal_string s b neg st Hb Hne Hall)
      as (v & E & C & B & _ & V & N).
    exists v. repeat split; trivial; try apply C.
    unfold value_of. now rewrite B, V, N.
  - intros Hb Hfit.
    destruct (__init___any_string s b neg st Hb Hfit Hs) as (v & E & B & _).
    now exists v.
  - intros Hb Hfit Hne Hall.
    destruct (__init___alnum_string s b neg st Hb Hfit Hne Hall)
      as (v & E & C & B & _ & V & N).
    exists v. repeat split; trivial; try apply C.
    unfold value_of. now rewrite B, V, N.
Qed.

Lemma invalid_digit_handling_witness :
  __init__ (PyStr "1a") 10 false default_store = Raises ValueError
  /\ (exists v, __init__ (PyStr "9") 2 false default_store = Ok v
                /\ value_of v = 9)
  /\ (exists v, __init__ (PyStr "1|") 16 false default_store = Ok v)
  /\ (exists v, __init__ (PyStr "-1z") 16 false default_store = Ok v
                /\ value_of v = - (1 * 16 + 35)).
Proof.
  split; [|split; [|split]].
  - apply (proj1 (invalid_digit_handling "1a" 10 false default_store
                    ltac:(discriminate))); [lia|].
    cbn. apply Exists_cons_tl, Exists_cons_hd. reflexivity.
  - destruct (proj1 (proj2 (invalid_digit_handling "9" 2 false default_store
                              ltac:(discriminate)))
                ltac:(lia) ltac:(discriminate) ltac:(cbn; repeat constructor))
      as (v & E & _ & _ & V).
    exists v. split; [exact E|exact V].
  - destruct (proj1 (proj2 (proj2 (invalid_digit_handling "1|" 16 false default_store
                                     ltac:(discriminate))))
                ltac:(lia) ltac:(apply in_dtype_small; lia))
      as (v & E & _).
    now exists v.
  - destruct (proj2 (proj2 (proj2 (invalid_digit_handling "-1z" 16 false default_store
                                     ltac:(discriminate))))
                ltac:(lia) ltac:(apply in_dtype_small; lia)
                ltac:(discriminate) ltac:(cbn; repeat constructor))
      as (v & E & _ & _ & V).
    exists v. split; [exact E|exact V].
Defined.

(** ** Shifting *)

Lemma last_app_nonempty (a l : list Z) (d : Z) :
  l <> [] -> last (a ++ l) d = last l d.
Proof.
  intros Hne. destruct (exists_last Hne) as (l0 & t & ->).
  now rewrite app_assoc, !last_last.
Qed.





Lemma canonical_minus_15 : canonical minus_15.
Proof.
  repeat split.
  - discriminate.
  - repeat constructor; cbn; lia.
  - right. unfold trimmed. cbn. lia.
Qed.

Lemma canonical_wide : canonical wide_12 /\ canonical wide_34.
Proof.
  split; repeat split; try discriminate;
    try (repeat constructor; cbn; lia); right; unfold trimmed; cbn; lia.
Qed.


(** ** Canonical form *)

(** *** What the normalizer returns is in range *)

Lemma Forall_trim_back (P : Z -> Prop) (l : list Z) :
  Forall P l -> Forall P (trim_back l).
Proof.
  induction 1 as [|x l Hx Hl IH]; simpl; [constructor|].
  destruct (trim_back l) as [|y r] eqn:E.
  - destruct (x =? 0); constructor; trivial.
  - constructor; trivial.
Qed.

Lemma Forall_removelast (P : Z -> Prop) (l : list Z) :
  Forall P l -> Forall P (removelast l).
Proof.
  intros H. destruct l as [|x r]; [constructor|].
  destruct (exists_last (l := x :: r) ltac:(discriminate)) as (l0 & t & E).
  rewrite E in *. rewrite removelast_last. now apply Forall_app in H.
Qed.

Lemma well_typed_append (x y : ndarray) :
  well_typed x -> well_typed y -> well_typed (np_append x y).
Proof.
  unfold well_typed, np_append. cbn [dt elts]. intros Hx Hy.
  apply Forall_app. split.
  - eapply Forall_impl; [|exact Hx]. intros d Hd.
    exact (proj1 (in_dtype_promote _ _ _ Hd)).
  - eapply Forall_impl; [|exact Hy]. intros d Hd.
    exact (proj2 (in_dtype_promote _ _ _ Hd)).
Qed.

Lemma well_typed_zeros (n : Z) (t : dtype) : well_typed (np_zeros n t).
Proof.
  unfold well_typed, np_zeros. cbn [dt elts]. apply Forall_forall.
  intros x Hx. apply repeat_spec in Hx. subst. apply in_dtype_zero.
Qed.

Lemma well_typed_scale (a : ndarray) (s : Z) (ts : dtype) : well_typed (np_scale a s ts).
Proof.
  unfold well_typed, np_scale. cbn [dt elts]. apply Forall_map, Forall_forall.
  intros x _. apply wrap_range.
Qed.

Lemma well_typed_trim (a : ndarray) : well_typed a -> well_typed (np_trim_zeros a).
Proof. apply Forall_trim_back. Qed.

Lemma well_typed_slice_to (a : ndarray) (m : Z) : well_typed a -> well_typed (slice_to a m).
Proof.
  unfold well_typed, slice_to. cbn [dt elts]. intros H.
  rewrite <- (firstn_skipn (Z.to_nat m) (elts a)) in H. now apply Forall_app in H.
Qed.

Lemma well_typed_slice_from (a : ndarray) (m : Z) :
  well_typed a -> well_typed (slice_from a m).
Proof.
  unfold well_typed, slice_from. cbn [dt elts]. intros H.
  rewrite <- (firstn_skipn (Z.to_nat m) (elts a)) in H. now apply Forall_app in H.
Qed.

Section Safety.
Variable b : Z.
Variable st : dtype.
Hypothesis Hb : 2 <= b.

Lemma np_mod_digit (t : dtype) (x r : Z) :
  np_mod t x b = Ok r -> 0 <= r < b /\ in_dtype t r.
Proof.
  unfold np_mod. destruct (fits t b) eqn:F; [|discriminate].
  apply fits_iff in F. destruct (Z.eqb_spec b 0); [lia|].
  intros E. injection E as <-.
  pose proof (Z.mod_pos_bound x b ltac:(lia)).
  assert (in_dtype t (x mod b))
    by (apply (in_dtype_between t 0 b); trivial; [apply in_dtype_zero|lia]).
  rewrite wrap_id by assumption. split; [lia|assumption].
Qed.

Lemma np_floordiv_top (t : dtype) (x q : Z) :
  np_floordiv t x b = Ok q -> in_dtype t x -> b <= x ->
  0 <= q /\ in_dtype t q.
Proof.
  unfold np_floordiv. destruct (fits t b) eqn:F; [|discriminate].
  destruct (Z.eqb_spec b 0); [lia|].
  intros E Hx Hge. injection E as <-.
  assert (Hq : 0 <= x / b <= x).
  { split; [apply Z.div_pos; lia|]. apply Z.div_le_upper_bound; nia. }
  assert (in_dtype t (x / b)) by (unfold in_dtype in *; lia).
  rewrite wrap_id by assumption. split; [lia|assumption].
Qed.

Lemma carry_scan_safe (t : dtype) (base : Z) (rest : list Z) :
  forall cur l,
    carry_scan b t base cur rest = Ok l -> in_dtype t cur ->
    exists lo top,
      l = lo ++ [top] /\ in_range b lo /\ Forall (in_dtype t) lo /\ in_dtype t top.
Proof.
  induction rest as [|y tl IH]; intros cur l E Hc.
  - cbn [carry_scan] in E. injection E as <-.
    exists [], cur. split; [reflexivity|]. split; [constructor|].
    split; [constructor|exact Hc].
  - cbn [carry_scan] in E.
    destruct (np_floordiv t cur base) as [q| |]; cbn [bind] in E; try discriminate.
    destruct (np_mod t cur b) as [r| |] eqn:Er; cbn [bind] in E; try discriminate.
    destruct (carry_scan b t base (wrap t (y + q)) tl) as [l'| |] eqn:El;
      cbn [bind] in E; try discriminate.
    injection E as <-.
    destruct (IH _ _ El (wrap_range _ _)) as (lo & top & -> & Rlo & Tlo & Ttop).
    destruct (np_mod_digit _ _ _ Er) as [Rr Tr].
    exists (r :: lo), top. split; [reflexivity|].
    split; [constructor; trivial|]. split; [constructor; trivial|exact Ttop].
Qed.

Lemma fix_negative_top_safe (t : dtype) (lo : list Z) (top : Z) (negative : bool)
  (l' : list Z) (neg' : bool) :
  fix_negative_top b t (lo ++ [top]) negative = Ok (l', neg') ->
  in_range b lo -> Forall (in_dtype t) lo -> in_dtype t top ->
  exists lo' top',
    l' = lo' ++ [top'] /\ in_range b lo' /\ Forall (in_dtype t) lo'
    /\ 0 <= top' /\ in_dtype t top'.
Proof.
  unfold fix_negative_top, last_elt. rewrite last_last. intros E Rlo Tlo Ttop.
  destruct (Z.ltb_spec top 0) as [Hn|Hp].
  - destruct (np_mod t top b) as [r| |] eqn:Er; cbn [bind] in E; try discriminate.
    destruct (np_mod_digit _ _ _ Er) as [Rr Tr].
    rewrite removelast_last in E.
    destruct (1 <? Z.of_nat (length (lo ++ [top]))); injection E as <- <-.
    + exists (removelast lo ++ [r]), 0. rewrite <- app_assoc. cbn [app].
      split; [reflexivity|].
      split; [apply Forall_app; split;
              [now apply Forall_removelast|constructor; [exact Rr|constructor]]|].
      split; [apply Forall_app; split;
              [now apply Forall_removelast|constructor; [exact Tr|constructor]]|].
      split; [lia|apply in_dtype_zero].
    + exists lo, r. split; [reflexivity|]. split; [exact Rlo|].
      split; [exact Tlo|]. split; [lia|exact Tr].
  - injection E as <- <-. exists lo, top. split; [reflexivity|].
    split; [exact Rlo|]. split; [exact Tlo|]. split; [lia|exact Ttop].
Qed.

Lemma top_carry_safe (t : dtype) (fuel : nat) :
  forall top hi,
    top_carry b fuel t top = Ok hi -> 0 <= top -> in_dtype t top ->
    in_range b hi /\ hi <> [] /\ Forall (in_dtype t) hi.
Proof.
  induction fuel as [|f IH]; intros top hi E Hp Ht; cbn [top_carry] in E.
  - destruct (Z.geb_spec top b); [discriminate|]. injection E as <-.
    split; [constructor; [lia|constructor]|].
    split; [discriminate|constructor; [exact Ht|constructor]].
  - destruct (Z.geb_spec top b) as [Hge|Hlt].
    + destruct (np_floordiv t top b) as [q| |] eqn:Eq; cbn [bind] in E; try discriminate.
      destruct (np_mod t top b) as [r| |] eqn:Er; cbn [bind] in E; try discriminate.
      destruct (top_carry b f t q) as [hi'| |] eqn:Eh; cbn [bind] in E; try discriminate.
      injection E as <-.
      destruct (np_floordiv_top _ _ _ Eq Ht Hge) as [Hq Tq].
      destruct (np_mod_digit _ _ _ Er) as [Rr Tr].
      destruct (IH _ _ Eh Hq Tq) as (R & _ & T).
      split; [constructor; trivial|].
      split; [discriminate|constructor; trivial].
    + injection E as <-.
      split; [constructor; [lia|constructor]|].
      split; [discriminate|constructor; [exact Ht|constructor]].
Qed.

(** Whatever it is given, the normalizer returns digits in range, if it
    returns. *)
Lemma propogate_carryovers_safe (a : ndarray) (base : Z) (negative : bool)
  (r : ndarray) (neg' : bool) :
  propogate_carryovers b st a base negative = Ok (r, neg') ->
  in_dtype (dt a) (hd 0 (elts a)) ->
  in_range b (elts r) /\ elts r <> [] /\ well_typed r.
Proof.
  unfold propogate_carryovers. intros E Hd.
  destruct (elts a) as [|d0 rest].
  - injection E as <- <-. change (elts (np_zeros 1 st)) with [0].
    split; [constructor; [lia|constructor]|].
    split; [discriminate|apply well_typed_zeros].
  - cbn [hd] in Hd.
    destruct (carry_scan b (dt a) base d0 rest) as [l| |] eqn:Es;
      cbn [bind] in E; try discriminate.
    destruct (carry_scan_safe _ _ _ _ _ Es Hd) as (lo & top & -> & Rlo & Tlo & Ttop).
    destruct (fix_negative_top b (dt a) (lo ++ [top]) negative) as [[l' n']| |] eqn:Ef;
      cbn [bind] in E; try discriminate.
    destruct (fix_negative_top_safe _ _ _ _ _ _ Ef Rlo Tlo Ttop)
      as (lo' & top' & -> & Rlo' & Tlo' & Hp & Ttop').
    unfold last_elt in E. rewrite last_last, removelast_last in E.
    destruct (top_carry b 64 (dt a) top') as [hi| |] eqn:Eh;
      cbn [bind] in E; try discriminate.
    injection E as <- <-.
    destruct (top_carry_safe _ _ _ _ Eh Hp Ttop') as (Rh & Nh & Th).
    unfold well_typed. cbn [elts dt].
    split; [apply Forall_app; now split|].
    split; [|apply Forall_app; now split].
    intros C. apply app_eq_nil in C. destruct C as [_ C]. contradiction.
Qed.

Lemma hd_typed (a : ndarray) : well_typed a -> in_dtype (dt a) (hd 0 (elts a)).
Proof.
  unfold well_typed. destruct (elts a); cbn [hd]; [intros; apply in_dtype_zero|].
  intros H. exact (Forall_inv H).
Qed.

Lemma int_loop_typed (fuel : nat) :
  forall number x r,
    int_loop fuel b number x = Ok r ->
    elts number <> [] -> in_dtype (dt number) (hd 0 (elts number)) ->
    in_dtype (dt r) (hd 0 (elts r)).
Proof.
  induction fuel as [|f IH]; intros number x r E Hne Hd; cbn [int_loop] in E.
  - destruct (x >=? b); [discriminate|]. now injection E as <-.
  - destruct (x >=? b); [|now injection E as <-].
    destruct (fits (dt number) (x mod b)) eqn:F; [|discriminate].
    apply fits_iff in F.
    apply (IH _ _ _ E).
    + unfold np_append_int, np_append. cbn [elts]. intros C.
      apply app_eq_nil in C. destruct C as [_ C]. discriminate.
    + unfold np_append_int, np_append. cbn [elts dt].
      apply (fun H => proj1 (in_dtype_promote (dt number) int64 _ H)).
      destruct (elts number) as [|d [|d' tl]]; [contradiction| |]; cbn; trivial.
Qed.

(** What the constructor accepts: an array holds elements of its type. *)
Let arg_ok (x : pyarg) : Prop :=
  match x with
  | PyArray a => well_typed a
  | _ => True
  end.

Lemma np_array_typed (l : list Z) (t : dtype) (a : ndarray) :
  np_array l t = Ok a -> well_typed a /\ elts a = l.
Proof.
  unfold np_array. destruct (forallb (fits t) l) eqn:F; [|discriminate].
  intros E. injection E as <-. unfold well_typed. cbn [dt elts]. split; trivial.
  apply Forall_forall. intros x Hx. apply fits_iff.
  rewrite forallb_forall in F. now apply F.
Qed.

(** The digit array that the constructor hands to the normalizer. *)
Lemma first_digit_typed (x : pyarg) (negative : bool) (number : ndarray) (neg' : bool) :
  arg_ok x ->
  match x with
  | PyArray a => Ok (if len a <? 1 then np_zeros 1 st else a, negative)
  | PyInt n =>
      let '(n, negative) := if n <? 0 then (- n, true) else (n, negative) in
      let* number := int_digits b st n in Ok (number, negative)
  | PyStr s => str_digits s b negative st
  end = Ok (number, neg') ->
  in_dtype (dt number) (hd 0 (elts number)).
Proof.
  intros Hx E. destruct x as [a|n|s]; cbn [arg_ok] in Hx.
  - injection E as <- <-. destruct (len a <? 1).
    + apply hd_typed, well_typed_zeros.
    + now apply hd_typed.
  - destruct (if n <? 0 then (- n, true) else (n, negative)) as [m sg].
    unfold int_digits in E. destruct (b =? 0); cbn [bind] in E; [discriminate|].
    destruct (np_array [m mod b] st) as [a0| |] eqn:Ea; cbn [bind] in E; try discriminate.
    destruct (int_loop _ b a0 m) as [r| |] eqn:El; cbn [bind] in E; try discriminate.
    injection E as <- <-.
    destruct (np_array_typed _ _ _ Ea) as [Ta Da].
    apply (int_loop_typed _ _ _ _ El).
    + rewrite Da. discriminate.
    + now apply hd_typed.
  - unfold str_digits in E. destruct s as [|c0 r]; [discriminate|].
    destruct (if is_minus c0 then (remove_minus (String c0 r), true)
              else (String c0 r, negative)) as [body sg].
    destruct (String.length body <? 1)%nat.
    + injection E as <- <-. apply hd_typed, well_typed_zeros.
    + destruct (b <=? 10).
      * destruct (map_int (reversed body)) as [ds| |]; cbn [bind] in E; try discriminate.
        destruct (np_array ds st) as [a0| |] eqn:Ea; cbn [bind] in E; try discriminate.
        injection E as <- <-. apply hd_typed. exact (proj1 (np_array_typed _ _ _ Ea)).
      * destruct (np_array _ st) as [a0| |] eqn:Ea; cbn [bind] in E; try discriminate.
        injection E as <- <-. apply hd_typed. exact (proj1 (np_array_typed _ _ _ Ea)).
Qed.

Lemma Forall_strip_top (P : Z -> Prop) (l : list Z) :
  Forall P l -> Forall P (strip_top l).
Proof.
  intros H. destruct l as [|x r]; [constructor|]. cbn [strip_top].
  constructor; [exact (Forall_inv H)|]. apply Forall_trim_back. exact (Forall_inv_tail H).
Qed.

(** Every value that the constructor returns has a digit, every digit in
    range and no most significant zero unless it is the single digit zero. *)
Lemma __init___safe (x : pyarg) (negative : bool) (v : BaseBigInteger) :
  arg_ok x -> __init__ x b negative st = Ok v ->
  canonical v /\ _base v = b /\ _store v = st /\ well_typed (_number v).
Proof.
  intros Hx E. unfold __init__ in E.
  match type of E with
  | bind ?c _ = _ => destruct c as [[number neg]| |] eqn:E0
  end; cbn [bind] in E; try discriminate.
  pose proof (first_digit_typed x negative number neg Hx E0) as Hd.
  destruct (0 <? len number); [|discriminate].
  destruct (propogate_carryovers b st number b neg) as [[r n]| |] eqn:Ep;
    cbn [bind] in E; try discriminate.
  injection E as <-.
  destruct (propogate_carryovers_safe _ _ _ _ _ Ep Hd) as (Rr & Nr & Tr).
  cbn [_base _store _number].
  split; [|split; [reflexivity|split; [reflexivity|]]].
  - split; [|split].
    + unfold inv_nonempty. cbn. now apply strip_top_shape.
    + unfold inv_digits. cbn. now apply strip_top_in_range.
    + unfold inv_no_leading_zero. cbn. now apply strip_top_shape.
  - unfold well_typed. cbn [dt elts]. now apply Forall_strip_top.
Qed.

Lemma _add_numbers_typed (n1 n2 : ndarray) (s1 s2 : bool) (r : ndarray) (neg : bool) :
  well_typed n1 -> well_typed n2 ->
  _add_numbers b st n1 s1 n2 s2 = Ok (r, neg) -> well_typed r.
Proof.
  intros T1 T2 E. unfold _add_numbers in E.
  assert (Tb : well_typed (fst (get_bigger_smaller n1 n2)))
    by (unfold get_bigger_smaller; destruct (swapped n1 n2); assumption).
  destruct (get_bigger_smaller n1 n2) as [bg sm]. cbn [fst] in Tb.
  match type of E with
  | bind ?c _ = _ => destruct c as [[res n]| |] eqn:Ep
  end; cbn [bind] in E; try discriminate.
  injection E as <- <-.
  apply well_typed_trim.
  apply (propogate_carryovers_safe _ _ _ _ _ Ep). cbn [dt elts].
  apply hd_typed in Tb.
  destruct (elts bg) as [|d bt], (elts sm) as [|d' st']; cbn [overlap_op hd] in *;
    trivial.
  unfold digit_op. apply wrap_range.
Qed.

Lemma _multiply_numbers_typed (fuel : nat) :
  forall x y r neg,
    well_typed x -> well_typed y ->
    _multiply_numbers b st fuel x y = Ok (r, neg) -> well_typed r.
Proof.
  induction fuel as [|f IH]; intros x y r neg Tx Ty E; cbn [_multiply_numbers] in E;
    [discriminate|].
  assert (Hp : exists x' y',
             (if len x <? len y then (y, x) else (x, y)) = (x', y')
             /\ well_typed x' /\ well_typed y').
  { destruct (len x <? len y); eexists; eexists; (split; [reflexivity|]); now split. }
  destruct Hp as (x' & y' & Ep & Tx' & Ty'). rewrite Ep in E. cbv iota beta in E.
  destruct (len x' =? 1).
  { apply (propogate_carryovers_safe _ _ _ _ _ E), hd_typed, well_typed_scale. }
  destruct (len y' =? 1).
  { apply (propogate_carryovers_safe _ _ _ _ _ E), hd_typed, well_typed_scale. }
  destruct ((len x' =? 0) || (len y' =? 0)).
  { injection E as <- <-. apply well_typed_zeros. }
  cbv zeta in E.
  set (m := Z.shiftr (len x') 1) in *.
  assert (Ta : well_typed (slice_from x' m)) by now apply well_typed_slice_from.
  assert (Tc : well_typed (slice_from y' m)) by now apply well_typed_slice_from.
  assert (Tlo1 : well_typed (np_trim_zeros (slice_to x' m)))
    by now apply well_typed_trim, well_typed_slice_to.
  assert (Tlo2 : well_typed (np_trim_zeros (slice_to y' m)))
    by now apply well_typed_trim, well_typed_slice_to.
  destruct (_multiply_numbers b st f (slice_from x' m) (slice_from y' m))
    as [[z2 z2n]| |] eqn:E2; cbn [bind] in E; try discriminate.
  destruct (_multiply_numbers b st f (np_trim_zeros (slice_to x' m))
              (np_trim_zeros (slice_to y' m)))
    as [[z0 z0n]| |] eqn:E0; cbn [bind] in E; try discriminate.
  destruct (_add_numbers b st (slice_from x' m) false
              (np_trim_zeros (slice_to x' m)) false)
    as [[ab abn]| |] eqn:Eab; cbn [bind] in E; try discriminate.
  destruct (_add_numbers b st (slice_from y' m) false
              (np_trim_zeros (slice_to y' m)) false)
    as [[cd cdn]| |] eqn:Ecd; cbn [bind fst] in E; try discriminate.
  destruct (_multiply_numbers b st f ab cd)
    as [[z1 z1n]| |] eqn:E1; cbn [bind] in E; try discriminate.
  destruct (_add_numbers b st z2 z1n z0 z0n)
    as [[z20 z20n]| |] eqn:E20; cbn [bind] in E; try discriminate.
  destruct (_add_numbers b st z1 z1n z20 (negb z20n))
    as [[zm zmn]| |] eqn:Em; cbn [bind] in E; try discriminate.
  destruct (_add_numbers b st (np_append (np_zeros (Z.shiftl m 1) st) z2) z2n z0 z0n)
    as [[ze zen]| |] eqn:Ee; cbn [bind] in E; try discriminate.
  pose proof (IH _ _ _ _ Ta Tc E2) as T2.
  pose proof (IH _ _ _ _ Tlo1 Tlo2 E0) as T0.
  pose proof (_add_numbers_typed _ _ _ _ _ _ Ta Tlo1 Eab) as Tab.
  pose proof (_add_numbers_typed _ _ _ _ _ _ Tc Tlo2 Ecd) as Tcd.
  pose proof (IH _ _ _ _ Tab Tcd E1) as T1.
  pose proof (_add_numbers_typed _ _ _ _ _ _ T2 T0 E20) as T20.
  pose proof (_add_numbers_typed _ _ _ _ _ _ T1 T20 Em) as Tm.
  pose proof (_add_numbers_typed _ _ _ _ _ _
                (well_typed_append _ _ (well_typed_zeros _ _) T2) T0 Ee) as Te.
  apply (_add_numbers_typed _ _ _ _ _ _ Te
           (well_typed_append _ _ (well_typed_zeros _ _) Tm) E).
Qed.
End Safety.

(** *** The results of the operators *)

Lemma __add___safe (b : Z) (v w r : BaseBigInteger) :
  2 <= b -> _base v = b -> well_typed (_number v) -> well_typed (_number w) ->
  __add__ v w = Ok r -> canonical r.
Proof.
  intros Hb Bv Tv Tw E. unfold __add__ in E. rewrite Bv in E.
  destruct (_add_numbers b (_store v) (_number v) (_negative v)
              (_number w) (_negative w)) as [[res neg]| |] eqn:Ea;
    cbn [bind] in E; try discriminate.
  pose proof (_add_numbers_typed b _ Hb _ _ _ _ _ _ Tv Tw Ea) as Tr.
  exact (proj1 (__init___safe b _ Hb (PyArray res) neg r Tr E)).
Qed.

Lemma __sub___safe (b : Z) (v w r : BaseBigInteger) :
  2 <= b -> _base v = b -> well_typed (_number v) -> well_typed (_number w) ->
  __sub__ v w = Ok r -> canonical r.
Proof.
  intros Hb Bv Tv Tw E. unfold __sub__ in E. rewrite Bv in E.
  destruct (_add_numbers b (_store v) (_number v) (_negative v)
              (_number w) (negb (_negative w))) as [[res neg]| |] eqn:Ea;
    cbn [bind] in E; try discriminate.
  pose proof (_add_numbers_typed b _ Hb _ _ _ _ _ _ Tv Tw Ea) as Tr.
  exact (proj1 (__init___safe b _ Hb (PyArray res) neg r Tr E)).
Qed.

Lemma __mul___safe (b : Z) (fuel : nat) (v w r : BaseBigInteger) :
  2 <= b -> _base v = b -> well_typed (_number v) -> well_typed (_number w) ->
  __mul__ fuel v w = Ok r -> canonical r.
Proof.
  intros Hb Bv Tv Tw E. unfold __mul__ in E. rewrite Bv in E.
  destruct (_multiply_numbers b (_store v) fuel (_number v) (_number w))
    as [[res neg]| |] eqn:Em; cbn [bind] in E; try discriminate.
  pose proof (_multiply_numbers_typed b _ Hb _ _ _ _ _ Tv Tw Em) as Tr.
  exact (proj1 (__init___safe b _ Hb (PyArray res) _ r Tr E)).
Qed.

Lemma canon_trimmed_or_zero (b : Z) (l : list Z) :
  canon l -> digits_value b l <> 0 -> trimmed l /\ l <> [].
Proof. intros [->|H] Hv; [cbn in Hv; lia|exact H]. Qed.

Lemma shift_safe (b : Z) (v r : BaseBigInteger) (k : Z) :
  2 <= b -> _base v = b -> well_typed (_number v) ->
  shift v k = Ok r ->
  inv_nonempty r /\ inv_digits r
  /\ (k <= 0 \/ value_of r <> 0 -> inv_no_leading_zero r).
Proof.
  intros Hb Bv Tv E. unfold shift in E. rewrite Bv in E.
  destruct (__init__ (PyArray (_number v)) b (_negative v) default_store)
    as [res| |] eqn:Er; cbn [bind] in E; try discriminate.
  destruct (__init___safe b _ Hb (PyArray (_number v)) _ res Tv Er)
    as (Cr & Br & _ & _).
  pose proof Cr as (Nr & Rr & Lr). unfold inv_nonempty, inv_digits in Nr, Rr.
  rewrite Br in Rr.
  destruct (Z.eqb_spec k 0) as [->|K0].
  { injection E as <-. split; [exact Nr|]. split; [now rewrite <- Br in Rr|].
    intros _. exact Lr. }
  rewrite Z.gtb_ltb in E. destruct (Z.ltb_spec 0 k) as [Kp|Kn].
  { injection E as <-.
    unfold inv_nonempty, inv_digits, inv_no_leading_zero, value_of.
    cbn [_number _base _negative elts np_append np_zeros]. rewrite Br.
    split; [|split].
    - intros C. apply app_eq_nil in C. destruct C as [_ C]. contradiction.
    - apply in_range_app. split; [apply in_range_repeat0; lia|exact Rr].
    - intros [?|Hv]; [lia|]. right. unfold trimmed.
      rewrite last_app_nonempty by exact Nr.
      rewrite digits_value_app, digits_value_repeat0 in Hv.
      apply (canon_trimmed_or_zero b _ (canonical_canon _ Cr)).
      intros C. rewrite C in Hv. unfold signed in Hv.
      destruct (_negative res); lia. }
  rewrite Z.gtb_ltb in E.
  destruct (Z.ltb_spec 0 (len (_number res) + k)) as [D|D].
  - injection E as <-.
    unfold inv_nonempty, inv_digits, inv_no_leading_zero.
    cbn [_number _base elts slice_from]. rewrite Br.
    split; [|split].
    + intros C. apply (f_equal (@length Z)) in C. rewrite length_skipn in C.
      unfold len in D. cbn [length] in C. lia.
    + now apply in_range_skipn.
    + intros _. right. apply trimmed_skipn.
      destruct Lr as [E0|T]; [|exact T].
      unfold len in D. rewrite E0 in D. cbn [length] in D. lia.
  - rewrite (__init___zero b Hb) in E. injection E as <-.
    unfold inv_nonempty, inv_digits, inv_no_leading_zero. cbn.
    split; [discriminate|]. split; [constructor; [lia|constructor]|]. intros _. now left.
Qed.

Lemma inv_zero_sign_of_value (v : BaseBigInteger) (s : bool) :
  (value_of v = 0 -> _negative v = s) -> s = false -> inv_zero_sign v.
Proof.
  intros H -> E. apply H. unfold value_of, signed. rewrite E. cbn [digits_value].
  destruct (_negative v); lia.
Qed.

Lemma shift_zero_sign (b : Z) (v r : BaseBigInteger) (k : Z) :
  2 <= b -> canonical v -> _base v = b ->
  (length (elts (_number v)) <= 1)%nat \/ in_dtype (dt (_number v)) b ->
  shift v k = Ok r -> k <> 0 \/ inv_zero_sign v -> inv_zero_sign r.
Proof.
  intros Hb Cv Bv Hfit E Hk.
  destruct (shift_spec b Hb v k Cv Bv Hfit) as (r' & E' & _ & _ & Dr & Nr & _).
  rewrite E in E'. injection E' as <-.
  unfold inv_zero_sign. rewrite Dr, Nr.
  pose proof (canonical_canon v Cv) as Cn.
  destruct (Z.eqb_spec k 0) as [->|K0].
  { cbn [Z.ltb Z.compare andb]. destruct Hk as [?|Hz]; [lia|exact Hz]. }
  rewrite Z.gtb_ltb. destruct (Z.ltb_spec 0 k) as [Kp|Kn].
  { intros C. apply (f_equal (@length Z)) in C.
    rewrite length_app, repeat_length in C. cbn [length] in C.
    destruct (elts (_number v)); [destruct Cn as [?|[_ ?]]; congruence|].
    cbn [length] in C. lia. }
  rewrite Z.gtb_ltb.
  destruct (Z.ltb_spec 0 (len (_number v) + k)) as [D|D].
  - intros C. exfalso.
    assert (T : trimmed (elts (_number v))).
    { destruct Cn as [E0|[T _]]; [|exact T].
      unfold len in D. rewrite E0 in D. cbn [length] in D. lia. }
    pose proof (trimmed_skipn (Z.to_nat (- k)) _ T) as T'.
    rewrite C in T'. unfold trimmed in T'. cbn in T'. lia.
  - intros _. assert ((k <? 0) = true) as -> by (apply Z.ltb_lt; lia). reflexivity.
Qed.

(** C2, as stated, fails.  The sign of zero: adding "-9" and "9" yields
    the single digit zero with the sign set, rendered "-0"; so do
    subtracting -9 from itself, multiplying -3 by 0 and decoding "-0".  And
    shifting zero to the left yields most significant zero digits. *)
Lemma canonical_form_violations :
  (exists x y r,
      __init__ (PyStr "-9") 10 false default_store = Ok x
      /\ __init__ (PyStr "9") 10 false default_store = Ok y
      /\ __add__ x y = Ok r
      /\ __str__ r = Ok "-0"%string
      /\ ~ inv_zero_sign r)
  /\ (exists r,
         shift zero_10 2 = Ok r
         /\ elts (_number r) = [0; 0; 0]
         /\ ~ inv_no_leading_zero r)
  /\ (exists x r,
         __init__ (PyInt (- 9)) 10 false default_store = Ok x
         /\ __sub__ x x = Ok r /\ ~ inv_zero_sign r)
  /\ (exists x y r,
         __init__ (PyInt (- 3)) 10 false default_store = Ok x
         /\ __init__ (PyInt 0) 10 false default_store = Ok y
         /\ __mul__ 50 x y = Ok r /\ ~ inv_zero_sign r)
  /\ (exists r,
         __init__ (PyStr "-0") 10 false default_store = Ok r /\ ~ inv_zero_sign r).
Proof.
  split; [|split; [|split; [|split]]].
  - eexists. eexists. eexists.
    split; [vm_compute; reflexivity|].
    split; [vm_compute; reflexivity|].
    split; [vm_compute; reflexivity|].
    split; [vm_compute; reflexivity|].
    unfold inv_zero_sign. cbn. intros H. specialize (H eq_refl). discriminate.
  - eexists. split; [vm_compute; reflexivity|]. split; [reflexivity|].
    unfold inv_no_leading_zero, trimmed. cbn. intros [H|H]; [discriminate|lia].
  - eexists. eexists.
    split; [vm_compute; reflexivity|].
    split; [vm_compute; reflexivity|].
    unfold inv_zero_sign. cbn. intros H. specialize (H eq_refl). discriminate.
  - eexists. eexists. eexists.
    split; [vm_compute; reflexivity|].
    split; [vm_compute; reflexivity|].
    split; [vm_compute; reflexivity|].
    unfold inv_zero_sign. cbn. intros H. specialize (H eq_refl). discriminate.
  - eexists. split; [vm_compute; reflexivity|].
    unfold inv_zero_sign. cbn. intros H. specialize (H eq_refl). discriminate.
Qed.

(** C2, amended.  In a base [b >= 2], for operands whose arrays hold
    elements of their type: every value that construction, add, subtract
    and multiply return has a digit, every digit in [[0, b)] and no most
    significant zero except for the single digit zero; what shift returns
    has a digit and every digit in range, and no most significant zero
    unless a zero is shifted to the left.  When moreover [2 * b <= 2 ^ 15]
    and the operands are canonical, these values are returned, and the
    zero carries an unset sign: always when constructed from a native-range
    integer, for a sum and a difference when the left operand is not
    negative, for a product when the signs of the operands agree (the
    product being computed in an element type that holds the square of a
    digit), and for a shift of a value whose own zero is unsigned. *)
Theorem canonical_form (b n k : Z) (x : pyarg) (neg : bool) (st : dtype)
  (v w : BaseBigInteger) (fuel : nat) :
  2 <= b -> _base v = b -> _base w = b ->
  well_typed (_number v) -> well_typed (_number w) ->
  match x with PyArray a => well_typed a | _ => True end ->
  ((forall c, __init__ x b neg st = Ok c -> canonical c)
   /\ (forall r, __add__ v w = Ok r -> canonical r)
   /\ (forall r, __sub__ v w = Ok r -> canonical r)
   /\ (forall r, __mul__ fuel v w = Ok r -> canonical r)
   /\ (forall r, shift v k = Ok r ->
         inv_nonempty r /\ inv_digits r
         /\ (k <= 0 \/ value_of r <> 0 -> inv_no_leading_zero r)))
  /\ (2 * b <= 2 ^ 15 -> canonical v -> canonical w ->
      (- 2 ^ 63 < n < 2 ^ 63 ->
       exists c, __init__ (PyInt n) b false st = Ok c
                 /\ canonical c /\ inv_zero_sign c)
      /\ (exists r, __add__ v w = Ok r /\ canonical r
                    /\ (_negative v = false -> inv_zero_sign r))
      /\ (exists r, __sub__ v w = Ok r /\ canonical r
                    /\ (_negative v = false -> inv_zero_sign r))
      /\ (in_dtype (promote (dt (_number v)) (dt (_number w))) (b * b - 1) ->
          (Z.to_nat (Z.abs (value_of v) + Z.abs (value_of w)) < fuel)%nat ->
          exists r, __mul__ fuel v w = Ok r /\ canonical r
                    /\ (_negative v = _negative w -> inv_zero_sign r))
      /\ (exists r, shift v k = Ok r
                    /\ (k <> 0 \/ inv_zero_sign v -> inv_zero_sign r))).
Proof.
  intros Hb Bv Bw Tv Tw Tx. split.
  - split; [|split; [|split; [|split]]].
    + intros c E. exact (proj1 (__init___safe b st Hb x neg c Tx E)).
    + intros r E. exact (__add___safe b v w r Hb Bv Tv Tw E).
    + intros r E. exact (__sub___safe b v w r Hb Bv Tv Tw E).
    + intros r E. exact (__mul___safe b fuel v w r Hb Bv Tv Tw E).
    + intros r E. exact (shift_safe b v r k Hb Bv Tv E).
  - intros Hadd Cv Cw. split; [|split; [|split; [|split]]].
    + intros Hn.
      destruct (__init___int b Hb ltac:(lia) n false st Hn)
        as (c & E & Bc & _ & Nc & Cc & Vc & _).
      exists c. split; [exact E|]. split; [exact Cc|].
      intros Z0. rewrite Nc. rewrite Z0 in Vc. cbn in Vc.
      destruct (Z.ltb_spec n 0); [lia|reflexivity].
    + destruct (__add___spec b Hb Hadd v w Cv Cw Bv Bw) as (r & E & _ & C & _ & _ & Z0).
      exists r. split; [exact E|]. split; [exact C|].
      intros Nv. now apply (inv_zero_sign_of_value r (_negative v)).
    + destruct (__sub___spec b Hb Hadd v w Cv Cw Bv Bw) as (r & E & _ & C & _ & _ & Z0).
      exists r. split; [exact E|]. split; [exact C|].
      intros Nv. now apply (inv_zero_sign_of_value r (_negative v)).
    + intros Hroom Hf.
      destruct (__mul___room b Hb Hadd fuel v w Cv Cw Bv Bw Hroom Hf)
        as (r & E & _ & C & _ & _ & N & _).
      exists r. split; [exact E|]. split; [exact C|].
      intros Hs _. rewrite N, Hs. now destruct (_negative w).
    + assert (Hfit : (length (elts (_number v)) <= 1)%nat
                     \/ in_dtype (dt (_number v)) b)
        by (right; apply in_dtype_small; lia).
      destruct (shift_spec b Hb v k Cv Bv Hfit) as (r & E & _).
      exists r. split; [exact E|].
      exact (shift_zero_sign b v r k Hb Cv Bv Hfit E).
Qed.

Lemma well_typed_wide : well_typed (_number wide_12) /\ well_typed (_number wide_34).
Proof.
  split; (constructor; [|constructor; [|constructor]]); apply in_dtype_small; lia.
Qed.

Lemma canonical_form_witness :
  (exists c, __init__ (PyInt (- 77)) 10 false default_store = Ok c
             /\ canonical c /\ inv_zero_sign c)
  /\ (exists r, __add__ wide_12 wide_34 = Ok r /\ canonical r /\ inv_zero_sign r)
  /\ (exists r, __sub__ wide_12 wide_34 = Ok r /\ canonical r /\ inv_zero_sign r)
  /\ (exists r, __mul__ 50 wide_12 wide_34 = Ok r /\ canonical r /\ inv_zero_sign r)
  /\ (exists r, shift wide_12 3 = Ok r /\ inv_nonempty r /\ inv_digits r
                /\ inv_no_leading_zero r /\ inv_zero_sign r).
Proof.
  destruct (canonical_form 10 (- 77) 3 (PyInt (- 77)) false default_store
              wide_12 wide_34 50
              ltac:(lia) eq_refl eq_refl (proj1 well_typed_wide) (proj2 well_typed_wide) I)
    as ((_ & _ & _ & _ & Hs) & Ht).
  destruct (Ht ltac:(lia) (proj1 canonical_wide) (proj2 canonical_wide))
    as (H1 & (a & Ea & Ca & Za) & (d & Ed & Cd & Zd) & H4 & (r & Er & Zr)).
  split; [exact (H1 ltac:(lia))|].
  split; [exists a; auto|]. split; [exists d; auto|].
  split.
  - destruct (H4 ltac:(apply in_dtype_small; lia) ltac:(cbn; lia)) as (p & Ep & Cp & Zp).
    exists p. auto.
  - assert (Ec : exists c, shift wide_12 3 = Ok c /\ value_of c <> 0)
      by (eexists; split; [vm_compute; reflexivity|vm_compute; discriminate]).
    destruct Ec as (c & Ec & Vc). rewrite Ec in Er. injection Er as <-.
    exists c. destruct (Hs c Ec) as (I1 & I2 & I3).
    split; [exact Ec|]. split; [exact I1|]. split; [exact I2|].
    split; [apply I3; right; exact Vc|].
    apply Zr. left. lia.
Defined.

(** ** Rendering *)

Lemma digit_cases (P : Z -> Prop) (n : nat) :
  (forall k, (k < n)%nat -> P (Z.of_nat k)) ->
  forall d, 0 <= d < Z.of_nat n -> P d.
Proof.
  intros H d Hd. rewrite <- (Z2Nat.id d) by lia. apply H. lia.
Qed.

Lemma digit_char_decimal (d : Z) :
  0 <= d < 10 ->
  int_of_char (digit_char d) = Ok d
  /\ str_int d = String (digit_char d) EmptyString.
Proof.
  revert d. apply (digit_cases _ 10). intros k Hk.
  do 10 (destruct k as [|k]; [split; vm_compute; reflexivity|]). lia.
Qed.


Lemma digit_char_alnum (d : Z) :
  0 <= d < 36 ->
  is_minus (digit_char d) = false
  /\ upper_codes (digit_char d) = [ord (digit_char d)]
  /\ alnum_digit (ord (digit_char d)) = d
  /\ alnum_char d = Ok (String (digit_char d) EmptyString).
Proof.
  revert d. apply (digit_cases _ 36). intros k Hk.
  do 36 (destruct k as [|k]; [repeat split; vm_compute; reflexivity|]). lia.
Qed.

Lemma list_ascii_app (a c : string) :
  list_ascii_of_string (a ++ c)
  = list_ascii_of_string a ++ list_ascii_of_string c.
Proof. induction a as [|x a IH]; cbn; [reflexivity|now rewrite IH]. Qed.

Lemma list_ascii_fold (r : list string) :
  forall s,
  list_ascii_of_string (fold_left (fun acc t => acc ++ "" ++ t)%string r s)
  = list_ascii_of_string s ++ concat (map list_ascii_of_string r).
Proof.
  induction r as [|t r IH]; intros s; cbn [fold_left map concat].
  - now rewrite app_nil_r.
  - rewrite IH. cbn [append]. now rewrite list_ascii_app, <- app_assoc.
Qed.

Lemma list_ascii_join (l : list string) :
  list_ascii_of_string (join "" l) = concat (map list_ascii_of_string l).
Proof.
  destruct l as [|s r]; [reflexivity|]. unfold join.
  now rewrite list_ascii_fold.
Qed.

Lemma concat_singletons (l : list Z) :
  concat (map list_ascii_of_string
            (map (fun d => String (digit_char d) EmptyString) l))
  = map digit_char l.
Proof. induction l as [|d l IH]; cbn; [reflexivity|now rewrite IH]. Qed.

Lemma map_alnum_digits (l : list Z) :
  in_range 36 l ->
  map_alnum l = Ok (map (fun d => String (digit_char d) EmptyString) l).
Proof.
  induction 1 as [|d l Hd Hl IH]; [reflexivity|].
  cbn [map_alnum map]. rewrite (proj2 (proj2 (proj2 (digit_char_alnum d Hd)))).
  cbn [bind]. now rewrite IH.
Qed.

Lemma map_int_digits (l : list Z) :
  in_range 10 l -> map_int (map digit_char l) = Ok l.
Proof.
  induction 1 as [|d l Hd Hl IH]; [reflexivity|].
  cbn [map_int map]. rewrite (proj1 (digit_char_decimal d Hd)).
  cbn [bind]. now rewrite IH.
Qed.


Lemma alnum_digits_rendered (l : list Z) :
  in_range 36 l ->
  alnum_digits (string_of_list_ascii (map digit_char (rev l))) = l.
Proof.
  intros H. unfold alnum_digits, reversed_upper.
  rewrite list_ascii_of_string_of_list_ascii.
  assert (E : forall l', in_range 36 l' ->
              flat_map upper_codes (map digit_char l')
              = map (fun d => ord (digit_char d)) l').
  { induction 1 as [|d l' Hd Hl IH]; [reflexivity|].
    cbn [map flat_map]. rewrite (proj1 (proj2 (digit_char_alnum d Hd))), IH.
    reflexivity. }
  rewrite E by now apply Forall_rev.
  rewrite <- map_rev, rev_involutive, map_map.
  clear E. induction H as [|d l Hd Hl IH]; [reflexivity|].
  cbn [map]. rewrite IH. f_equal. apply digit_char_alnum. exact Hd.
Qed.

Lemma remove_minus_digits (l : list Z) :
  in_range 36 l ->
  remove_minus (string_of_list_ascii (map digit_char l))
  = string_of_list_ascii (map digit_char l).
Proof.
  induction 1 as [|d l Hd Hl IH]; [reflexivity|].
  cbn [map string_of_list_ascii remove_minus].
  rewrite (proj1 (digit_char_alnum d Hd)). now rewrite IH.
Qed.

Lemma in_range_weaken (b c : Z) (l : list Z) :
  b <= c -> in_range b l -> in_range c l.
Proof.
  intros H Hl. eapply Forall_impl; [|exact Hl]. cbv beta. intros; lia.
Qed.

(** The rendering of a value with digits in range, in a base up to 36: the
    sign, then the characters of the digits from the most significant one. *)
Lemma __str___digits (v : BaseBigInteger) :
  2 <= _base v <= 36 -> inv_digits v ->
  __str__ v
  = Ok (sign_prefix (_negative v)
        ++ string_of_list_ascii (map digit_char (rev (elts (_number v)))))%string.
Proof.
  intros Hb Hr. unfold __str__, inv_digits in *.
  set (l := elts (_number v)) in *.
  assert (Hrev : in_range (_base v) (rev l)) by now apply Forall_rev.
  destruct (Z.leb_spec (_base v) 10) as [H10|H10].
  - f_equal. f_equal.
    rewrite <- (string_of_list_ascii_of_string (join "" (map str_int (rev l)))).
    f_equal. rewrite list_ascii_join.
    rewrite (map_ext_in str_int (fun d => String (digit_char d) EmptyString)).
    + apply concat_singletons.
    + intros d Hd. unfold in_range in Hrev. rewrite Forall_forall in Hrev.
      apply digit_char_decimal. specialize (Hrev d Hd). lia.
  - assert ((_base v <=? 36) = true) as -> by (apply Z.leb_le; lia).
    rewrite map_alnum_digits by (apply (in_range_weaken (_base v)); [lia|exact Hrev]).
    cbn [bind]. f_equal. f_equal.
    rewrite <- (string_of_list_ascii_of_string (join "" _)).
    f_equal. rewrite list_ascii_join. apply concat_singletons.
Qed.

Lemma __init___str_as_array (s : string) (b : Z) (neg neg' : bool) (st : dtype)
  (a : ndarray) :
  str_digits s b neg st = Ok (a, neg') -> elts a <> [] ->
  __init__ (PyStr s) b neg st = __init__ (PyArray a) b neg' st.
Proof.
  intros E Hne. unfold __init__. rewrite E. cbn [bind].
  assert ((len a <? 1) = false) as ->.
  { apply Z.ltb_ge. unfold len. destruct (elts a); [contradiction|cbn [length]; lia]. }
  reflexivity.
Qed.


Lemma rendered_body (l : list Z) :
  in_range 36 l -> l <> [] ->
  exists c0 rest,
    string_of_list_ascii (map digit_char (rev l)) = String c0 rest
    /\ is_minus c0 = false.
Proof.
  intros R36 Hne. assert (R36r : in_range 36 (rev l)) by now apply Forall_rev.
  destruct (rev l) as [|t r] eqn:E.
  - apply (f_equal (@rev Z)) in E. rewrite rev_involutive in E. contradiction.
  - cbn [map string_of_list_ascii]. eexists. eexists. split; [reflexivity|].
    apply digit_char_alnum. exact (Forall_inv R36r).
Qed.

(** The sign and the digit characters that the decoder finds in a
    rendering. *)
Lemma sign_stripped_rendered (l : list Z) (neg : bool) :
  in_range 36 l -> l <> [] ->
  let body := string_of_list_ascii (map digit_char (rev l)) in
  sign_stripped (sign_prefix neg ++ body) = body
  /\ starts_with_minus (sign_prefix neg ++ body) = neg.
Proof.
  intros R36 Hne body.
  destruct (rendered_body l R36 Hne) as (c0 & rest & Eb & Hc0).
  assert (Hrm : remove_minus body = body)
    by (apply remove_minus_digits; now apply Forall_rev).
  fold body in Eb. clearbody body. subst body.
  destruct neg; cbn [sign_prefix append sign_stripped starts_with_minus].
  - change (is_minus "-") with true. cbv iota. split; [|reflexivity].
    cbn [remove_minus]. change (is_minus "-") with true. cbv iota.
    exact Hrm.
  - rewrite Hc0. split; reflexivity.
Qed.

(** The digit array and the sign that the string branch of the constructor
    extracts from the rendering of digits below 36. *)
Lemma str_digits_rendered (b : Z) (l : list Z) (neg : bool) (st : dtype) :
  2 <= b <= 36 -> in_range b l -> l <> [] ->
  str_digits (sign_prefix neg ++ string_of_list_ascii (map digit_char (rev l)))
    b false st
  = Ok (mk_nd st l, neg).
Proof.
  intros Hb Hr Hne.
  assert (R36 : in_range 36 l) by (apply (in_range_weaken b); [lia|exact Hr]).
  pose proof (sign_stripped_rendered l neg R36 Hne) as S. cbv zeta in S.
  destruct S as [S1 S2].
  destruct (rendered_body l R36 Hne) as (c0 & rest & Eb & _).
  assert (Hs : Forall (fun d => - 2 ^ 15 <= d < 2 ^ 15) l).
  { eapply Forall_impl; [|exact Hr]. cbv beta. intros; lia. }
  rewrite str_digits_body by (rewrite S1, Eb; discriminate).
  rewrite S1, S2, Bool.orb_false_r.
  destruct (Z.leb_spec b 10).
  - unfold reversed. rewrite list_ascii_of_string_of_list_ascii.
    rewrite <- map_rev, rev_involutive.
    rewrite map_int_digits by (apply (in_range_weaken b); [lia|exact Hr]).
    cbn [bind]. now rewrite np_array_small.
  - rewrite alnum_digits_rendered by exact R36.
    now rewrite np_array_small.
Qed.

(** ** Reading a rendering back *)

Lemma char_digit_char (d : Z) : 0 <= d < 36 -> char_digit (digit_char d) = Some d.
Proof.
  revert d. apply (digit_cases _ 36). intros k Hk.
  do 36 (destruct k as [|k]; [vm_compute; reflexivity|]). lia.
Qed.

Lemma read_digits_app (r : Z) (l1 l2 : list ascii) :
  forall acc,
    read_digits r acc (l1 ++ l2)
    = match read_digits r acc l1 with
      | Some a => read_digits r a l2
      | None => None
      end.
Proof.
  induction l1 as [|c l1 IH]; intros acc; [reflexivity|].
  cbn [app read_digits]. destruct (char_digit c) as [d|]; [|reflexivity].
  destruct (d <? r); [apply IH|reflexivity].
Qed.

Lemma read_digits_shift (r : Z) (l : list ascii) :
  forall acc,
    read_digits r acc l
    = option_map (fun n => acc * r ^ Z.of_nat (length l) + n) (read_digits r 0 l).
Proof.
  induction l as [|c l IH]; intros acc.
  - cbn. f_equal. lia.
  - cbn [read_digits length]. destruct (char_digit c) as [d|]; [|reflexivity].
    destruct (d <? r); [|reflexivity].
    rewrite (IH (r * acc + d)), (IH (r * 0 + d)).
    destruct (read_digits r 0 l) as [n|]; [|reflexivity]. cbn [option_map].
    f_equal. rewrite Nat2Z.inj_succ, Z.pow_succ_r by lia. ring.
Qed.

(** Digit characters of a base up to 36 read as the number they spell. *)
Lemma read_digits_chars (b : Z) (l : list Z) :
  2 <= b <= 36 -> in_range b l ->
  forall acc,
    read_digits b acc (map digit_char l)
    = Some (acc * b ^ Z.of_nat (length l) + digits_value b (rev l)).
Proof.
  intros Hb. induction 1 as [|d l Hd Hl IH]; intros acc.
  - cbn. f_equal. lia.
  - cbn [map read_digits length rev].
    rewrite char_digit_char by lia.
    assert ((d <? b) = true) as -> by (apply Z.ltb_lt; lia).
    rewrite IH, digits_value_app, length_rev. f_equal.
    rewrite Nat2Z.inj_succ, Z.pow_succ_r by lia. cbn [digits_value]. ring.
Qed.

Lemma read_integer_signed (r : Z) (neg : bool) (c : ascii) (l : list ascii) (s : string)
  (n : Z) :
  list_ascii_of_string s = c :: l -> is_minus c = false ->
  read_digits r 0 (c :: l) = Some n ->
  read_integer r (sign_prefix neg ++ s) = Some (signed neg n).
Proof.
  intros Es Hc Hn. unfold read_integer. rewrite list_ascii_app, Es.
  destruct neg; cbn [sign_prefix list_ascii_of_string app signed].
  - change (is_minus "-") with true. cbv iota. now rewrite Hn.
  - rewrite Hc. exact Hn.
Qed.

Lemma read_rendered (b : Z) (l : list Z) (neg : bool) :
  2 <= b <= 36 -> in_range b l -> l <> [] ->
  read_integer b (sign_prefix neg ++ string_of_list_ascii (map digit_char (rev l)))
  = Some (signed neg (digits_value b l)).
Proof.
  intros Hb Hr Hne.
  assert (R36 : in_range 36 l) by (apply (in_range_weaken b); [lia|exact Hr]).
  destruct (rendered_body l R36 Hne) as (c0 & rest & Eb & Hc0).
  pose proof (read_digits_chars b (rev l) Hb ltac:(now apply Forall_rev) 0) as R.
  rewrite rev_involutive in R. cbn [Z.mul] in R. rewrite Z.add_0_l in R.
  assert (El : list_ascii_of_string (string_of_list_ascii (map digit_char (rev l)))
               = c0 :: list_ascii_of_string rest).
  { rewrite Eb. reflexivity. }
  apply (read_integer_signed b neg c0 (list_ascii_of_string rest)); trivial.
  rewrite <- El, list_ascii_of_string_of_list_ascii. exact R.
Qed.

(** The decimal groups of the base 1000: every digit reads as itself, as
    the top group and zero-padded to three places. *)
Lemma groups_read :
  forallb
    (fun k =>
       let d := Z.of_nat k in
       let top := list_ascii_of_string (str_int d) in
       let low := list_ascii_of_string (zfill (str_int d) 3) in
       match read_digits 10 0 top, read_digits 10 0 low, top with
       | Some n, Some m, c :: _ =>
           (n =? d) && (m =? d) && (length low =? 3)%nat && negb (is_minus c)
       | _, _, _ => false
       end)
    (seq 0 1000) = true.
Proof. vm_compute. reflexivity. Qed.

Lemma group_reads (d : Z) :
  0 <= d < 1000 ->
  read_digits 10 0 (list_ascii_of_string (str_int d)) = Some d
  /\ read_digits 10 0 (list_ascii_of_string (zfill (str_int d) 3)) = Some d
  /\ length (list_ascii_of_string (zfill (str_int d) 3)) = 3%nat
  /\ exists c r, list_ascii_of_string (str_int d) = c :: r /\ is_minus c = false.
Proof.
  intros Hd. pose proof groups_read as G. rewrite forallb_forall in G.
  specialize (G (Z.to_nat d) ltac:(apply in_seq; lia)). cbv zeta in G.
  rewrite Z2Nat.id in G by lia.
  destruct (read_digits 10 0 (list_ascii_of_string (str_int d))) as [n|];
    [|discriminate].
  destruct (read_digits 10 0 (list_ascii_of_string (zfill (str_int d) 3))) as [m|];
    [|discriminate].
  destruct (list_ascii_of_string (str_int d)) as [|c r]; [discriminate|].
  apply andb_prop in G. destruct G as [G G4].
  apply andb_prop in G. destruct G as [G G3].
  apply andb_prop in G. destruct G as [G1 G2].
  apply Z.eqb_eq in G1, G2. apply Nat.eqb_eq in G3.
  apply Bool.negb_true_iff in G4. subst.
  repeat split; trivial. now exists c, r.
Qed.

Lemma read_groups (l : list Z) :
  in_range 1000 l ->
  forall acc,
    read_digits 10 acc
      (concat (map list_ascii_of_string (map (fun x => zfill (str_int x) 3) l)))
    = Some (acc * 1000 ^ Z.of_nat (length l) + digits_value 1000 (rev l)).
Proof.
  induction 1 as [|d l Hd Hl IH]; intros acc.
  - cbn. f_equal. lia.
  - cbn [map concat length rev].
    destruct (group_reads d Hd) as (_ & R & L & _).
    rewrite read_digits_app, read_digits_shift, R, L. cbn [option_map].
    rewrite IH, digits_value_app, length_rev. f_equal.
    change (10 ^ Z.of_nat 3) with 1000.
    rewrite Nat2Z.inj_succ, Z.pow_succ_r by lia. cbn [digits_value]. ring.
Qed.

(** The rendering in the grouped base 1000. *)
Lemma __str___grouped (v : BaseBigInteger) (top : Z) (lower : list Z) :
  _base v = 1000 -> rev (elts (_number v)) = top :: lower ->
  __str__ v
  = Ok (sign_prefix (_negative v) ++ str_int top
        ++ join "" (map (fun x => zfill (str_int x) 3) lower))%string.
Proof.
  intros Bv E. unfold __str__. rewrite Bv, E. reflexivity.
Qed.

(** A canonical value in a base up to 36, or in base 1000, renders to a
    string that reads back as the integer it denotes. *)
Lemma rendering_reads (v : BaseBigInteger) :
  canonical v -> 2 <= _base v <= 36 \/ _base v = 1000 ->
  exists s,
    __str__ v = Ok s
    /\ read_integer (rendering_radix (_base v)) s = Some (value_of v).
Proof.
  intros Cv Hb. pose proof Cv as (Hne & Hr & _).
  unfold inv_nonempty, inv_digits in Hne, Hr. unfold value_of.
  destruct Hb as [Hb|Hb].
  - eexists. split; [apply (__str___digits v Hb Hr)|].
    unfold rendering_radix. assert ((_base v <=? 36) = true) as -> by (apply Z.leb_le; lia).
    now apply read_rendered.
  - rewrite Hb in *. change (rendering_radix 1000) with 10.
    destruct (rev (elts (_number v))) as [|top lower] eqn:E.
    { apply (f_equal (@rev Z)) in E. rewrite rev_involutive in E. contradiction. }
    eexists. split; [apply (__str___grouped v top lower Hb E)|].
    assert (Rr : in_range 1000 (top :: lower)) by (rewrite <- E; now apply Forall_rev).
    pose proof (Forall_inv Rr) as Ht. pose proof (Forall_inv_tail Rr) as Hl.
    cbv beta in Ht.
    destruct (group_reads top Ht) as (Rt & _ & _ & c & r & Ec & Hc).
    assert (El : elts (_number v) = rev lower ++ [top]).
    { rewrite <- (rev_involutive (elts (_number v))), E. reflexivity. }
    rewrite El, digits_value_app, length_rev. cbn [digits_value].
    apply (read_integer_signed 10 (_negative v) c
             (r ++ concat (map list_ascii_of_string
                             (map (fun x => zfill (str_int x) 3) lower)))); trivial.
    + rewrite list_ascii_app, Ec, list_ascii_join. reflexivity.
    + change (c :: r ++ ?l) with ((c :: r) ++ l).
      rewrite <- Ec, read_digits_app, Rt, read_groups by exact Hl.
      f_equal. ring.
Qed.

(** ** Arithmetic correctness *)

(** C1, as stated, fails: in base 1000 with the default 16-bit digit store
    the product of 999 by itself overflows a digit, and the result renders
    as 14961 instead of 998001. *)
Lemma arithmetic_correctness_base_1000_fails :
  exists vx p,
    __init__ (PyInt 999) 1000 false default_store = Ok vx
    /\ __mul__ 50 vx vx = Ok p
    /\ __str__ p = Ok "14961"%string
    /\ read_integer (rendering_radix 1000) "14961" = Some 14961
    /\ 14961 <> 999 * 999.
Proof.
  eexists. eexists.
  split; [vm_compute; reflexivity|].
  split; [vm_compute; reflexivity|].
  split; [vm_compute; reflexivity|].
  split; [vm_compute; reflexivity|].
  vm_compute. discriminate.
Qed.

(** C1, amended: for native-range integers [x] and [y] and a base [b] from
    2 to 36 or equal to 1000 (which covers 2, 8, 10, 16, 36 and 1000), the
    sum and the difference of the values constructed with the default digit
    store render to strings that read, in the base (in decimal for base
    1000), as [x + y] and [x - y]; so does the product for [x * y], given
    recursion fuel beyond [|x| + |y|], when the square of the base is at
    most [2 ^ 15] (as for 2, 8, 10, 16 and 36), or an operand has two
    digits or more (its digits are then 64-bit), or the product of the two
    single digits is below [2 ^ 15]. *)
Theorem arithmetic_correctness (x y b : Z) (fuel : nat) :
  2 <= b <= 36 \/ b = 1000 ->
  - 2 ^ 63 < x < 2 ^ 63 -> - 2 ^ 63 < y < 2 ^ 63 ->
  exists vx vy,
    __init__ (PyInt x) b false default_store = Ok vx
    /\ __init__ (PyInt y) b false default_store = Ok vy
    /\ (exists s str,
          __add__ vx vy = Ok s /\ __str__ s = Ok str
          /\ read_integer (rendering_radix b) str = Some (x + y))
    /\ (exists d str,
          __sub__ vx vy = Ok d /\ __str__ d = Ok str
          /\ read_integer (rendering_radix b) str = Some (x - y))
    /\ (b * b <= 2 ^ 15 \/ b <= Z.abs x \/ b <= Z.abs y \/ Z.abs (x * y) < 2 ^ 15 ->
        (Z.to_nat (Z.abs x + Z.abs y) < fuel)%nat ->
        exists p str,
          __mul__ fuel vx vy = Ok p /\ __str__ p = Ok str
          /\ read_integer (rendering_radix b) str = Some (x * y)).
Proof.
  intros Hbase Hx Hy.
  assert (Hb : 2 <= b) by lia.
  assert (Hadd : 2 * b <= 2 ^ 15) by lia.
  destruct (__init___int b Hb ltac:(lia) x false default_store Hx)
    as (vx & Ex & Bx & _ & Nx & Cx & Vx & Dx & Ix).
  destruct (__init___int b Hb ltac:(lia) y false default_store Hy)
    as (vy & Ey & By & _ & Ny & Cy & Vy & Dy & Iy).
  pose proof (value_of_constructed b x vx Bx Nx Vx) as Wx.
  pose proof (value_of_constructed b y vy By Ny Vy) as Wy.
  assert (Reads : forall r, canonical r -> _base r = b ->
            exists str, __str__ r = Ok str
                        /\ read_integer (rendering_radix b) str = Some (value_of r)).
  { intros r Cr Br. rewrite <- Br. apply rendering_reads; trivial. now rewrite Br. }
  exists vx, vy. split; [exact Ex|]. split; [exact Ey|].
  split; [|split].
  - destruct (__add___spec b Hb Hadd vx vy Cx Cy Bx By) as (s & E & V & C & B & _).
    destruct (Reads s C B) as (str & Es & Rs).
    exists s, str. split; [exact E|]. split; [exact Es|]. now rewrite Rs, V, Wx, Wy.
  - destruct (__sub___spec b Hb Hadd vx vy Cx Cy Bx By) as (d & E & V & C & B & _).
    destruct (Reads d C B) as (str & Es & Rs).
    exists d, str. split; [exact E|]. split; [exact Es|]. now rewrite Rs, V, Wx, Wy.
  - intros Hmul Hf.
    assert (P : exists p, __mul__ fuel vx vy = Ok p
                          /\ value_of p = value_of vx * value_of vy
                          /\ canonical p /\ _base p = b).
    { assert (Hf' : (Z.to_nat (Z.abs (value_of vx) + Z.abs (value_of vy)) < fuel)%nat)
        by now rewrite Wx, Wy.
      assert (Wide : forall t u, t = int64 \/ u = int64 ->
                in_dtype (promote t u) (b * b - 1)).
      { intros t u [->| ->]; [|destruct t]; unfold in_dtype; cbn [promote bits]; nia. }
      destruct (Z.le_gt_cases (b * b) (2 ^ 15)) as [Hsq|Hsq].
      { destruct (__mul___room b Hb Hadd fuel vx vy Cx Cy Bx By
                    ltac:(apply in_dtype_small; lia) Hf')
          as (p & E & V & C & B & _).
        exists p. auto. }
      destruct (Z.le_gt_cases b (Z.abs x)) as [Lx|Lx].
      { destruct (__mul___room b Hb Hadd fuel vx vy Cx Cy Bx By) as (p & E & V & C & B & _);
          trivial.
        - apply Wide. left. rewrite Dx.
          destruct (Z.ltb_spec (Z.abs x) b); [lia|reflexivity].
        - exists p. auto. }
      destruct (Z.le_gt_cases b (Z.abs y)) as [Ly|Ly].
      { destruct (__mul___room b Hb Hadd fuel vx vy Cx Cy Bx By) as (p & E & V & C & B & _);
          trivial.
        - apply Wide. right. rewrite Dy.
          destruct (Z.ltb_spec (Z.abs y) b); [lia|reflexivity].
        - exists p. auto. }
      assert (Hxy : Z.abs (x * y) < 2 ^ 15) by (destruct Hmul as [?|[?|[?|?]]]; lia).
      destruct fuel as [|f]; [lia|].
      destruct (__mul___digits b Hb Hadd f vx vy (Z.abs x) (Z.abs y) Bx By
                  (Ix Lx) (Iy Ly) ltac:(lia) ltac:(lia)
                  ltac:(rewrite <- Z.abs_mul; exact Hxy))
        as (p & E & V & C & B & _).
      exists p. auto. }
    destruct P as (p & E & V & C & B).
    destruct (Reads p C B) as (str & Es & Rs).
    exists p, str. split; [exact E|]. split; [exact Es|]. now rewrite Rs, V, Wx, Wy.
Qed.

Lemma arithmetic_correctness_witness :
  exists vx vy s d p ss sd sp,
    __init__ (PyInt 1234) 1000 false default_store = Ok vx
    /\ __init__ (PyInt (- 45)) 1000 false default_store = Ok vy
    /\ __add__ vx vy = Ok s /\ __str__ s = Ok ss
    /\ read_integer (rendering_radix 1000) ss = Some (1234 + - 45)
    /\ __sub__ vx vy = Ok d /\ __str__ d = Ok sd
    /\ read_integer (rendering_radix 1000) sd = Some (1234 - - 45)
    /\ __mul__ 1300 vx vy = Ok p /\ __str__ p = Ok sp
    /\ read_integer (rendering_radix 1000) sp = Some (1234 * - 45).
Proof.
  destruct (arithmetic_correctness 1234 (- 45) 1000 1300
              ltac:(right; reflexivity) ltac:(lia) ltac:(lia))
    as (vx & vy & Ex & Ey & (s & ss & Es & Ss & Rs) & (d & sd & Ed & Sd & Rd) & Hm).
  destruct (Hm ltac:(right; left; lia) ltac:(lia)) as (p & sp & Ep & Sp & Rp).
  exists vx, vy, s, d, p, ss, sd, sp. repeat split; assumption.
Defined.

(** ** What the constructor returns has digits *)

Lemma top_carry_nonempty (b : Z) (fuel : nat) (t : dtype) (top : Z) (hi : list Z) :
  top_carry b fuel t top = Ok hi -> hi <> [].
Proof.
  destruct fuel as [|f]; cbn [top_carry]; destruct (top >=? b); try discriminate.
  - intros E. injection E as <-. discriminate.
  - destruct (np_floordiv t top b) as [q| |]; cbn [bind]; try discriminate.
    destruct (np_mod t top b) as [r| |]; cbn [bind]; try discriminate.
    destruct (top_carry b f t q) as [hi'| |]; cbn [bind]; try discriminate.
    intros E. injection E as <-. discriminate.
  - intros E. injection E as <-. discriminate.
Qed.

Lemma propogate_carryovers_nonempty (b : Z) (st : dtype) (a r : ndarray)
  (base : Z) (neg neg' : bool) :
  propogate_carryovers b st a base neg = Ok (r, neg') -> elts r <> [].
Proof.
  unfold propogate_carryovers.
  destruct (elts a) as [|d0 rest].
  - intros E. injection E as <- _. discriminate.
  - destruct (carry_scan b (dt a) base d0 rest) as [l0| |]; cbn [bind];
      try discriminate.
    destruct (fix_negative_top b (dt a) l0 neg) as [[l n]| |]; cbn [bind];
      try discriminate.
    destruct (top_carry b 64 (dt a) (last_elt l)) as [hi| |] eqn:Eh; cbn [bind];
      try discriminate.
    intros E. injection E as <- _. cbn [elts].
    pose proof (top_carry_nonempty b _ _ _ _ Eh) as Hne.
    intros C. apply app_eq_nil in C. destruct C as [_ C]. contradiction.
Qed.

Lemma __init___digits (x : pyarg) (b : Z) (negative : bool)
  (st : dtype) (v : BaseBigInteger) :
  __init__ x b negative st = Ok v ->
  elts (_number v) <> [] /\ _base v = b /\ _store v = st.
Proof.
  intros E. split; [|now apply (__init___fields x b negative st)].
  revert E. unfold __init__.
  destruct (match x with
            | PyArray a => _
            | PyInt n => _
            | PyStr s => _
            end) as [[number neg]| |]; cbn [bind]; try discriminate.
  destruct (0 <? len number); cbn [bind]; try discriminate.
  destruct (propogate_carryovers b st number b neg) as [[r n]| |] eqn:P;
    cbn [bind]; try discriminate.
  intros E. injection E as <-. cbn [_number elts].
  apply propogate_carryovers_nonempty in P.
  destruct (elts r); [contradiction|discriminate].
Qed.

(** ** The string round trip *)




(** ** Canonical digits are unique *)

Lemma trimmed_zero_nil (b : Z) (l : list Z) :
  2 <= b -> in_range b l -> trimmed l -> digits_value b l = 0 -> l = [].
Proof.
  intros Hb Hr Ht Hv. destruct l as [|d l']; trivial.
  pose proof (trimmed_value_pos b Hb (d :: l') Hr Ht ltac:(discriminate)). lia.
Qed.

Lemma same_length_unique (b : Z) (l1 : list Z) :
  2 <= b ->
  forall l2, length l1 = length l2 -> in_range b l1 -> in_range b l2 ->
  digits_value b l1 = digits_value b l2 -> l1 = l2.
Proof.
  intros Hb. induction l1 as [|d1 r1 IH]; intros [|d2 r2] Hl R1 R2 Hv;
    try discriminate; trivial.
  inversion R1 as [|? ? H1 R1']; inversion R2 as [|? ? H2 R2']; subst.
  cbn [digits_value] in Hv. injection Hl as Hl.
  assert (Hr : digits_value b r1 = digits_value b r2).
  { destruct (Z.lt_trichotomy (digits_value b r1) (digits_value b r2)) as [L|[L|L]];
      trivial; nia. }
  assert (d1 = d2) as -> by (rewrite Hr in Hv; lia).
  f_equal. now apply IH.
Qed.

Lemma canon_unique (b : Z) (l1 l2 : list Z) :
  2 <= b -> in_range b l1 -> in_range b l2 -> canon l1 -> canon l2 ->
  digits_value b l1 = digits_value b l2 -> l1 = l2.
Proof.
  intros Hb R1 R2 C1 C2 Hv.
  apply (same_length_unique b l1 Hb); trivial.
  destruct (Nat.lt_trichotomy (length l1) (length l2)) as [H|[H|H]]; trivial.
  - pose proof (longer_trimmed_value b Hb l1 l2 R1 R2
                  (canon_longer_trimmed _ _ C2 C1 H) H). lia.
  - pose proof (longer_trimmed_value b Hb l2 l1 R2 R1
                  (canon_longer_trimmed _ _ C1 C2 H) H). lia.
Qed.

(** ** Karatsuba and the schoolbook reference *)

Section Schoolbook.
Variable b : Z.
Hypothesis Hb : 2 <= b.





End Schoolbook.



(** * Further properties of the code *)

(** ** Rendering and decoding *)

(** Rendering a canonical value in a base up to 36 and decoding the string
    in the same base gives back its digits, sign and base. *)
Theorem str_decode_round_trip (v : BaseBigInteger) (st : dtype) :
  canonical v -> 2 <= _base v <= 36 ->
  exists s v',
    __str__ v = Ok s
    /\ __init__ (PyStr s) (_base v) false st = Ok v'
    /\ same_value v' v /\ _store v' = st.
Proof.
  intros Cv Hb.
  pose proof Cv as (Hne & Hr & _).
  unfold inv_nonempty, inv_digits in Hne, Hr.
  pose proof (str_digits_rendered (_base v) (elts (_number v)) (_negative v) st
                Hb Hr Hne) as E.
  destruct (__init___array (_base v) ltac:(lia) (mk_nd st (elts (_number v)))
              (_negative v) st Hr ltac:(right; apply in_dtype_small; lia))
    as (w & Ew & Bw & Nw & Sw & _ & _ & Dw & _).
  cbn [elts] in Dw. specialize (Dw (canonical_canon v Cv)).
  exists (sign_prefix (_negative v)
          ++ string_of_list_ascii (map digit_char (rev (elts (_number v)))))%string, w.
  split; [exact (__str___digits v Hb Hr)|].
  split; [rewrite (__init___str_as_array _ _ _ _ _ _ E Hne); exact Ew|].
  split; [|exact Sw]. unfold same_value. auto.
Qed.

Lemma str_decode_round_trip_witness :
  exists s v',
    __str__ minus_15 = Ok s
    /\ __init__ (PyStr s) 10 false int32 = Ok v'
    /\ same_value v' minus_15 /\ _store v' = int32.
Proof.
  apply (str_decode_round_trip minus_15 int32 canonical_minus_15). cbn. lia.
Defined.


(** ** What the constructor always delivers *)

(** Whatever it is given, a value that the constructor returns has at least
    one digit, and the base and the store it was asked for. *)
Theorem constructed_value_has_digits (x : pyarg) (b : Z) (negative : bool)
  (st : dtype) (v : BaseBigInteger) :
  __init__ x b negative st = Ok v ->
  elts (_number v) <> [] /\ _base v = b /\ _store v = st.
Proof. apply __init___digits. Qed.

Lemma constructed_value_has_digits_witness :
  elts (_number (mkBBI 2 false int16 (mk_nd int16 [1; 0; 0; 1]))) <> []
  /\ _base (mkBBI 2 false int16 (mk_nd int16 [1; 0; 0; 1])) = 2
  /\ _store (mkBBI 2 false int16 (mk_nd int16 [1; 0; 0; 1])) = int16.
Proof.
  apply (constructed_value_has_digits (PyStr "9") 2 false int16).
  vm_compute. reflexivity.
Defined.

(** In a base above 36 that is not one of the grouped powers of ten, the
    rendering of any constructed value fails with a [TypeError]: the digits
    are joined with '|' without being turned into strings. *)
Theorem str_pipe_rendering_raises (x : pyarg) (b : Z) (negative : bool)
  (st : dtype) (v : BaseBigInteger) :
  __init__ x b negative st = Ok v ->
  36 < b -> ~ In b grouped_bases ->
  __str__ v = Raises TypeError.
Proof.
  intros E Hb Hg.
  destruct (__init___digits x b negative st v E) as (Hne & Bv & _).
  unfold __str__. rewrite Bv.
  assert ((b <=? 10) = false) as -> by (apply Z.leb_gt; lia).
  assert ((b <=? 36) = false) as -> by (apply Z.leb_gt; lia).
  assert (existsb (Z.eqb b) grouped_bases = false) as ->.
  { destruct (existsb (Z.eqb b) grouped_bases) eqn:X; trivial.
    apply existsb_exists in X. destruct X as (g & Hin & Heq).
    apply Z.eqb_eq in Heq. subst g. contradiction. }
  destruct (rev (elts (_number v))) as [|t r] eqn:R; [|reflexivity].
  apply (f_equal (@rev Z)) in R. rewrite rev_involutive in R. contradiction.
Qed.

Lemma str_pipe_rendering_raises_witness :
  exists v, __init__ (PyInt 1234) 37 false default_store = Ok v
            /\ __str__ v = Raises TypeError.
Proof.
  eexists. split; [vm_compute; reflexivity|].
  apply (str_pipe_rendering_raises (PyInt 1234) 37 false default_store).
  - vm_compute. reflexivity.
  - lia.
  - cbn. intros H. repeat (destruct H as [H|H]; [lia|]). exact H.
Defined.


(** ** The normalizer *)

(** For a base of at least 2 that the element type of the array holds,
    the normalizer returns, with at least one digit, on every array whose
    digits its element type holds: no division raises, and the loop that
    carries out of the most significant digit terminates. *)
Theorem normalizer_returns (b : Z) (st : dtype) (a : ndarray) (base : Z)
  (negative : bool) :
  2 <= b -> in_dtype (dt a) b -> in_dtype (dt a) base ->
  Forall (in_dtype (dt a)) (elts a) ->
  exists r neg,
    propogate_carryovers b st a base negative = Ok (r, neg) /\ elts r <> [].
Proof.
  intros Hb Hfit Hfit' Ha.
  now apply (propogate_carryovers_total b st (dt a) base Hb Hfit Hfit').
Qed.

Lemma normalizer_returns_witness :
  exists r neg,
    propogate_carryovers 2 int16 (mk_nd int16 [32767; -32768; 5]) 2 false
    = Ok (r, neg) /\ elts r <> [].
Proof.
  apply normalizer_returns; [lia|apply in_dtype_small; lia..|].
  repeat constructor; unfold in_dtype; cbn; lia.
Defined.

(** When the element type of an array of two digits or more does not hold
    the base, the normalizer raises an [OverflowError]. *)
Theorem normalizer_overflow (b : Z) (st : dtype) (a : ndarray) (negative : bool) :
  (2 <= length (elts a))%nat -> ~ in_dtype (dt a) b ->
  propogate_carryovers b st a b negative = Raises OverflowError.
Proof.
  intros Hl Hf. apply propogate_carryovers_overflow; trivial.
  destruct (fits (dt a) b) eqn:F; trivial. apply fits_iff in F. contradiction.
Qed.

Lemma normalizer_overflow_witness :
  propogate_carryovers 32768 int16 (mk_nd int16 [0; 5]) 32768 false
  = Raises OverflowError.
Proof.
  apply normalizer_overflow; [cbn; lia|].
  unfold in_dtype. cbn. lia.
Defined.

(** When the digits, each between [- b] and [b * b - b], denote a number
    that is not negative, and [b * b <= 2 ^ 15], the normalizer returns
    digits in [[0, b)] that denote the same number and leaves the sign flag
    alone. *)
Theorem normalizer_preserves_value (b : Z) (st : dtype) (a : ndarray)
  (negative : bool) :
  capacity b -> elts a <> [] ->
  Forall (fun d => - b <= d <= b * b - b) (elts a) ->
  0 <= digits_value b (elts a) ->
  exists l,
    propogate_carryovers b st a b negative = Ok (mk_nd (dt a) l, negative)
    /\ in_range b l /\ l <> []
    /\ digits_value b l = digits_value b (elts a).
Proof.
  intros [Hb Hc] Hne Hd Hv.
  apply (propogate_carryovers_spec b (b * b - b) (b * b - 1) b st (dt a) Hb); trivial.
  - lia.
  - nia.
  - pose proof (Z.div_lt_upper_bound (b * b - 1) b b ltac:(lia) ltac:(lia)). lia.
  - apply in_dtype_small. nia.
  - apply in_dtype_small. nia.
  - apply in_dtype_small. nia.
Qed.

Lemma normalizer_preserves_value_witness :
  exists l,
    propogate_carryovers 10 int16 (mk_nd int16 [81; -7; 90; 3]) 10 true
    = Ok (mk_nd int16 l, true)
    /\ in_range 10 l /\ l <> []
    /\ digits_value 10 l = digits_value 10 [81; -7; 90; 3].
Proof.
  apply (normalizer_preserves_value 10 int16 (mk_nd int16 [81; -7; 90; 3]) true).
  - unfold capacity. lia.
  - discriminate.
  - repeat constructor; lia.
  - cbn. lia.
Defined.

(** Digits that are already in [[0, b)] pass through the normalizer
    unchanged, with their sign, when there is one digit only or the
    element type of the array holds the base. *)
Theorem normalizer_identity (b : Z) (st : dtype) (a : ndarray) (negative : bool) :
  2 <= b -> in_range b (elts a) -> elts a <> [] ->
  length (elts a) = 1%nat \/ in_dtype (dt a) b ->
  propogate_carryovers b st a b negative = Ok (mk_nd (dt a) (elts a), negative).
Proof. intros Hb. now apply propogate_carryovers_id. Qed.

Lemma normalizer_identity_witness :
  propogate_carryovers 16 int16 (mk_nd int32 [15; 0; 12]) 16 true
  = Ok (mk_nd int32 [15; 0; 12], true).
Proof.
  apply (normalizer_identity 16 int16 (mk_nd int32 [15; 0; 12]) true).
  - lia.
  - repeat constructor; lia.
  - discriminate.
  - right. apply in_dtype_small. lia.
Defined.

(** ** The comparator and magnitudes *)

(** For digit sequences in range and without most significant zeros, the
    sequence the comparator returns as the bigger is at least as long as the
    other and denotes a number at least as large. *)
Theorem get_bigger_smaller_magnitude (b : Z) (x y : ndarray) :
  2 <= b -> in_range b (elts x) -> in_range b (elts y) ->
  trimmed (elts x) -> trimmed (elts y) ->
  digits_value b (elts (snd (get_bigger_smaller x y)))
  <= digits_value b (elts (fst (get_bigger_smaller x y)))
  /\ (length (elts (snd (get_bigger_smaller x y)))
      <= length (elts (fst (get_bigger_smaller x y))))%nat.
Proof.
  intros Hb Rx Ry Tx Ty. unfold get_bigger_smaller.
  pose proof (swapped_length x y) as L.
  destruct (swapped x y) eqn:S; cbn [fst snd]; split; trivial.
  - apply Z.lt_le_incl. now apply (swapped_true_lt b Hb x y Rx Ry (fun _ => Ty)).
  - now apply (swapped_false_le b Hb x y Rx Ry (fun _ => Tx)).
Qed.

Lemma get_bigger_smaller_magnitude_witness :
  digits_value 10 (elts (snd (get_bigger_smaller digits_99 digits_100)))
  <= digits_value 10 (elts (fst (get_bigger_smaller digits_99 digits_100)))
  /\ (length (elts (snd (get_bigger_smaller digits_99 digits_100)))
      <= length (elts (fst (get_bigger_smaller digits_99 digits_100))))%nat.
Proof.
  apply (get_bigger_smaller_magnitude 10); try lia;
    try (repeat constructor; lia); unfold trimmed; cbn; lia.
Defined.

(** ** The adder and the multiplier on magnitudes *)

Lemma swapped_self (n : ndarray) : swapped n n = false.
Proof.
  unfold swapped. rewrite Z.ltb_irrefl, Z.eqb_refl. apply scan_swap_refl.
Qed.

Lemma _add_numbers_canon (b : Z) (st : dtype) (n1 n2 : ndarray) (s1 s2 : bool) :
  2 <= b -> 2 * b <= 2 ^ 15 ->
  in_range b (elts n1) -> in_range b (elts n2) ->
  canon (elts n1) -> canon (elts n2) ->
  exists r,
    _add_numbers b st n1 s1 n2 s2 = Ok (r, if swapped n1 n2 then s2 else s1)
    /\ in_range b (elts r) /\ trimmed (elts r)
    /\ signed (if swapped n1 n2 then s2 else s1) (digits_value b (elts r))
       = signed s1 (digits_value b (elts n1)) + signed s2 (digits_value b (elts n2)).
Proof.
  intros Hb Hadd R1 R2 C1 C2.
  pose proof (_add_numbers_core b st Hb Hadd n1 n2 s1 s2 R1 R2) as C.
  cbv zeta in C. unfold get_bigger_smaller in C.
  assert (N1 : elts n1 <> []) by (destruct C1 as [->|[_ ?]]; [discriminate|assumption]).
  assert (N2 : elts n2 <> []) by (destruct C2 as [->|[_ ?]]; [discriminate|assumption]).
  destruct (swapped n1 n2) eqn:S; cbn [fst snd] in C.
  - pose proof (swapped_true_lt b Hb n1 n2 R1 R2
                  (fun H => canon_longer_trimmed _ _ C2 C1 H) S) as Hlt.
    destruct (C ltac:(intros; lia)) as (r & E & Rr & Tr & Vr & _).
    exists r. rewrite E. destruct (elts n2) as [|d2 r2] eqn:E2; [contradiction|].
    repeat split; trivial.
    rewrite Vr. unfold signed. destruct s1, s2; cbn [eqb]; lia.
  - pose proof (swapped_false_le b Hb n1 n2 R1 R2
                  (fun H => canon_longer_trimmed _ _ C1 C2 H) S) as Hle.
    destruct (C ltac:(intros; lia)) as (r & E & Rr & Tr & Vr & _).
    exists r. rewrite E. destruct (elts n1) as [|d1 r1] eqn:E1; [contradiction|].
    repeat split; trivial.
    rewrite Vr. unfold signed. destruct s1, s2; cbn [eqb]; lia.
Qed.

(** On two canonical magnitudes with their signs, in a base [b] with
    [2 * b <= 2 ^ 15], [_add_numbers] returns digits in range without most
    significant zeros, which with the returned sign denote the signed sum;
    the sign is that of the operand the comparator selected as bigger, and
    a zero sum is returned as the empty array. *)
Theorem _add_numbers_contract (b : Z) (st : dtype) (n1 n2 : ndarray)
  (s1 s2 : bool) :
  2 <= b -> 2 * b <= 2 ^ 15 ->
  in_range b (elts n1) -> in_range b (elts n2) ->
  canon (elts n1) -> canon (elts n2) ->
  exists r,
    _add_numbers b st n1 s1 n2 s2 = Ok (r, if swapped n1 n2 then s2 else s1)
    /\ in_range b (elts r) /\ trimmed (elts r)
    /\ signed (if swapped n1 n2 then s2 else s1) (digits_value b (elts r))
       = signed s1 (digits_value b (elts n1)) + signed s2 (digits_value b (elts n2))
    /\ (signed s1 (digits_value b (elts n1)) + signed s2 (digits_value b (elts n2)) = 0
        -> elts r = []).
Proof.
  intros Hb Hadd R1 R2 C1 C2.
  destruct (_add_numbers_canon b st n1 n2 s1 s2 Hb Hadd R1 R2 C1 C2)
    as (r & E & Rr & Tr & Vr).
  exists r. repeat split; trivial.
  intros Hz. apply (trimmed_zero_nil b); trivial.
  rewrite Hz in Vr. unfold signed in Vr.
  destruct (if swapped n1 n2 then s2 else s1); lia.
Qed.

Lemma _add_numbers_contract_witness :
  exists r,
    _add_numbers 10 int16 digits_99 true digits_100 false = Ok (r, false)
    /\ in_range 10 (elts r) /\ trimmed (elts r)
    /\ signed false (digits_value 10 (elts r)) = - 99 + 100.
Proof.
  destruct (_add_numbers_contract 10 int16 digits_99 digits_100 true false)
    as (r & E & Rr & Tr & Vr & _); try lia;
    try (repeat constructor; lia);
    try (right; split; [unfold trimmed; cbn; lia|discriminate]).
  exists r. repeat split; trivial.
Defined.

(** On two magnitudes with digits in range, each without a most significant
    zero or a single digit, in a base [b] with [b * b <= 2 ^ 15], the
    Karatsuba recursion returns, once its fuel exceeds the sum of the two
    numbers, digits in range that denote the product, with the sign flag
    unset. *)
Theorem _multiply_numbers_contract (b : Z) (st : dtype) (fuel : nat)
  (x y : ndarray) :
  capacity b ->
  in_range b (elts x) -> in_range b (elts y) ->
  shape (elts x) -> shape (elts y) ->
  (Z.to_nat (digits_value b (elts x) + digits_value b (elts y)) < fuel)%nat ->
  exists r,
    _multiply_numbers b st fuel x y = Ok (r, false)
    /\ in_range b (elts r)
    /\ digits_value b (elts r) = digits_value b (elts x) * digits_value b (elts y).
Proof.
  intros Hcap Rx Ry Sx Sy Hf.
  apply (_multiply_numbers_spec b st (proj1 Hcap) (capacity_add b Hcap)); trivial.
  now apply capacity_room.
Qed.

Lemma _multiply_numbers_contract_witness :
  exists r,
    _multiply_numbers 10 int16 200 digits_99 digits_100 = Ok (r, false)
    /\ in_range 10 (elts r)
    /\ digits_value 10 (elts r) = 99 * 100.
Proof.
  apply (_multiply_numbers_contract 10 int16 200 digits_99 digits_100).
  - unfold capacity. lia.
  - repeat constructor; lia.
  - repeat constructor; lia.
  - left. unfold trimmed. cbn. lia.
  - left. unfold trimmed. cbn. lia.
  - cbn. lia.
Defined.

(** ** Signs of results *)

Lemma __mul___full (b : Z) (fuel : nat) (v w : BaseBigInteger) :
  capacity b -> canonical v -> canonical w -> _base v = b -> _base w = b ->
  (Z.to_nat (Z.abs (value_of v) + Z.abs (value_of w)) < fuel)%nat ->
  exists r,
    __mul__ fuel v w = Ok r
    /\ canonical r /\ _base r = b
    /\ _negative r = negb (eqb (_negative v) (_negative w))
    /\ digits_value b (elts (_number r))
       = digits_value b (elts (_number v)) * digits_value b (elts (_number w)).
Proof.
  intros Hcap Cv Cw Bv Bw Hf.
  destruct (__mul___room b (proj1 Hcap) (capacity_add b Hcap) fuel v w Cv Cw Bv Bw
              (capacity_room b _ Hcap) Hf) as (r & E & _ & C & B & _ & N & V).
  exists r. auto.
Qed.

(** The sign of a product is set exactly when the signs of the operands
    differ, also when the product is zero: a negative value times zero is a
    zero with the sign set. *)
Theorem product_sign (b : Z) (fuel : nat) (v w : BaseBigInteger) :
  capacity b -> canonical v -> canonical w -> _base v = b -> _base w = b ->
  (Z.to_nat (Z.abs (value_of v) + Z.abs (value_of w)) < fuel)%nat ->
  exists r,
    __mul__ fuel v w = Ok r
    /\ _negative r = xorb (_negative v) (_negative w)
    /\ (value_of w = 0 -> elts (_number r) = [0]).
Proof.
  intros Hcap Cv Cw Bv Bw Hf.
  destruct (__mul___full b fuel v w Hcap Cv Cw Bv Bw Hf) as (r & E & Cr & Br & Nr & Vr).
  exists r. split; [exact E|]. split.
  - rewrite Nr. destruct (_negative v), (_negative w); reflexivity.
  - intros Hz. apply (canon_zero b); [apply Hcap| |now apply canonical_canon|].
    + destruct Cr as (_ & R & _). unfold inv_digits in R. now rewrite Br in R.
    + rewrite Vr. unfold value_of, signed in Hz. rewrite Bw in Hz.
      destruct (_negative w); nia.
Qed.

Lemma product_sign_witness :
  exists r,
    __mul__ 50 minus_15 zero_10 = Ok r
    /\ _negative r = true
    /\ elts (_number r) = [0].
Proof.
  destruct (product_sign 10 50 minus_15 zero_10) as (r & E & N & Z0).
  - unfold capacity. lia.
  - exact canonical_minus_15.
  - repeat split; [discriminate|repeat constructor; cbn; lia|now left].
  - reflexivity.
  - reflexivity.
  - cbn. lia.
  - exists r. split; [exact E|]. split; [exact N|]. apply Z0. reflexivity.
Defined.

(** Subtracting a value from itself gives the single digit zero carrying
    the sign of the value: the difference of a negative value with itself is
    a zero with the sign set. *)
Theorem sub_self_keeps_sign (b : Z) (v : BaseBigInteger) :
  2 <= b -> 2 * b <= 2 ^ 15 -> canonical v -> _base v = b ->
  exists r,
    __sub__ v v = Ok r
    /\ elts (_number r) = [0] /\ _negative r = _negative v.
Proof.
  intros Hb Hadd Cv Bv.
  assert (Rv : in_range b (elts (_number v)))
    by (destruct Cv as (_ & R & _); unfold inv_digits in R; now rewrite Bv in R).
  pose proof (canonical_canon v Cv) as Cn.
  destruct (_add_numbers_canon b (_store v) (_number v) (_number v) (_negative v)
              (negb (_negative v)) Hb Hadd Rv Rv Cn Cn) as (r & E & Rr & Tr & Vr).
  rewrite swapped_self in E, Vr.
  assert (Hz : digits_value b (elts r) = 0).
  { unfold signed in Vr. destruct (_negative v); cbn [negb] in Vr; lia. }
  unfold __sub__. rewrite Bv, E. cbn [bind].
  destruct (__init___array b Hb r (_negative v) (_store v) Rr
              ltac:(right; apply in_dtype_small; lia))
    as (p & Ep & Bp & Np & Sp & Cp & Vp & _).
  exists p. split; [exact Ep|]. split; [|exact Np].
  apply (canon_zero b); trivial.
  - destruct Cp as (_ & R & _). unfold inv_digits in R. now rewrite Bp in R.
  - now apply canonical_canon.
  - now rewrite Vp.
Qed.

Lemma sub_self_keeps_sign_witness :
  exists r,
    __sub__ minus_15 minus_15 = Ok r
    /\ elts (_number r) = [0] /\ _negative r = true.
Proof.
  apply (sub_self_keeps_sign 10 minus_15); try lia; try reflexivity.
  exact canonical_minus_15.
Defined.

(** ** Commutativity of the product *)

(** The two orders of a product give the same digits, sign and base. *)
Theorem __mul___commutative (b : Z) (fuel : nat) (v w : BaseBigInteger) :
  capacity b -> canonical v -> canonical w -> _base v = b -> _base w = b ->
  (Z.to_nat (Z.abs (value_of v) + Z.abs (value_of w)) < fuel)%nat ->
  exists r r',
    __mul__ fuel v w = Ok r /\ __mul__ fuel w v = Ok r' /\ same_value r r'.
Proof.
  intros Hcap Cv Cw Bv Bw Hf.
  destruct (__mul___full b fuel v w Hcap Cv Cw Bv Bw Hf)
    as (r & E & Cr & Br & Nr & Vr).
  destruct (__mul___full b fuel w v Hcap Cw Cv Bw Bv ltac:(lia))
    as (r' & E' & Cr' & Br' & Nr' & Vr').
  exists r, r'. split; [exact E|]. split; [exact E'|].
  unfold same_value. split; [|split].
  - apply (canon_unique b); try (now apply canonical_canon); [apply Hcap| | |].
    + destruct Cr as (_ & R & _). unfold inv_digits in R. now rewrite Br in R.
    + destruct Cr' as (_ & R & _). unfold inv_digits in R. now rewrite Br' in R.
    + rewrite Vr, Vr'. ring.
  - rewrite Nr, Nr'. destruct (_negative v), (_negative w); reflexivity.
  - now rewrite Br, Br'.
Qed.

Lemma __mul___commutative_witness :
  exists r r',
    __mul__ 50 wide_12 wide_34 = Ok r /\ __mul__ 50 wide_34 wide_12 = Ok r'
    /\ same_value r r'.
Proof.
  apply (__mul___commutative 10 50 wide_12 wide_34).
  - unfold capacity. lia.
  - exact (proj1 canonical_wide).
  - exact (proj2 canonical_wide).
  - reflexivity.
  - reflexivity.
  - cbn. lia.
Defined.

(** ** Shifting there and back *)

(** Shifting a canonical value other than zero, whose digit array holds
    the base, left by [k] digits and then right by [k] digits gives back
    its digits, sign and base. *)
Theorem shift_left_then_right (b : Z) (v : BaseBigInteger) (k : Z) :
  2 <= b -> canonical v -> _base v = b ->
  in_dtype (dt (_number v)) b ->
  elts (_number v) <> [0] -> 0 <= k ->
  exists r r',
    shift v k = Ok r /\ shift r (- k) = Ok r' /\ same_value r' v.
Proof.
  intros Hb Cv Bv Hfit Hnz Hk.
  destruct (shift_spec b Hb v k Cv Bv (or_intror Hfit))
    as (r & E & Br & Sr & Dr & Nr & Tr).
  assert (Rv : in_range b (elts (_number v)))
    by (destruct Cv as (_ & R & _); unfold inv_digits in R; now rewrite Bv in R).
  pose proof (canonical_canon v Cv) as Cn.
  assert (Nv : elts (_number v) <> [])
    by (destruct Cn as [?|[_ ?]]; [contradiction|assumption]).
  assert (Tv : trimmed (elts (_number v)))
    by (destruct Cn as [?|[T _]]; [contradiction|exact T]).
  assert (Cr : canonical r).
  { unfold canonical, inv_nonempty, inv_digits, inv_no_leading_zero.
    rewrite Br, Dr. destruct (Z.eqb_spec k 0) as [->|K0].
    - split; [exact Nv|]. split; [exact Rv|now right].
    - rewrite Z.gtb_ltb. destruct (Z.ltb_spec 0 k); [|lia].
      split; [|split].
      + intros C. apply app_eq_nil in C. destruct C as [_ C]. contradiction.
      + apply in_range_app. split; [apply in_range_repeat0; lia|exact Rv].
      + right. unfold trimmed. now rewrite last_app_nonempty. }
  assert (Fr : (length (elts (_number r)) <= 1)%nat \/ in_dtype (dt (_number r)) b).
  { right. rewrite Tr. destruct (Z.eqb_spec k 0); trivial.
    rewrite Z.gtb_ltb. destruct (Z.ltb_spec 0 k); [|lia].
    exact (proj2 (in_dtype_promote _ _ _ Hfit)). }
  destruct (shift_spec b Hb r (- k) Cr Br Fr) as (r' & E' & Br' & Sr' & Dr' & Nr' & _).
  exists r, r'. split; [exact E|]. split; [exact E'|].
  unfold same_value. rewrite Br', Bv.
  destruct (Z.eqb_spec k 0) as [->|K0].
  - cbn in Dr', Nr', Dr, Nr. now rewrite Dr', Nr', Dr, Nr.
  - rewrite Z.gtb_ltb in Dr. destruct (Z.ltb_spec 0 k); [|lia].
    assert ((k <? 0) = false) as Hkn by (apply Z.ltb_ge; lia).
    rewrite Hkn in Nr. cbn [andb] in Nr.
    destruct (Z.eqb_spec (- k) 0); [lia|].
    rewrite Z.gtb_ltb in Dr'. destruct (Z.ltb_spec 0 (- k)); [lia|].
    assert (Hl : len (_number r) = k + len (_number v)).
    { unfold len. rewrite Dr, length_app, repeat_length. lia. }
    assert (Lv : 0 < len (_number v)).
    { unfold len. destruct (elts (_number v)); [contradiction|cbn [length]; lia]. }
    rewrite Z.gtb_ltb in Dr', Nr'.
    destruct (Z.ltb_spec 0 (len (_number r) + - k)); [|lia].
    rewrite Bool.andb_false_r in Nr'.
    repeat split; trivial.
    + rewrite Dr', Dr. replace (- - k) with k by lia.
      rewrite skipn_app, repeat_length, Nat.sub_diag.
      rewrite skipn_all2 by (rewrite repeat_length; lia). reflexivity.
    + now rewrite Nr', Nr.
Qed.

Lemma shift_left_then_right_witness :
  exists r r',
    shift minus_15 4 = Ok r /\ shift r (- 4) = Ok r' /\ same_value r' minus_15.
Proof.
  apply (shift_left_then_right 10 minus_15 4); try lia; try reflexivity.
  - exact canonical_minus_15.
  - apply in_dtype_small. lia.
  - discriminate.
Defined.

(** A value of one digit in a base that its 16-bit digit array does not
    hold can be shifted to the left, but the result cannot be shifted
    back: its normalization raises an [OverflowError]. *)
Theorem shift_back_overflow :
  exists v r,
    __init__ (PyInt 5) 32768 false default_store = Ok v
    /\ shift v 1 = Ok r
    /\ _number r = mk_nd int16 [0; 5]
    /\ shift r (- 1) = Raises OverflowError.
Proof.
  eexists. eexists.
  split; [vm_compute; reflexivity|].
  split; [vm_compute; reflexivity|].
  split; vm_compute; reflexivity.
Qed.

(** ** Decoding decimal strings and empty inputs *)

(** In a base from 2 to 10, a string of decimal digit characters (after an
    optional minus sign) is decoded to the canonical value of the number it
    spells positionally in that base, digits at or above the base being
    carried into higher positions; the sign is set when the string starts
    with a minus sign or the [negative] argument is set. *)
Theorem decimal_string_value (s : string) (b : Z) (neg : bool) (st : dtype) :
  2 <= b <= 10 -> sign_stripped s <> EmptyString ->
  Forall (fun c => is_decimal c = true) (list_ascii_of_string (sign_stripped s)) ->
  exists v,
    __init__ (PyStr s) b neg st = Ok v
    /\ canonical v
    /\ digits_value b (elts (_number v))
       = digits_value b (decimal_digits (sign_stripped s))
    /\ _negative v = (starts_with_minus s || neg).
Proof.
  intros Hb Hne Hall.
  destruct (__init___decimal_string s b neg st Hb Hne Hall)
    as (v & E & C & _ & _ & V & N).
  exists v. auto.
Qed.

Lemma decimal_string_value_witness :
  exists v,
    __init__ (PyStr "-907") 2 false default_store = Ok v
    /\ canonical v
    /\ digits_value 2 (elts (_number v)) = 9 * 4 + 0 * 2 + 7
    /\ _negative v = true.
Proof.
  apply (decimal_string_value "-907" 2 false default_store).
  - lia.
  - discriminate.
  - cbn. repeat constructor.
Defined.

Lemma remove_minus_signs (n : nat) : remove_minus (minus_signs n) = EmptyString.
Proof. induction n as [|n IH]; [reflexivity|exact IH]. Qed.

(** The empty string is rejected with an [IndexError]; a string made of
    minus signs only is decoded to the single digit zero with the sign
    set. *)
Theorem empty_and_minus_strings (n : nat) (b : Z) (neg : bool) (st : dtype) :
  2 <= b <= 2 ^ 15 ->
  __init__ (PyStr EmptyString) b neg st = Raises IndexError
  /\ exists v,
       __init__ (PyStr (minus_signs (S n))) b neg st = Ok v
       /\ elts (_number v) = [0] /\ _negative v = true.
Proof.
  intros [Hb Hb16]. split; [reflexivity|].
  assert (E : str_digits (minus_signs (S n)) b neg st = Ok (np_zeros 1 st, true)).
  { unfold str_digits. cbn [minus_signs]. change (is_minus "-") with true. cbv iota.
    change (remove_minus (String "-" (minus_signs n)))
      with (remove_minus (minus_signs (S n))).
    rewrite remove_minus_signs. reflexivity. }
  rewrite (__init___str_as_array _ _ _ _ _ _ E) by discriminate.
  destruct (__init___array b Hb (np_zeros 1 st) true st)
    as (v & Ev & _ & Nv & _ & _ & _ & Dv & _).
  { constructor; [lia|constructor]. }
  { left. change (elts (np_zeros 1 st)) with [0]. cbn [length]. lia. }
  exists v. split; [exact Ev|]. split; [|exact Nv].
  apply Dv. now left.
Qed.

Lemma empty_and_minus_strings_witness :
  __init__ (PyStr EmptyString) 10 false default_store = Raises IndexError
  /\ exists v,
       __init__ (PyStr "---") 10 false default_store = Ok v
       /\ elts (_number v) = [0] /\ _negative v = true.
Proof. apply (empty_and_minus_strings 2 10 false default_store). lia. Defined.

(** An empty digit array is replaced by the single digit zero of the
    requested store, which keeps the sign that was passed. *)
Theorem empty_array_is_zero (t : dtype) (b : Z) (neg : bool) (st : dtype) :
  2 <= b <= 2 ^ 15 ->
  exists v,
    __init__ (PyArray (mk_nd t [])) b neg st = Ok v
    /\ elts (_number v) = [0] /\ _negative v = neg /\ dt (_number v) = st.
Proof.
  intros [Hb Hb16]. unfold __init__. cbn [bind].
  change (len (mk_nd t []) <? 1) with true. cbv iota.
  change (0 <? len (np_zeros 1 st)) with true. cbv iota.
  rewrite (propogate_carryovers_id b Hb);
    [|constructor; [lia|constructor]|discriminate|now left].
  cbn [bind]. eexists. split; [reflexivity|]. cbn. auto.
Qed.

Lemma empty_array_is_zero_witness :
  exists v,
    __init__ (PyArray (mk_nd int64 [])) 16 true int32 = Ok v
    /\ elts (_number v) = [0] /\ _negative v = true /\ dt (_number v) = int32.
Proof. apply (empty_array_is_zero int64 16 true int32). lia. Defined.

(** Construction from a native-range integer gives the canonical digits of
    its absolute value; the sign is set when the integer is negative or the
    [negative] argument is set, so zero constructed with [negative] set is a
    zero with the sign set. *)
Theorem construct_from_int (n b : Z) (negative : bool) (st : dtype) :
  2 <= b <= 2 ^ 15 -> - 2 ^ 63 < n < 2 ^ 63 ->
  exists v,
    __init__ (PyInt n) b negative st = Ok v
    /\ canonical v
    /\ digits_value b (elts (_number v)) = Z.abs n
    /\ _negative v = ((n <? 0) || negative).
Proof.
  intros [Hb Hb16] Hn.
  destruct (__init___int b Hb Hb16 n negative st Hn) as (v & E & _ & _ & N & C & V & _).
  exists v. split; [exact E|]. split; [exact C|]. split; [exact V|].
  rewrite N. now destruct (n <? 0).
Qed.

Lemma construct_from_int_witness :
  exists v,
    __init__ (PyInt 0) 10 true default_store = Ok v
    /\ canonical v
    /\ digits_value 10 (elts (_number v)) = 0
    /\ _negative v = true.
Proof. apply (construct_from_int 0 10 true default_store); lia. Defined.

(** ** Addition commutes and associates *)

Lemma canonical_same_value_digits (b : Z) (v w : BaseBigInteger) :
  2 <= b -> canonical v -> canonical w -> _base v = b -> _base w = b ->
  value_of v = value_of w -> elts (_number v) = elts (_number w).
Proof.
  intros Hb Cv Cw Bv Bw Hv.
  assert (Rv : in_range b (elts (_number v)))
    by (destruct Cv as (_ & R & _); unfold inv_digits in R; now rewrite Bv in R).
  assert (Rw : in_range b (elts (_number w)))
    by (destruct Cw as (_ & R & _); unfold inv_digits in R; now rewrite Bw in R).
  apply (canon_unique b); trivial; try now apply canonical_canon.
  pose proof (digits_value_bound b Hb _ Rv).
  pose proof (digits_value_bound b Hb _ Rw).
  unfold value_of, signed in Hv. rewrite Bv, Bw in Hv.
  destruct (_negative v), (_negative w); lia.
Qed.

(** The two orders of a sum of canonical values have the same digits and
    denote the same number. *)
Theorem __add___commutative (b : Z) (v w : BaseBigInteger) :
  2 <= b -> 2 * b <= 2 ^ 15 ->
  canonical v -> canonical w -> _base v = b -> _base w = b ->
  exists r r',
    __add__ v w = Ok r /\ __add__ w v = Ok r'
    /\ elts (_number r) = elts (_number r') /\ value_of r = value_of r'.
Proof.
  intros Hb Hadd Cv Cw Bv Bw.
  destruct (__add___spec b Hb Hadd v w Cv Cw Bv Bw) as (r & E & V & C & B & _).
  destruct (__add___spec b Hb Hadd w v Cw Cv Bw Bv) as (r' & E' & V' & C' & B' & _).
  assert (Hv : value_of r = value_of r') by lia.
  exists r, r'. repeat split; trivial.
  now apply (canonical_same_value_digits b).
Qed.

Lemma __add___commutative_witness :
  exists r r',
    __add__ minus_15 zero_10 = Ok r /\ __add__ zero_10 minus_15 = Ok r'
    /\ elts (_number r) = elts (_number r') /\ value_of r = value_of r'.
Proof.
  apply (__add___commutative 10 minus_15 zero_10); try lia; try reflexivity.
  - exact canonical_minus_15.
  - repeat split; [discriminate|repeat constructor; cbn; lia|now left].
Defined.

(** Sums of three canonical values associate: both groupings return, and
    their results have the same digits and denote the same number. *)
Theorem __add___associative (b : Z) (u v w : BaseBigInteger) :
  2 <= b -> 2 * b <= 2 ^ 15 ->
  canonical u -> canonical v -> canonical w ->
  _base u = b -> _base v = b -> _base w = b ->
  exists uv vw r r',
    __add__ u v = Ok uv /\ __add__ uv w = Ok r
    /\ __add__ v w = Ok vw /\ __add__ u vw = Ok r'
    /\ elts (_number r) = elts (_number r') /\ value_of r = value_of r'.
Proof.
  intros Hb Hadd Cu Cv Cw Bu Bv Bw.
  destruct (__add___spec b Hb Hadd u v Cu Cv Bu Bv) as (uv & E1 & V1 & C1 & B1 & _).
  destruct (__add___spec b Hb Hadd uv w C1 Cw B1 Bw) as (r & E2 & V2 & C2 & B2 & _).
  destruct (__add___spec b Hb Hadd v w Cv Cw Bv Bw) as (vw & E3 & V3 & C3 & B3 & _).
  destruct (__add___spec b Hb Hadd u vw Cu C3 Bu B3) as (r' & E4 & V4 & C4 & B4 & _).
  assert (Hv : value_of r = value_of r') by lia.
  exists uv, vw, r, r'. repeat split; trivial.
  now apply (canonical_same_value_digits b).
Qed.

Lemma __add___associative_witness :
  exists uv vw r r',
    __add__ minus_15 wide_12 = Ok uv /\ __add__ uv wide_34 = Ok r
    /\ __add__ wide_12 wide_34 = Ok vw /\ __add__ minus_15 vw = Ok r'
    /\ elts (_number r) = elts (_number r') /\ value_of r = value_of r'.
Proof.
  apply (__add___associative 10 minus_15 wide_12 wide_34); try lia; try reflexivity.
  - exact canonical_minus_15.
  - exact (proj1 canonical_wide).
  - exact (proj2 canonical_wide).
Defined.

(** ** Empty operands *)

Lemma propogate_carryovers_empty (b : Z) (st : dtype) (a : ndarray) (base : Z)
  (neg : bool) :
  elts a = [] -> propogate_carryovers b st a base neg = Ok (np_zeros 1 st, false).
Proof. intros E. unfold propogate_carryovers. now rewrite E. Qed.

(** When one of the operands is the empty array the multiplier returns the
    single digit zero of the configured store with the sign flag unset,
    whatever the other operand and the base are. *)
Theorem _multiply_numbers_empty (b : Z) (st : dtype) (fuel : nat) (x y : ndarray) :
  elts x = [] \/ elts y = [] ->
  _multiply_numbers b st (S fuel) x y = Ok (np_zeros 1 st, false).
Proof.
  intros H. cbn [_multiply_numbers].
  assert (Hx : 0 <= len x) by (unfold len; lia).
  assert (Hy : 0 <= len y) by (unfold len; lia).
  assert (Lz : forall a, elts a = [] -> len a = 0)
    by (intros a Ea; unfold len; now rewrite Ea).
  assert (Zl : forall a, len a = 0 -> elts a = []).
  { intros a La. unfold len in La. destruct (elts a); [reflexivity|cbn [length] in La; lia]. }
  destruct (Z.ltb_spec (len x) (len y)) as [L|L].
  - (* the operands are exchanged: the second one, [x], is empty *)
    assert (Ex : elts x = []).
    { destruct H as [E|E]; trivial. rewrite (Lz y E) in L. lia. }
    destruct (Z.eqb_spec (len y) 1).
    + apply propogate_carryovers_empty. unfold np_scale. cbn [elts]. now rewrite Ex.
    + rewrite (Lz x Ex). change (0 =? 1) with false. cbv iota.
      change (0 =? 0) with true. now rewrite Bool.orb_true_r.
  - (* no exchange: the second one, [y], is empty *)
    assert (Ey : elts y = []).
    { destruct H as [E|E]; trivial. apply Zl. rewrite (Lz x E) in L. lia. }
    destruct (Z.eqb_spec (len x) 1).
    + apply propogate_carryovers_empty. unfold np_scale. cbn [elts]. now rewrite Ey.
    + rewrite (Lz y Ey). change (0 =? 1) with false. cbv iota.
      change (0 =? 0) with true. now rewrite Bool.orb_true_r.
Qed.

Lemma _multiply_numbers_empty_witness :
  _multiply_numbers 10 int32 3 digits_99 (empty_array int16)
  = Ok (np_zeros 1 int32, false).
Proof. apply _multiply_numbers_empty. right. reflexivity. Defined.

(** Adding the empty array to a non-empty operand with digits in range,
    of one digit or in an array that holds the base, returns that operand's
    digits without its most significant zeros, and that operand's sign,
    whichever side the empty array is on and whatever sign it is given. *)
Theorem _add_numbers_empty_operand (b : Z) (st : dtype) (n : ndarray) (t : dtype)
  (s s' : bool) :
  2 <= b -> in_range b (elts n) -> elts n <> [] ->
  length (elts n) = 1%nat \/ in_dtype (dt n) b ->
  _add_numbers b st n s (empty_array t) s' = Ok (np_trim_zeros n, s)
  /\ _add_numbers b st (empty_array t) s' n s = Ok (np_trim_zeros n, s).
Proof.
  intros Hb Hr Hne Hfit.
  assert (Hlen : 0 < Z.of_nat (length (elts n)))
    by (destruct (elts n); [contradiction|cbn [length]; lia]).
  assert (S1 : swapped n (empty_array t) = false).
  { unfold swapped, len. cbn [empty_array elts length].
    assert ((Z.of_nat (length (elts n)) <? Z.of_nat 0) = false) as ->
      by (apply Z.ltb_ge; lia).
    assert ((Z.of_nat (length (elts n)) =? Z.of_nat 0) = false) as ->
      by (apply Z.eqb_neq; lia).
    reflexivity. }
  assert (S2 : swapped (empty_array t) n = true).
  { unfold swapped, len. cbn [empty_array elts length].
    assert ((Z.of_nat 0 <? Z.of_nat (length (elts n))) = true) as ->
      by (apply Z.ltb_lt; lia).
    reflexivity. }
  assert (O : forall f, overlap_op f (elts n) [] = elts n) by (intros f; now destruct (elts n)).
  split; unfold _add_numbers, get_bigger_smaller.
  - rewrite S1. cbn [empty_array elts dt]. rewrite O.
    rewrite (propogate_carryovers_id b Hb st (mk_nd (dt n) (elts n)) s Hr Hne Hfit).
    reflexivity.
  - rewrite S2. cbn [empty_array elts dt]. rewrite O.
    rewrite (propogate_carryovers_id b Hb st (mk_nd (dt n) (elts n)) s Hr Hne Hfit).
    reflexivity.
Qed.

Lemma _add_numbers_empty_operand_witness :
  _add_numbers 10 int16 digits_100 true (empty_array int64) false
  = Ok (np_trim_zeros digits_100, true)
  /\ _add_numbers 10 int16 (empty_array int64) false digits_100 true
     = Ok (np_trim_zeros digits_100, true).
Proof.
  apply (_add_numbers_empty_operand 10 int16 digits_100 int64 true false).
  - lia.
  - repeat constructor; lia.
  - discriminate.
  - right. apply in_dtype_small. lia.
Defined.
